(** * EduMate: the agentic comic pipeline

    A shallow embedding of the workflow orchestrator ([agents.py]), of the
    datastore operations it uses ([database.py]) and of the rendering driver
    ([GenerateComicAgentic.py]), followed by the properties of the
    specification that are settled on it.

    Conventions of the embedding.
    - A Python [str] is a list of Unicode code points.
    - A Python exception is the message [str(e)] it carries; a computation
      that may raise returns an [outcome].
    - Code that touches the datastore, the text and image services, the
      clock or the object's attributes runs in the monad [M]: it threads the
      [World] and keeps every change made before an exception was raised,
      as Python does.
    - The external services are a [Backend] record of oracles indexed by the
      number of service calls made so far: any call may return anything or
      raise, and a later call may behave differently from an earlier one.
      The methods of [GeminiFlashClient] and [GoogleImagenClient] are such
      oracles; a statement of the datastore either raises and writes
      nothing, or writes and returns.
    - A dict whose keys are fixed by the code is a record; a key that may be
      absent is an [option] field, read with the default [.get] gives.  A
      dict whose keys are computed is an association list in insertion
      order.
    - The tasks of the worker pool share nothing but the dict
      [generated_images_paths], which each of them writes once; a run of
      the pool is therefore a run of its tasks one after the other in the
      order of their writes, an order the [Scheduler] chooses.
    - Left out: standard output, the pixels of the images, timestamps of
      the tables, and the fractions of a millisecond of the clock. *)

From Stdlib Require Import String Ascii.
From Stdlib Require Import List ZArith NArith QArith Lia Bool DecimalString.
From Stdlib Require Import Sorting.Sorted Sorting.Permutation.
Import ListNotations.

Set Implicit Arguments.
Local Open Scope Z_scope.

(* ===================================================================== *)
(** ** Python strings *)
(* ===================================================================== *)

Module PyStr.

(** A character is its code point. *)
Definition char := N.
Definition str := list char.

(** A literal of the source, written in ASCII. *)
Definition lit (s : string) : str :=
  map N_of_ascii (list_ascii_of_string s).

Definition newline : char := 10%N.
Definition space : char := 32%N.
Definition colon : char := 58%N.

(** [str.isspace] on one character: the code points CPython's
    [_PyUnicode_IsWhitespace] accepts. *)
Definition isspace (c : char) : bool :=
  ((9 <=? c) && (c <=? 13) || (28 <=? c) && (c <=? 32)
   || (c =? 133) || (c =? 160) || (c =? 5760)
   || (8192 <=? c) && (c <=? 8202)
   || (c =? 8232) || (c =? 8233) || (c =? 8239) || (c =? 8287)
   || (c =? 12288))%N.

Definition str_eqb (a b : str) : bool :=
  if list_eq_dec N.eq_dec a b then true else false.

(** [s.startswith(p)] *)
Fixpoint startswith (p s : str) : bool :=
  match p, s with
  | [], _ => true
  | _ :: _, [] => false
  | a :: p', b :: s' => (a =? b)%N && startswith p' s'
  end.

(** [c in s] for a one-character [c] *)
Definition contains_char (c : char) (s : str) : bool :=
  existsb (N.eqb c) s.

(** [needle in s] *)
Fixpoint contains (needle s : str) : bool :=
  startswith needle s ||
  match s with
  | [] => false
  | _ :: s' => contains needle s'
  end.

(** [s.lstrip(chars)], [s.rstrip(chars)] and [s.strip(chars)] for a set of
    characters given by its membership test. *)
Fixpoint lstrip_by (f : char -> bool) (s : str) : str :=
  match s with
  | [] => []
  | c :: s' => if f c then lstrip_by f s' else s
  end.

Definition rstrip_by (f : char -> bool) (s : str) : str :=
  rev (lstrip_by f (rev s)).

Definition strip_by (f : char -> bool) (s : str) : str :=
  rstrip_by f (lstrip_by f s).

(** [s.strip()] *)
Definition strip (s : str) : str := strip_by isspace s.

(** [s.split(sep)] for a one-character separator: the pieces between the
    separators, empty pieces kept. *)
Fixpoint split_sep (sep : char) (s : str) : list str :=
  match s with
  | [] => [[]]
  | c :: s' =>
      if (c =? sep)%N then [] :: split_sep sep s'
      else match split_sep sep s' with
           | [] => [[c]]
           | w :: ws => (c :: w) :: ws
           end
  end.

(** The text before and after the first [sep] of [s], if there is one. *)
Fixpoint partition_first (sep : char) (s : str) : option (str * str) :=
  match s with
  | [] => None
  | c :: s' =>
      if (c =? sep)%N then Some ([], s')
      else match partition_first sep s' with
           | Some (a, b) => Some (c :: a, b)
           | None => None
           end
  end.

(** [s.split(sep, 1)] *)
Definition split_sep1 (sep : char) (s : str) : list str :=
  match partition_first sep s with
  | Some (a, b) => [a; b]
  | None => [s]
  end.

(** [s.split()]: the maximal runs of non-whitespace characters.  [cur] is
    the run being read, last character first. *)
Fixpoint split_ws_from (cur : str) (s : str) : list str :=
  match s with
  | [] => match cur with [] => [] | _ :: _ => [rev cur] end
  | c :: s' =>
      if isspace c then
        match cur with
        | [] => split_ws_from [] s'
        | _ :: _ => rev cur :: split_ws_from [] s'
        end
      else split_ws_from (c :: cur) s'
  end.

Definition split (s : str) : list str := split_ws_from [] s.

(** [sep.join(parts)] *)
Fixpoint join (sep : str) (parts : list str) : str :=
  match parts with
  | [] => []
  | [p] => p
  | p :: ps => p ++ sep ++ join sep ps
  end.

(** [s.count(c)] for a one-character [c] *)
Definition count_char (c : char) (s : str) : nat :=
  length (filter (N.eqb c) s).

(** [str(x)] inside an f-string for a value that may be [None]. *)
Definition fmt_opt (o : option str) : str :=
  match o with
  | Some s => s
  | None => lit "None"
  end.

End PyStr.
Import PyStr.

(* ===================================================================== *)
(** ** Exceptions *)
(* ===================================================================== *)

(** An exception is identified with its message. *)
Definition exn := str.

Inductive outcome (A : Type) : Type :=
| Returned (a : A)
| Raised (e : exn).
Arguments Returned {A} a.
Arguments Raised {A} e.

Definition obind {A B} (c : outcome A) (k : A -> outcome B) : outcome B :=
  match c with
  | Returned a => k a
  | Raised e => Raised e
  end.

(** [l[i]] *)
Definition py_index {A} (l : list A) (i : nat) : outcome A :=
  match nth_error l i with
  | Some a => Returned a
  | None => Raised (lit "list index out of range")
  end.

(** [d[key]] for a key that may be absent. *)
Definition py_key {A} (key : string) (field : option A) : outcome A :=
  match field with
  | Some a => Returned a
  | None => Raised (lit "KeyError: " ++ lit key)
  end.

(** [d.get(key, default)] *)
Definition get_default {A} (field : option A) (default : A) : A :=
  match field with
  | Some a => a
  | None => default
  end.

(* ===================================================================== *)
(** ** The script parser ([ContentIntelligenceAgent]) *)
(* ===================================================================== *)

Record DialogueItem := {
  character : option str;
  dialogue : option str
}.

Record Scene := {
  scene_number : option Z;
  dialogues : option (list DialogueItem)
}.

(** The loop variables of [_parse_educational_content]. *)
Definition parse_state := (list Scene * option Scene)%type.

(** [if current_scene: scenes.append(current_scene)].  The dict always has
    its two keys, so it is truthy exactly when it is not [None]. *)
Definition flush_scene (scenes : list Scene) (current_scene : option Scene)
  : list Scene :=
  match current_scene with
  | Some cs => scenes ++ [cs]
  | None => scenes
  end.

(** One iteration of the [for line in lines] loop. *)
Definition parse_line (st : parse_state) (line0 : str) : outcome parse_state :=
  let '(scenes, current_scene) := st in
  let line := strip line0 in
  if startswith (lit "SCENE") line then
    let scenes := flush_scene scenes current_scene in
    Returned (scenes,
              Some {| scene_number := Some (Z.of_nat (length scenes) + 1);
                      dialogues := Some [] |})
  else
    match current_scene with
    | Some cs =>
        if contains_char colon line then
          if negb (startswith (lit "CHARACTERS:") line)
             && negb (startswith (lit "EDUCATIONAL_SUMMARY:") line)
          then
            let parts := split_sep1 colon line in
            if (length parts =? 2)%nat then
              obind (py_index parts 0) (fun p0 =>
              obind (py_index parts 1) (fun p1 =>
              obind (py_key "dialogues" (dialogues cs)) (fun ds =>
              Returned
                (scenes,
                 Some {| scene_number := scene_number cs;
                         dialogues :=
                           Some (ds ++ [{| character := Some (strip p0);
                                           dialogue := Some (strip p1) |}])
                      |}))))
            else Returned st
          else Returned st
        else Returned st
    | None => Returned st
    end.

Fixpoint parse_lines (st : parse_state) (lines : list str)
  : outcome parse_state :=
  match lines with
  | [] => Returned st
  | line :: rest => obind (parse_line st line) (fun st' => parse_lines st' rest)
  end.

Definition _parse_educational_content (content : str) : outcome (list Scene) :=
  let lines := split_sep newline content in
  obind (parse_lines ([], None) lines) (fun '(scenes, current_scene) =>
  Returned (flush_scene scenes current_scene)).

(** The lines of a script that open a scene. *)
Definition is_scene_line (line : str) : bool :=
  startswith (lit "SCENE") (strip line).

Definition scene_line_count (content : str) : nat :=
  length (filter is_scene_line (split_sep newline content)).

(* ===================================================================== *)
(** ** Dialogue wrapping ([GenerateComicAgentic.add_line_breaks]) *)
(* ===================================================================== *)

(** The [for i, word in enumerate(words)] loop, from index [i] on. *)
Fixpoint add_line_breaks_from (i : nat) (words : list str) (new_text : str)
  : str :=
  match words with
  | [] => new_text
  | word :: rest =>
      let new_text := new_text ++ word in
      let new_text :=
        if ((i + 1) mod 7 =? 0)%nat then new_text ++ [newline]
        else new_text ++ [space] in
      add_line_breaks_from (S i) rest new_text
  end.

Definition add_line_breaks (text : str) : str :=
  add_line_breaks_from 0 (split text) [].

(* ===================================================================== *)
(** ** The data passed between the agents *)
(* ===================================================================== *)

Definition path := str.

(** [str(n)] for an [int]. *)
Definition str_of_Z (n : Z) : str := lit (NilZero.string_of_int (Z.to_int n)).
Definition str_of_nat (n : nat) : str := str_of_Z (Z.of_nat n).

(** A row fetched from the datastore; only the number of rows is used. *)
Definition Row := list str.

(** One entry of the character registry. *)
Record CharacterInfo := {
  ci_personality : option str;
  ci_role : option str
}.

Record ContentAnalysis := {
  ca_topic : option str;
  ca_age_group : str;
  ca_language : str;
  ca_scene_count : nat;
  ca_character_count : nat
}.

(** [result_data] of [ContentIntelligenceAgent.execute]. *)
Record ContentData := {
  cd_educational_content : str;
  cd_characters : list (str * CharacterInfo);
  cd_scenes : list Scene;
  cd_similar_content_found : nat;
  cd_successful_patterns : nat;
  cd_content_analysis : ContentAnalysis
}.

(** The [input_data] mapping of an agent: the user's request, merged by the
    orchestrator with the output of the content agent. *)
Record InputData := {
  topic : option str;
  visual_style : option str;
  age_group : option str;
  language : option str;
  user_id : option str;
  educational_content : option str;
  characters : option (list (str * CharacterInfo));
  scenes : option (list Scene);
  similar_content_found : option nat;
  successful_patterns : option nat;
  content_analysis : option ContentAnalysis
}.

(** [{**user_input, **content_result.data}] *)
Definition merge_content (user_input : InputData) (d : ContentData)
  : InputData :=
  {| topic := topic user_input;
     visual_style := visual_style user_input;
     age_group := age_group user_input;
     language := language user_input;
     user_id := user_id user_input;
     educational_content := Some (cd_educational_content d);
     characters := Some (cd_characters d);
     scenes := Some (cd_scenes d);
     similar_content_found := Some (cd_similar_content_found d);
     successful_patterns := Some (cd_successful_patterns d);
     content_analysis := Some (cd_content_analysis d) |}.

Definition is_some {A} (o : option A) : bool :=
  match o with Some _ => true | None => false end.

(** Truth value of the mapping: it has a key. *)
Definition input_truthy (i : InputData) : bool :=
  is_some (topic i) || is_some (visual_style i) || is_some (age_group i)
  || is_some (language i) || is_some (user_id i)
  || is_some (educational_content i) || is_some (characters i)
  || is_some (scenes i) || is_some (similar_content_found i)
  || is_some (successful_patterns i) || is_some (content_analysis i).

(** The two values of the key ['type'] of a visual prompt. *)
Inductive PromptType := Poster | ScenePrompt.

Record VisualPrompt := {
  vp_type : PromptType;
  prompt : str;
  vp_scene_number : Z;
  vp_character : option str;
  vp_dialogue : option str;
  similar_templates : option nat
}.

(** [result_data] of [VisualGenerationAgent.execute]. *)
Record VisualData := {
  visual_prompts : list VisualPrompt;
  total_prompts : nat;
  poster_prompt : str;
  characters_processed : nat;
  scenes_processed : nat
}.

Record SceneValidation := {
  sv_scene_number : option Z;
  sv_character : str;
  sv_dialogue : str;
  sv_analysis : str
}.

Record ValidationSummary := {
  content_approved : bool;
  scenes_checked : nat;
  improvement_count : nat
}.

(** [result_data] of [QualityAssuranceAgent.execute]. *)
Record QAData := {
  quality_analysis : str;
  scene_validations : list SceneValidation;
  approval_status : bool;
  improvements_needed : list str;
  total_scenes_validated : nat;
  validation_summary : ValidationSummary
}.

Record Alignment := {
  score : Q;
  aligned_standards : nat;
  coverage_areas : list str;
  gaps : list str
}.

Record PlanningSummary := {
  ps_topic : option str;
  ps_age_group : str;
  alignment_score : Q;
  objectives_count : nat
}.

(** [result_data] of [EducationalPlanningAgent.execute]. *)
Record PlanningData := {
  learning_objectives : list str;
  curriculum_alignment : Alignment;
  curriculum_references : nat;
  pd_educational_planning : PlanningSummary
}.

(** [AgentResult], for an agent whose payload has type [D]. *)
Record AgentResult (D : Type) := {
  success : bool;
  data : option D;
  execution_time_ms : Z;
  error_message : option str;
  step_number : Z
}.

(* ===================================================================== *)
(** ** The world: datastore tables, files, attributes *)
(* ===================================================================== *)

(** A row of [comic_generations] (timestamps left out). *)
Record GenerationRecord := {
  gr_id : Z;
  gr_user_id : str;
  gr_topic : option str;
  gr_comic_style : str;
  gr_language : str;
  gr_status : str;
  gr_output_path : option str;
  gr_generation_time_seconds : option Z
}.

(** A row of [agent_logs]. *)
Record AgentLogEntry := {
  al_generation_id : Z;
  al_agent_name : str;
  al_step_number : Z;
  al_input_data : option str;
  al_output_data : option str;
  al_execution_time_ms : Z;
  al_status : str;
  al_error_message : option str
}.

(** A row of [educational_content] (embedding left out). *)
Record ContentRow := {
  ec_topic : option str;
  ec_content : str;
  ec_content_type : str;
  ec_age_group : str
}.

(** What the outside can observe of a run beside the tables and files. *)
Inductive Event :=
| EvAgent (agent_name : str) (step : Z)
| EvCallback (text : str)
| EvOverlay (image_name : str) (text : str).

Record World := {
  comic_generations : list GenerationRecord;
  agent_logs : list AgentLogEntry;
  stored_content : list ContentRow;
  (** documents written by [convert_images_to_pdf]: path and pages *)
  pdfs : list (path * list path);
  (** the attribute [self.generated_images_paths] of the driver, a dict in
      insertion order *)
  generated_images_paths : list (Z * option path);
  trace : list Event;
  (** number of service calls made so far *)
  calls : nat
}.

(** The external services.  The first argument of an oracle is the number
    of service calls made before this one. *)
Record Backend := {
  (* datastore, reads *)
  search_similar_content : nat -> option str -> option str -> Z -> outcome (list Row);
  get_successful_comic_patterns : nat -> Z -> outcome (list Row);
  search_character_templates : nat -> str -> option str -> Z -> outcome (list Row);
  (* datastore, writes: [Some e] when the statement raises [e]; nothing is
     written then *)
  db_fault : nat -> option exn;
  (* text service *)
  generate_text : nat -> str -> outcome str;
  generate_educational_content : nat -> option str -> str -> str -> outcome str;
  extract_character_info : nat -> str -> outcome (list (str * CharacterInfo));
  generate_comic_poster_prompt : nat -> option str -> str -> list str -> outcome str;
  generate_visual_prompt : nat -> str -> str -> str -> str -> outcome str;
  analyze_content_quality : nat -> str -> option str -> str -> outcome str;
  (* image service: the path of the file written, [None] for Python's None *)
  imagen_generate_image : nat -> str -> str -> outcome (option path);
  imagen_generate_comic_poster : nat -> str -> str -> outcome (option path);
  imagen_generate_comic_panel : nat -> str -> str -> str -> outcome (option path);
  (* bitmap and document libraries: [Some e] when they raise [e] *)
  fallback_image_fault : nat -> option exn;
  overlay_fault : nat -> option exn;
  pdf_fault : nat -> option exn;
  (* random.choice, time.time() in milliseconds *)
  random_alpha_string : nat -> nat -> str;
  time_ms : nat -> Z;
  (* json.dumps on the mappings, str.upper *)
  dumps_input : InputData -> str;
  dumps_content : ContentData -> str;
  dumps_planning : PlanningData -> str;
  dumps_visual : VisualData -> str;
  dumps_qa : QAData -> str;
  upper : str -> str
}.

(** What a callable passed as progress callback does when called: raise
    [e] or return. *)
Definition Callback := nat -> str -> option exn.

(* ===================================================================== *)
(** ** The monad of effectful code *)
(* ===================================================================== *)

Definition M (A : Type) : Type := World -> outcome A * World.

Definition ret {A} (a : A) : M A := fun w => (Returned a, w).

Definition raise {A} (e : exn) : M A := fun w => (Raised e, w).

Definition bind {A B} (c : M A) (k : A -> M B) : M B :=
  fun w =>
    match c w with
    | (Returned a, w') => k a w'
    | (Raised e, w') => (Raised e, w')
    end.

(** [try: c  except Exception as e: handler e] *)
Definition try_except {A} (c : M A) (handler : exn -> M A) : M A :=
  fun w =>
    match c w with
    | (Returned a, w') => (Returned a, w')
    | (Raised e, w') => handler e w'
    end.

Definition lift {A} (o : outcome A) : M A := fun w => (o, w).

Notation "x <- c ;; k" := (bind c (fun x => k))
  (at level 61, c at next level, right associativity).
Notation "c ;;; k" := (bind c (fun _ => k))
  (at level 61, right associativity).

Definition tick (w : World) : World :=
  {| comic_generations := comic_generations w;
     agent_logs := agent_logs w;
     stored_content := stored_content w;
     pdfs := pdfs w;
     generated_images_paths := generated_images_paths w;
     trace := trace w;
     calls := S (calls w) |}.

Definition emit (e : Event) : M unit :=
  fun w =>
    (Returned tt,
     {| comic_generations := comic_generations w;
        agent_logs := agent_logs w;
        stored_content := stored_content w;
        pdfs := pdfs w;
        generated_images_paths := generated_images_paths w;
        trace := trace w ++ [e];
        calls := calls w |}).

(** A call of a service that only answers. *)
Definition call {A} (oracle : nat -> outcome A) : M A :=
  fun w => (oracle (calls w), tick w).

(** A call of a service that changes the world when it does not raise. *)
Definition effect (fault : nat -> option exn) (change : World -> World)
  : M unit :=
  fun w =>
    match fault (calls w) with
    | Some e => (Raised e, tick w)
    | None => (Returned tt, tick (change w))
    end.

(** [time.time()], in milliseconds. *)
Definition now (B : Backend) : M Z := fun w => (Returned (time_ms B (calls w)), w).

(** Calling a progress callback. *)
Definition invoke (cb : Callback) (text : str) : M unit :=
  emit (EvCallback text) ;;;
  effect (fun n => cb n text) (fun w => w).

(** [if update_state_callback: update_state_callback(text)] *)
Definition notify (update_state_callback : option Callback) (text : str)
  : M unit :=
  match update_state_callback with
  | Some cb => invoke cb text
  | None => ret tt
  end.

(* ===================================================================== *)
(** ** Datastore operations ([TiDBVectorDatabase]) *)
(* ===================================================================== *)

Definition set_comic_generations (rows : list GenerationRecord) (w : World)
  : World :=
  {| comic_generations := rows;
     agent_logs := agent_logs w;
     stored_content := stored_content w;
     pdfs := pdfs w;
     generated_images_paths := generated_images_paths w;
     trace := trace w;
     calls := calls w |}.

Definition set_agent_logs (rows : list AgentLogEntry) (w : World) : World :=
  {| comic_generations := comic_generations w;
     agent_logs := rows;
     stored_content := stored_content w;
     pdfs := pdfs w;
     generated_images_paths := generated_images_paths w;
     trace := trace w;
     calls := calls w |}.

Definition set_stored_content (rows : list ContentRow) (w : World) : World :=
  {| comic_generations := comic_generations w;
     agent_logs := agent_logs w;
     stored_content := rows;
     pdfs := pdfs w;
     generated_images_paths := generated_images_paths w;
     trace := trace w;
     calls := calls w |}.

Definition set_pdfs (docs : list (path * list path)) (w : World) : World :=
  {| comic_generations := comic_generations w;
     agent_logs := agent_logs w;
     stored_content := stored_content w;
     pdfs := docs;
     generated_images_paths := generated_images_paths w;
     trace := trace w;
     calls := calls w |}.

Definition set_generated_images_paths (d : list (Z * option path)) (w : World)
  : World :=
  {| comic_generations := comic_generations w;
     agent_logs := agent_logs w;
     stored_content := stored_content w;
     pdfs := pdfs w;
     generated_images_paths := d;
     trace := trace w;
     calls := calls w |}.

(** The value AUTO_INCREMENT gives the next row: above every id in use. *)
Definition next_id (rows : list GenerationRecord) : Z :=
  fold_right (fun r m => Z.max (gr_id r) m) 0 rows + 1.

(** [store_educational_content]; the id of the new row is not used by any
    caller and is left out. *)
Definition store_educational_content (B : Backend) (topic : option str)
    (content content_type age_group : str) : M unit :=
  effect (db_fault B)
    (fun w => set_stored_content
                (stored_content w ++
                 [{| ec_topic := topic; ec_content := content;
                     ec_content_type := content_type;
                     ec_age_group := age_group |}]) w).

(** [log_comic_generation]: inserts a row in state [processing] and
    returns its id. *)
Definition log_comic_generation (B : Backend) (user_id : str)
    (topic : option str) (comic_style language : str) : M Z :=
  fun w =>
    let id := next_id (comic_generations w) in
    match effect (db_fault B)
            (fun w => set_comic_generations
                        (comic_generations w ++
                         [{| gr_id := id; gr_user_id := user_id;
                             gr_topic := topic;
                             gr_comic_style := comic_style;
                             gr_language := language;
                             gr_status := lit "processing";
                             gr_output_path := None;
                             gr_generation_time_seconds := None |}]) w) w
    with
    | (Returned _, w') => (Returned id, w')
    | (Raised e, w') => (Raised e, w')
    end.

(** The UPDATE of [update_comic_generation_status] on one row. *)
Definition update_row (generation_id : Z) (status : str)
    (output_path : option str) (generation_time : option Z)
    (r : GenerationRecord) : GenerationRecord :=
  if gr_id r =? generation_id then
    {| gr_id := gr_id r;
       gr_user_id := gr_user_id r;
       gr_topic := gr_topic r;
       gr_comic_style := gr_comic_style r;
       gr_language := gr_language r;
       gr_status := status;
       gr_output_path :=
         match output_path with
         | Some ((_ :: _) as p) => Some p
         | _ => gr_output_path r
         end;
       gr_generation_time_seconds :=
         match generation_time with
         | Some t => if t =? 0 then gr_generation_time_seconds r else Some t
         | None => gr_generation_time_seconds r
         end |}
  else r.

Definition update_comic_generation_status (B : Backend) (generation_id : Z)
    (status : str) (output_path : option str) (generation_time : option Z)
  : M unit :=
  effect (db_fault B)
    (fun w => set_comic_generations
                (map (update_row generation_id status output_path
                        generation_time) (comic_generations w)) w).

(** [s[:1000] if s else None] *)
Definition truncate_snapshot (s : option str) : option str :=
  match s with
  | Some ((_ :: _) as t) => Some (firstn 1000 t)
  | _ => None
  end.

Definition log_agent_execution (B : Backend) (generation_id : Z)
    (agent_name : str) (step_number : Z) (input_data output_data : option str)
    (execution_time_ms : Z) (status : str) (error_message : option str)
  : M unit :=
  effect (db_fault B)
    (fun w => set_agent_logs
                (agent_logs w ++
                 [{| al_generation_id := generation_id;
                     al_agent_name := agent_name;
                     al_step_number := step_number;
                     al_input_data := truncate_snapshot input_data;
                     al_output_data := truncate_snapshot output_data;
                     al_execution_time_ms := execution_time_ms;
                     al_status := status;
                     al_error_message := error_message |}]) w).

(** The status column of the rows with a given id. *)
Definition status_of (generation_id : Z) (w : World) : list str :=
  map gr_status
    (filter (fun r => gr_id r =? generation_id) (comic_generations w)).

(* ===================================================================== *)
(** ** The agents ([agents.py]) *)
(* ===================================================================== *)

(** [BaseAgent.log_execution] *)
Definition log_execution {D} (B : Backend) (dumps : D -> str) (name : str)
    (generation_id step_number : Z) (input_data : InputData)
    (result : AgentResult D) : M unit :=
  log_agent_execution B generation_id name step_number
    (if input_truthy input_data then Some (dumps_input B input_data)
     else None)
    (match data result with
     | Some d => Some (dumps d)
     | None => None
     end)
    (execution_time_ms result)
    (if success result then lit "success" else lit "error")
    (error_message result).

(** The [except Exception as e] clause every [execute] ends with. *)
Definition failed_result {D} (B : Backend) (start_time step_number : Z)
    (e : exn) : M (AgentResult D) :=
  t <- now B ;;
  ret {| success := false;
         data := None;
         execution_time_ms := t - start_time;
         error_message := Some e;
         step_number := step_number |}.

Definition succeeded_result {D} (B : Backend) (start_time step_number : Z)
    (result_data : D) : M (AgentResult D) :=
  t <- now B ;;
  ret {| success := true;
         data := Some result_data;
         execution_time_ms := t - start_time;
         error_message := None;
         step_number := step_number |}.

Module ContentIntelligenceAgent.

Definition name : str := lit "ContentIntelligenceAgent".

Definition execute (B : Backend) (input_data : InputData)
    (generation_id step_number : Z) : M (AgentResult ContentData) :=
  emit (EvAgent name step_number) ;;;
  start_time <- now B ;;
  result <-
    try_except
      (let topic := topic input_data in
       let age_group := get_default (age_group input_data) (lit "child") in
       let language := get_default (language input_data) (lit "en") in
       similar_content <-
         call (fun n => search_similar_content B n topic
                          (Some (lit "comic")) 3) ;;
       successful_patterns <-
         call (fun n => get_successful_comic_patterns B n 5) ;;
       educational_content <-
         call (fun n => generate_educational_content B n topic age_group
                          language) ;;
       characters <-
         call (fun n => extract_character_info B n educational_content) ;;
       scenes <- lift (_parse_educational_content educational_content) ;;
       let result_data :=
         {| cd_educational_content := educational_content;
            cd_characters := characters;
            cd_scenes := scenes;
            cd_similar_content_found := length similar_content;
            cd_successful_patterns := length successful_patterns;
            cd_content_analysis :=
              {| ca_topic := topic;
                 ca_age_group := age_group;
                 ca_language := language;
                 ca_scene_count := length scenes;
                 ca_character_count := length characters |} |} in
       result <- succeeded_result B start_time step_number result_data ;;
       store_educational_content B topic educational_content (lit "comic")
         age_group ;;;
       ret result)
      (failed_result B start_time step_number) ;;
  log_execution B (dumps_content B) name generation_id step_number
    input_data result ;;;
  ret result.

End ContentIntelligenceAgent.

Module VisualGenerationAgent.

Definition name : str := lit "VisualGenerationAgent".

(** The body of [for dialogue_item in dialogues]. *)
Fixpoint dialogue_loop (B : Backend) (topic : option str) (visual_style : str)
    (scene_number : Z) (dialogues : list DialogueItem)
    (visual_prompts : list VisualPrompt) : M (list VisualPrompt) :=
  match dialogues with
  | [] => ret visual_prompts
  | dialogue_item :: rest =>
      let character :=
        get_default (character dialogue_item) (lit "Unknown") in
      let dialogue := get_default (dialogue dialogue_item) [] in
      character_templates <-
        call (fun n => search_character_templates B n
                         (character ++ lit " " ++ dialogue)
                         (Some visual_style) 2) ;;
      let scene_context :=
        lit "Scene " ++ str_of_Z scene_number
        ++ lit " of educational comic about " ++ fmt_opt topic in
      visual_prompt <-
        call (fun n => generate_visual_prompt B n character dialogue
                         scene_context visual_style) ;;
      dialogue_loop B topic visual_style scene_number rest
        (visual_prompts ++
         [{| vp_type := ScenePrompt;
             prompt := visual_prompt;
             vp_scene_number := scene_number;
             vp_character := Some character;
             vp_dialogue := Some dialogue;
             similar_templates := Some (length character_templates) |}])
  end.

(** The body of [for scene in scenes]. *)
Fixpoint scene_loop (B : Backend) (topic : option str) (visual_style : str)
    (scenes : list Scene) (visual_prompts : list VisualPrompt)
  : M (list VisualPrompt) :=
  match scenes with
  | [] => ret visual_prompts
  | scene :: rest =>
      let scene_number := get_default (scene_number scene) 0 in
      let dialogues := get_default (dialogues scene) [] in
      visual_prompts <-
        dialogue_loop B topic visual_style scene_number dialogues
          visual_prompts ;;
      scene_loop B topic visual_style rest visual_prompts
  end.

Definition execute (B : Backend) (input_data : InputData)
    (generation_id step_number : Z) : M (AgentResult VisualData) :=
  emit (EvAgent name step_number) ;;;
  start_time <- now B ;;
  result <-
    try_except
      (let scenes := get_default (scenes input_data) [] in
       let characters := get_default (characters input_data) [] in
       let visual_style :=
         get_default (visual_style input_data) (lit "comic") in
       let topic := topic input_data in
       let visual_prompts := [] in
       let character_names :=
         match characters with
         | _ :: _ => map fst characters
         | [] => [lit "protagonist"; lit "supporting character"]
         end in
       poster_prompt <-
         call (fun n => generate_comic_poster_prompt B n topic visual_style
                          character_names) ;;
       let visual_prompts :=
         visual_prompts ++
         [{| vp_type := Poster;
             prompt := poster_prompt;
             vp_scene_number := 0;
             vp_character := None;
             vp_dialogue := None;
             similar_templates := None |}] in
       visual_prompts <-
         scene_loop B topic visual_style scenes visual_prompts ;;
       let result_data :=
         {| visual_prompts := visual_prompts;
            total_prompts := length visual_prompts;
            poster_prompt := poster_prompt;
            characters_processed := length characters;
            scenes_processed := length scenes |} in
       succeeded_result B start_time step_number result_data)
      (failed_result B start_time step_number) ;;
  log_execution B (dumps_visual B) name generation_id step_number
    input_data result ;;;
  ret result.

End VisualGenerationAgent.

Module QualityAssuranceAgent.

Definition name : str := lit "QualityAssuranceAgent".

Definition _parse_approval_status (B : Backend) (analysis : str) : bool :=
  contains (lit "APPROVAL: YES") (upper B analysis).

(** The loop of [_generate_improvements]. *)
Fixpoint improvements_loop (B : Backend) (lines : list str)
    (in_improvements_section : bool) (improvements : list str) : list str :=
  match lines with
  | [] => improvements
  | line :: rest =>
      if contains (lit "IMPROVEMENTS:") (upper B line) then
        improvements_loop B rest true improvements
      else if in_improvements_section
              && negb (match strip line with [] => true | _ => false end)
      then
        if negb (startswith (lit "APPROVAL:") line) then
          improvements_loop B rest in_improvements_section
            (improvements ++ [strip line])
        else improvements
      else improvements_loop B rest in_improvements_section improvements
  end.

Definition _generate_improvements (B : Backend) (content analysis : str)
  : list str :=
  improvements_loop B (split_sep newline analysis) false [].

Fixpoint dialogue_loop (B : Backend) (topic : option str) (age_group : str)
    (scene : Scene) (dialogues : list DialogueItem)
    (scene_validations : list SceneValidation) : M (list SceneValidation) :=
  match dialogues with
  | [] => ret scene_validations
  | dialogue_item :: rest =>
      let dialogue := get_default (dialogue dialogue_item) [] in
      let character := get_default (character dialogue_item) [] in
      dialogue_analysis <-
        call (fun n => analyze_content_quality B n
                         (lit "Character " ++ character ++ lit ": "
                          ++ dialogue)
                         topic age_group) ;;
      dialogue_loop B topic age_group scene rest
        (scene_validations ++
         [{| sv_scene_number := scene_number scene;
             sv_character := character;
             sv_dialogue := dialogue;
             sv_analysis := dialogue_analysis |}])
  end.

Fixpoint scene_loop (B : Backend) (topic : option str) (age_group : str)
    (scenes : list Scene) (scene_validations : list SceneValidation)
  : M (list SceneValidation) :=
  match scenes with
  | [] => ret scene_validations
  | scene :: rest =>
      let dialogues := get_default (dialogues scene) [] in
      scene_validations <-
        dialogue_loop B topic age_group scene dialogues scene_validations ;;
      scene_loop B topic age_group rest scene_validations
  end.

Definition execute (B : Backend) (input_data : InputData)
    (generation_id step_number : Z) : M (AgentResult QAData) :=
  emit (EvAgent name step_number) ;;;
  start_time <- now B ;;
  result <-
    try_except
      (let educational_content :=
         get_default (educational_content input_data) [] in
       let topic := topic input_data in
       let age_group := get_default (age_group input_data) (lit "child") in
       let scenes := get_default (scenes input_data) [] in
       quality_analysis <-
         call (fun n => analyze_content_quality B n educational_content
                          topic age_group) ;;
       scene_validations <- scene_loop B topic age_group scenes [] ;;
       let approval_status := _parse_approval_status B quality_analysis in
       let improvements :=
         if negb approval_status
         then _generate_improvements B educational_content quality_analysis
         else [] in
       let result_data :=
         {| quality_analysis := quality_analysis;
            scene_validations := scene_validations;
            approval_status := approval_status;
            improvements_needed := improvements;
            total_scenes_validated := length scenes;
            validation_summary :=
              {| content_approved := approval_status;
                 scenes_checked := length scene_validations;
                 improvement_count := length improvements |} |} in
       succeeded_result B start_time step_number result_data)
      (failed_result B start_time step_number) ;;
  log_execution B (dumps_qa B) name generation_id step_number
    input_data result ;;;
  ret result.

End QualityAssuranceAgent.

Module EducationalPlanningAgent.

Definition name : str := lit "EducationalPlanningAgent".

Definition quote : str := [34%N].

(** The f-string of [_generate_learning_objectives]. *)
Definition objectives_prompt (topic : option str) (age_group : str) : str :=
  let indent := lit "        " in
  join [newline]
    [ [];
      indent ++ lit "Generate 3-5 specific learning objectives for a "
        ++ age_group ++ lit " audience learning about " ++ quote
        ++ fmt_opt topic ++ quote ++ lit ".";
      [];
      indent ++ lit "Each objective should:";
      indent ++ lit "1. Be measurable and specific";
      indent ++ lit "2. Use appropriate action verbs (understand, identify, explain, etc.)";
      indent ++ lit "3. Be age-appropriate for " ++ age_group;
      indent ++ lit "4. Focus on key concepts of " ++ fmt_opt topic;
      [];
      indent ++ lit "Format as a simple list:";
      indent ++ lit "- Objective 1";
      indent ++ lit "- Objective 2";
      indent ++ lit "- etc.";
      indent ].

Definition is_dash_or_space (c : char) : bool :=
  ((c =? 45) || (c =? 32))%N.

Definition _generate_learning_objectives (B : Backend) (topic : option str)
    (age_group : str) : M (list str) :=
  response <-
    call (fun n => generate_text B n (objectives_prompt topic age_group)) ;;
  ret (map (fun line => strip (strip_by is_dash_or_space line))
         (filter (fun line => startswith (lit "-") (strip line))
            (split_sep newline response))).

Definition _analyze_curriculum_alignment (content : str)
    (curriculum_refs : list Row) : Alignment :=
  {| score := 85 # 10;
     aligned_standards := length curriculum_refs;
     coverage_areas :=
       [lit "comprehension"; lit "critical thinking";
        lit "knowledge application"];
     gaps := [] |}.

Definition execute (B : Backend) (input_data : InputData)
    (generation_id step_number : Z) : M (AgentResult PlanningData) :=
  emit (EvAgent name step_number) ;;;
  start_time <- now B ;;
  result <-
    try_except
      (let topic := topic input_data in
       let age_group := get_default (age_group input_data) (lit "child") in
       let educational_content :=
         get_default (educational_content input_data) [] in
       curriculum_content <-
         call (fun n => search_similar_content B n
                          (Some (fmt_opt topic ++ lit " curriculum "
                                 ++ age_group))
                          (Some (lit "curriculum")) 3) ;;
       learning_objectives <-
         _generate_learning_objectives B topic age_group ;;
       let alignment_analysis :=
         _analyze_curriculum_alignment educational_content
           curriculum_content in
       let result_data :=
         {| learning_objectives := learning_objectives;
            curriculum_alignment := alignment_analysis;
            curriculum_references := length curriculum_content;
            pd_educational_planning :=
              {| ps_topic := topic;
                 ps_age_group := age_group;
                 alignment_score := score alignment_analysis;
                 objectives_count := length learning_objectives |} |} in
       succeeded_result B start_time step_number result_data)
      (failed_result B start_time step_number) ;;
  log_execution B (dumps_planning B) name generation_id step_number
    input_data result ;;;
  ret result.

End EducationalPlanningAgent.

(* ===================================================================== *)
(** ** The orchestrator ([MultiStepAgentOrchestrator]) *)
(* ===================================================================== *)

Record ExecutionSummary := {
  total_time_seconds : Z;
  steps_completed : option Z;
  agents_executed : option nat;
  status : str;
  es_error_message : option str
}.

(** The mapping [workflow_results].  A key bound by
    [workflow_results[k] = result.data] holds [Some None] when the data is
    Python's [None]. *)
Record WorkflowResults := {
  generation_id : Z;
  content_intelligence : option (option ContentData);
  educational_planning : option (option PlanningData);
  visual_generation : option (option VisualData);
  quality_assurance : option (option QAData);
  quality_warning : option (list str);
  error : option str;
  execution_summary : option ExecutionSummary
}.

Module MultiStepAgentOrchestrator.

(** [len(self.agents)] *)
Definition agents : list str :=
  [ContentIntelligenceAgent.name; EducationalPlanningAgent.name;
   VisualGenerationAgent.name; QualityAssuranceAgent.name].

(** [int(seconds)] of a duration kept in milliseconds. *)
Definition whole_seconds (ms : Z) : Z := Z.quot ms 1000.

(** A statement [c] of the [try] block, followed by the rest [k] of the
    block; [handler] is the [except] clause, entered with the value
    [workflow_results] has when [c] raises. *)
Definition guarded {A R} (c : M A) (handler : exn -> M R) (k : A -> M R)
  : M R :=
  fun w =>
    match c w with
    | (Returned a, w') => k a w'
    | (Raised e, w') => handler e w'
    end.

(** The [except Exception as e] clause of [execute_workflow]. *)
Definition workflow_failed (B : Backend) (generation_id workflow_start_time : Z)
    (workflow_results : WorkflowResults) (e : exn) : M WorkflowResults :=
  update_comic_generation_status B generation_id (lit "failed") None None ;;;
  t <- now B ;;
  ret {| generation_id := generation_id;
         content_intelligence := content_intelligence workflow_results;
         educational_planning := educational_planning workflow_results;
         visual_generation := visual_generation workflow_results;
         quality_assurance := quality_assurance workflow_results;
         quality_warning := quality_warning workflow_results;
         error := Some e;
         execution_summary :=
           Some {| total_time_seconds :=
                     whole_seconds (t - workflow_start_time);
                   steps_completed := None;
                   agents_executed := None;
                   status := lit "failed";
                   es_error_message := Some e |} |}.

Definition not_a_mapping : exn := lit "'NoneType' object is not a mapping".
Definition no_attribute_get : exn :=
  lit "'NoneType' object has no attribute 'get'".

Definition execute_workflow (B : Backend) (user_input : InputData)
    (update_state_callback : option Callback) : M WorkflowResults :=
  generation_id <-
    log_comic_generation B
      (get_default (user_id user_input) (lit "anonymous"))
      (topic user_input)
      (get_default (visual_style user_input) (lit "comic"))
      (get_default (language user_input) (lit "en")) ;;
  workflow_start_time <- now B ;;
  let failed := workflow_failed B generation_id workflow_start_time in
  let workflow_results :=
    {| generation_id := generation_id;
       content_intelligence := None;
       educational_planning := None;
       visual_generation := None;
       quality_assurance := None;
       quality_warning := None;
       error := None;
       execution_summary := None |} in
  guarded
    (notify update_state_callback
       (lit "Step 1/5: Analyzing educational content..."))
    (failed workflow_results) (fun _ =>
  (* Step 1: Content Intelligence Agent *)
  guarded (ContentIntelligenceAgent.execute B user_input generation_id 1)
    (failed workflow_results) (fun content_result =>
  if negb (success content_result) then
    failed workflow_results
      (lit "Content Intelligence Agent failed: "
       ++ fmt_opt (error_message content_result))
  else
  let workflow_results :=
    {| generation_id := generation_id;
       content_intelligence := Some (data content_result);
       educational_planning := None;
       visual_generation := None;
       quality_assurance := None;
       quality_warning := None;
       error := None;
       execution_summary := None |} in
  guarded
    (notify update_state_callback
       (lit "Step 2/5: Planning educational objectives..."))
    (failed workflow_results) (fun _ =>
  (* Step 2: Educational Planning Agent *)
  match data content_result with
  | None => failed workflow_results not_a_mapping
  | Some content_data =>
  let planning_input := merge_content user_input content_data in
  guarded (EducationalPlanningAgent.execute B planning_input generation_id 2)
    (failed workflow_results) (fun planning_result =>
  if negb (success planning_result) then
    failed workflow_results
      (lit "Educational Planning Agent failed: "
       ++ fmt_opt (error_message planning_result))
  else
  let workflow_results :=
    {| generation_id := generation_id;
       content_intelligence := Some (data content_result);
       educational_planning := Some (data planning_result);
       visual_generation := None;
       quality_assurance := None;
       quality_warning := None;
       error := None;
       execution_summary := None |} in
  guarded
    (notify update_state_callback
       (lit "Step 3/5: Generating visual prompts..."))
    (failed workflow_results) (fun _ =>
  (* Step 3: Visual Generation Agent *)
  let visual_input := merge_content user_input content_data in
  guarded (VisualGenerationAgent.execute B visual_input generation_id 3)
    (failed workflow_results) (fun visual_result =>
  if negb (success visual_result) then
    failed workflow_results
      (lit "Visual Generation Agent failed: "
       ++ fmt_opt (error_message visual_result))
  else
  let workflow_results :=
    {| generation_id := generation_id;
       content_intelligence := Some (data content_result);
       educational_planning := Some (data planning_result);
       visual_generation := Some (data visual_result);
       quality_assurance := None;
       quality_warning := None;
       error := None;
       execution_summary := None |} in
  guarded
    (notify update_state_callback
       (lit "Step 4/5: Quality assurance validation..."))
    (failed workflow_results) (fun _ =>
  (* Step 4: Quality Assurance Agent *)
  let qa_input := merge_content user_input content_data in
  guarded (QualityAssuranceAgent.execute B qa_input generation_id 4)
    (failed workflow_results) (fun qa_result =>
  if negb (success qa_result) then
    failed workflow_results
      (lit "Quality Assurance Agent failed: "
       ++ fmt_opt (error_message qa_result))
  else
  let workflow_results :=
    {| generation_id := generation_id;
       content_intelligence := Some (data content_result);
       educational_planning := Some (data planning_result);
       visual_generation := Some (data visual_result);
       quality_assurance := Some (data qa_result);
       quality_warning := None;
       error := None;
       execution_summary := None |} in
  match data qa_result with
  | None => failed workflow_results no_attribute_get
  | Some qa_data =>
  (* Check if content needs improvement *)
  guarded
    (if negb (approval_status qa_data) then
       notify update_state_callback
         (lit "Content needs refinement, regenerating...")
     else ret tt)
    (failed workflow_results) (fun _ =>
  let workflow_results :=
    {| generation_id := generation_id;
       content_intelligence := Some (data content_result);
       educational_planning := Some (data planning_result);
       visual_generation := Some (data visual_result);
       quality_assurance := Some (data qa_result);
       quality_warning :=
         if negb (approval_status qa_data)
         then Some (improvements_needed qa_data) else None;
       error := None;
       execution_summary := None |} in
  guarded
    (notify update_state_callback
       (lit "Step 5/5: Finalizing comic generation..."))
    (failed workflow_results) (fun _ =>
  guarded (now B) (failed workflow_results) (fun t =>
  let total_execution_time := whole_seconds (t - workflow_start_time) in
  guarded
    (update_comic_generation_status B generation_id (lit "completed") None
       (Some total_execution_time))
    (failed workflow_results) (fun _ =>
  ret {| generation_id := generation_id;
         content_intelligence := Some (data content_result);
         educational_planning := Some (data planning_result);
         visual_generation := Some (data visual_result);
         quality_assurance := Some (data qa_result);
         quality_warning := quality_warning workflow_results;
         error := None;
         execution_summary :=
           Some {| total_time_seconds := total_execution_time;
                   steps_completed := Some 4;
                   agents_executed := Some (length agents);
                   status := lit "completed";
                   es_error_message := None |} |}))))
  end))))) end))).

End MultiStepAgentOrchestrator.

(* ===================================================================== *)
(** ** The rendering driver ([GenerateComicAgentic]) *)
(* ===================================================================== *)

(** Dicts with integer keys, in insertion order. *)
Fixpoint dict_get {V} (k : Z) (d : list (Z * V)) : option V :=
  match d with
  | [] => None
  | (k', v) :: d' => if k' =? k then Some v else dict_get k d'
  end.

(** [d[k] = v] *)
Fixpoint dict_set {V} (k : Z) (v : V) (d : list (Z * V)) : list (Z * V) :=
  match d with
  | [] => [(k, v)]
  | (k', v') :: d' =>
      if k' =? k then (k, v) :: d' else (k', v') :: dict_set k v d'
  end.

Definition dict_keys {V} (d : list (Z * V)) : list Z := map fst d.

(** [sorted(d.items())]; the keys of a dict are distinct, so the items are
    ordered by key. *)
Fixpoint insert_item {V} (x : Z * V) (l : list (Z * V)) : list (Z * V) :=
  match l with
  | [] => [x]
  | y :: l' => if fst x <=? fst y then x :: l else y :: insert_item x l'
  end.

Definition sorted_items {V} (d : list (Z * V)) : list (Z * V) :=
  fold_right insert_item [] d.

(** The attributes of a [GenerateComicAgentic] object that do not change;
    [generated_images_paths] is part of the world. *)
Record Driver := {
  update_state : option Callback;
  lang_code : str;
  (** whether [GoogleImagenClient()] could be built *)
  imagen_client : bool
}.

(** The order in which the worker pool runs the tasks it was given. *)
Record Scheduler := {
  run_order : forall A : Type, list A -> list A;
  run_order_perm : forall (A : Type) (l : list A), Permutation (run_order l) l
}.

(** What [start] returns: the list of image paths, or an error text. *)
Inductive StartResult :=
| Images (paths : list path)
| ErrorText (text : str).

Module GenerateComicAgentic.


(** [printer]; standard output is not part of the world. *)
Definition printer (self : Driver) (text : str) : M unit :=
  notify (update_state self) text.

Definition warning_sign : str := [9888%N; 65039%N].
Definition check_mark : str := [9989%N].

Definition comic_png (image_name : str) : path :=
  lit "static/img/comic/" ++ image_name ++ lit ".png".

Definition _create_fallback_image (B : Backend) (image_name prompt : str)
  : M (option path) :=
  try_except
    (effect (fallback_image_fault B) (fun w => w) ;;;
     ret (Some (comic_png image_name)))
    (fun e => raise (lit "Failed to create fallback image: " ++ e)).

Definition generate_image_with_google_imagen (B : Backend) (self : Driver)
    (image_prompt image_name : str) (cfg step : Z) : M (option path) :=
  try_except
    (if imagen_client self then
       call (fun n => imagen_generate_image B n image_prompt image_name)
     else
       printer self
         (warning_sign
          ++ lit " Google Imagen not available, creating placeholder image...") ;;;
       _create_fallback_image B image_name image_prompt)
    (fun e =>
       let error_message := lit "Google Imagen generation failed: " ++ e in
       printer self error_message ;;;
       _create_fallback_image B image_name image_prompt).

Definition stable_diff (B : Backend) (self : Driver)
    (image_prompt image_name : str) (cfg step : Z) : M (option path) :=
  generate_image_with_google_imagen B self image_prompt image_name cfg step.

Definition convert_images_to_pdf (B : Backend) (images : list path)
    (output_path : str) : M unit :=
  try_except
    (match images with
     | [] => raise (lit "list index out of range")
     | _ :: _ =>
         effect (pdf_fault B)
           (fun w => set_pdfs (pdfs w ++ [(output_path, images)]) w)
     end)
    (fun e =>
       raise (lit "Error occurred during image to PDF conversion: " ++ e)).

Definition add_text_to_image (B : Backend) (image_path text_from_prompt
    image_name : str) : M unit :=
  try_except
    (effect (overlay_fault B) (fun w => w) ;;;
     emit (EvOverlay image_name text_from_prompt))
    (fun e => raise (lit "Error occurred during text addition: " ++ e)).

Definition generate_random_alpha_string (B : Backend) (length : nat) : M str :=
  fun w => (Returned (random_alpha_string B (calls w) length), tick w).

(** [self.generated_images_paths[scene_number] = image_path] *)
Definition record_image (scene_number : Z) (image_path : option path)
  : M unit :=
  fun w =>
    (Returned tt,
     set_generated_images_paths
       (dict_set scene_number image_path (generated_images_paths w)) w).

Definition process_comic_page (B : Backend) (self : Driver)
    (scene_data : Scene) (visual_prompt customisation : str) (cfg step : Z)
  : M (option path) :=
  try_except
    (image_name <- generate_random_alpha_string B 10 ;;
     image_path <-
       (if imagen_client self then
          try_except
            (image_path <-
               call (fun n => imagen_generate_comic_panel B n visual_prompt
                                image_name customisation) ;;
             printer self
               (check_mark
                ++ lit " Generated comic panel with Google Imagen: "
                ++ image_name) ;;;
             ret image_path)
            (fun e =>
               printer self
                 (warning_sign
                  ++ lit " Google Imagen panel generation failed, using fallback: "
                  ++ e) ;;;
               stable_diff B self visual_prompt image_name cfg step)
        else stable_diff B self visual_prompt image_name cfg step) ;;
     let scene_number := get_default (scene_number scene_data) 0 in
     record_image scene_number image_path ;;;
     (* Get dialogue for text overlay *)
     let dialogues := get_default (dialogues scene_data) [] in
     match dialogues with
     | _ :: _ =>
         let combined_text :=
           join (lit " ")
             (map (fun d => get_default (character d) [] ++ lit ": "
                            ++ get_default (dialogue d) [])
                dialogues) in
         let text := add_line_breaks combined_text in
         add_text_to_image B (comic_png image_name) text image_name
     | [] => ret tt
     end ;;;
     ret image_path)
    (fun e => ret None).

(** [vp.get('type') == t] *)
Definition has_type (t : PromptType) (vp : VisualPrompt) : bool :=
  match t, vp_type vp with
  | Poster, Poster => true
  | ScenePrompt, ScenePrompt => true
  | _, _ => false
  end.

(** The poster, lines 302 to 320 of [start]. *)
Definition generate_poster (B : Backend) (self : Driver)
    (visual_prompts : list VisualPrompt) (cfg step : Z) : M unit :=
  let poster_prompts := filter (has_type Poster) visual_prompts in
  match poster_prompts with
  | [] => ret tt
  | first :: _ =>
      printer self
        ([127912%N] ++ lit " Generating Comic Poster with Google Imagen...") ;;;
      let poster_prompt := prompt first in
      image_name <- generate_random_alpha_string B 10 ;;
      poster_path <-
        (if imagen_client self then
           try_except
             (call (fun n => imagen_generate_comic_poster B n poster_prompt
                               image_name))
             (fun e =>
                printer self
                  (warning_sign
                   ++ lit " Poster generation with Imagen failed, using fallback: "
                   ++ e) ;;;
                stable_diff B self poster_prompt image_name cfg step)
         else stable_diff B self poster_prompt image_name cfg step) ;;
      record_image 0 poster_path ;;;
      printer self (check_mark ++ lit " Poster Generated Successfully")
  end.

(** [scene_prompt_map], built by the loop of lines 330 to 335. *)
Definition group_prompt (scene_prompt_map : list (Z * list VisualPrompt))
    (prompt_data : VisualPrompt) : list (Z * list VisualPrompt) :=
  let scene_num := vp_scene_number prompt_data in
  let scene_prompt_map :=
    match dict_get scene_num scene_prompt_map with
    | None => dict_set scene_num [] scene_prompt_map
    | Some _ => scene_prompt_map
    end in
  dict_set scene_num
    (get_default (dict_get scene_num scene_prompt_map) [] ++ [prompt_data])
    scene_prompt_map.

Definition group_prompts (scene_prompts : list VisualPrompt)
  : list (Z * list VisualPrompt) :=
  fold_left group_prompt scene_prompts [].

(** [next((s for s in scenes if s.get('scene_number') == scene_num), {})] *)
Definition find_scene (scenes : list Scene) (scene_num : Z) : Scene :=
  match
    find (fun s => match scene_number s with
                   | Some n => n =? scene_num
                   | None => false
                   end) scenes
  with
  | Some s => s
  | None => {| scene_number := None; dialogues := None |}
  end.

(** The arguments of one [executor.submit(self.process_comic_page, ...)]. *)
Definition Task := (Scene * str)%type.

(** The loop of lines 338 to 352: the tasks, in the order of submission. *)
Fixpoint submitted_tasks (scenes : list Scene)
    (items : list (Z * list VisualPrompt)) : list Task :=
  match items with
  | [] => []
  | (scene_num, scene_prompts_list) :: rest =>
      match scene_prompts_list with
      | first :: _ =>
          (find_scene scenes scene_num, prompt first)
          :: submitted_tasks scenes rest
      | [] => submitted_tasks scenes rest
      end
  end.

(** The pool runs a task to its end; an exception of a task stays in its
    future, which nobody reads. *)
Fixpoint run_tasks (B : Backend) (self : Driver) (customisation : str)
    (cfg step : Z) (tasks : list Task) : M unit :=
  match tasks with
  | [] => ret tt
  | (scene_data, main_prompt) :: rest =>
      try_except
        (process_comic_page B self scene_data main_prompt customisation cfg
           step)
        (fun _ => ret None) ;;;
      run_tasks B self customisation cfg step rest
  end.

(** The scenes, lines 322 to 357 of [start]. *)
Definition generate_scenes (B : Backend) (sched : Scheduler) (self : Driver)
    (scenes : list Scene) (visual_prompts : list VisualPrompt)
    (customisation : str) (cfg step : Z) : M unit :=
  printer self ([127916%N] ++ lit " Generating Comic Scenes...") ;;;
  let scene_prompts := filter (has_type ScenePrompt) visual_prompts in
  let scene_prompt_map := group_prompts scene_prompts in
  let futures := submitted_tasks scenes scene_prompt_map in
  run_tasks B self customisation cfg step (run_order sched futures) ;;;
  printer self (check_mark ++ lit " Comic Scenes Generated Successfully").

(** The image paths that survive: the values of the dict in the order of
    their keys, [None] left out. *)
Definition surviving_items (d : list (Z * option path)) : list (Z * path) :=
  flat_map (fun kv => match snd kv with
                      | Some p => [(fst kv, p)]
                      | None => []
                      end)
    (sorted_items d).

Definition surviving_paths (d : list (Z * option path)) : list path :=
  map snd (surviving_items d).

Definition no_images : exn := lit "No images were generated successfully".

(** The assembly proper, lines 361 to 384 of [start]. *)
Definition assemble_images (B : Backend) (self : Driver)
    (workflow_results : WorkflowResults) (workflow_start_time : Z)
    (output_path : str) : M StartResult :=
  fun w =>
    let generated_images_paths := surviving_paths (generated_images_paths w) in
    match generated_images_paths with
    | _ :: _ =>
        (convert_images_to_pdf B generated_images_paths output_path ;;;
         printer self (check_mark ++ lit " Comic Generated Successfully!") ;;;
         (* Update database with final status *)
         let generation_id := generation_id workflow_results in
         (if generation_id =? 0 then ret tt
          else
            t <- now B ;;
            let total_time :=
              MultiStepAgentOrchestrator.whole_seconds
                (t - workflow_start_time) in
            update_comic_generation_status B generation_id (lit "completed")
              (Some output_path) (Some total_time)) ;;;
         ret (Images generated_images_paths)) w
    | [] => raise no_images w
    end.

(** Lines 359 to 384 of [start]. *)
Definition assemble (B : Backend) (self : Driver)
    (workflow_results : WorkflowResults) (workflow_start_time : Z)
    (output_path : str) : M StartResult :=
  printer self ([128218%N] ++ lit " Generating PDF Comic...") ;;;
  assemble_images B self workflow_results workflow_start_time output_path.

(** The [except Exception as e] clause of [start]. *)
Definition start_failed (self : Driver) (e : exn) : M StartResult :=
  printer self ([10060%N] ++ lit " Error: " ++ e) ;;;
  ret (ErrorText (lit "Error: " ++ e)).

Definition start (B : Backend) (sched : Scheduler) (self : Driver)
    (user_input customisation : str) (cfg step : Z) (output_path : str)
  : M StartResult :=
  try_except
    (workflow_start_time <- now B ;;
     let agentic_input :=
       {| topic := Some user_input;
          visual_style := Some customisation;
          age_group := Some (lit "child");
          language := Some (lang_code self);
          user_id := Some (lit "system");
          educational_content := None;
          characters := None;
          scenes := None;
          similar_content_found := None;
          successful_patterns := None;
          content_analysis := None |} in
     printer self
       ([129302%N] ++ lit " Starting Multi-Agent Comic Generation System...") ;;;
     (* the callback is [self.printer] *)
     workflow_results <-
       MultiStepAgentOrchestrator.execute_workflow B agentic_input
         (update_state self) ;;
     match error workflow_results with
     | Some e => raise (lit "Agentic workflow failed: " ++ e)
     | None =>
     printer self (check_mark ++ lit " Multi-Agent Analysis Complete!") ;;;
     scenes <-
       match content_intelligence workflow_results with
       | None => ret []
       | Some None => raise MultiStepAgentOrchestrator.no_attribute_get
       | Some (Some content_results) => ret (cd_scenes content_results)
       end ;;
     visual_prompts <-
       match visual_generation workflow_results with
       | None => ret []
       | Some None => raise MultiStepAgentOrchestrator.no_attribute_get
       | Some (Some visual_results) => ret (visual_prompts visual_results)
       end ;;
     (* Check quality assurance *)
     approved <-
       match quality_assurance workflow_results with
       | None => ret true
       | Some None => raise MultiStepAgentOrchestrator.no_attribute_get
       | Some (Some qa_results) => ret (approval_status qa_results)
       end ;;
     (if negb approved then
        printer self
          (warning_sign
           ++ lit " Quality assurance detected issues, but proceeding with generation...")
      else ret tt) ;;;
     printer self
       ([128202%N] ++ lit " Generated " ++ str_of_nat (length scenes)
        ++ lit " scenes with " ++ str_of_nat (length visual_prompts)
        ++ lit " visual prompts") ;;;
     generate_poster B self visual_prompts cfg step ;;;
     generate_scenes B sched self scenes visual_prompts customisation cfg
       step ;;;
     assemble B self workflow_results workflow_start_time output_path
     end)
    (start_failed self).

End GenerateComicAgentic.

(* ===================================================================== *)
(** ** Vocabulary of the statements *)
(* ===================================================================== *)

(** The numbers [1 .. n] as the parser writes them. *)
Definition numbers_upto (n : nat) : list (option Z) :=
  map (fun i => Some (Z.of_nat i)) (seq 1 n).

(** The invariant of the parser's loop: the scenes closed so far, followed
    by the open one, are numbered from 1 without gap, and the open scene
    has its number and its list of dialogues. *)
Definition parse_inv (st : parse_state) : Prop :=
  let all := flush_scene (fst st) (snd st) in
  map scene_number all = numbers_upto (length all)
  /\ (forall cs, snd st = Some cs ->
        scene_number cs = Some (Z.of_nat (length all))
        /\ dialogues cs <> None).

(** The parts of the world that the services cannot change: everything but
    the stored prior content and the count of service calls. *)
Definition quiet (w w' : World) : Prop :=
  comic_generations w' = comic_generations w
  /\ agent_logs w' = agent_logs w
  /\ pdfs w' = pdfs w
  /\ generated_images_paths w' = generated_images_paths w
  /\ trace w' = trace w.

(** [c] leaves those parts as they are and, when it returns, returns a
    value that satisfies [P]. *)
Definition Spec {A} (P : A -> Prop) (c : M A) : Prop :=
  forall w res w',
    c w = (res, w') -> quiet w w' /\ (forall a, res = Returned a -> P a).

(** The steps of the agents entered, as the trace records them. *)
Definition agent_steps (events : list Event) : list Z :=
  flat_map (fun ev => match ev with
                      | EvAgent _ step => [step]
                      | _ => []
                      end) events.

Definition steps_upto (n : nat) : list Z := map Z.of_nat (seq 1 n).

(** What one call [execute input generation_id step_number] of an agent
    does to the world [w]: it is recorded in the trace, changes no table
    but the log, and either returns after writing one log entry that
    reflects its result, or raises the exception of its last service call,
    the write of the log entry, and writes nothing. *)
Definition AgentPost {D} (B : Backend) (name : str)
    (generation_id step_number : Z) (w : World)
    (res : outcome (AgentResult D)) (w' : World) : Prop :=
  comic_generations w' = comic_generations w
  /\ pdfs w' = pdfs w
  /\ generated_images_paths w' = generated_images_paths w
  /\ trace w' = trace w ++ [EvAgent name step_number]
  /\ match res with
     | Returned r =>
         (success r = true -> data r <> None)
         /\ (success r = false -> data r = None /\ error_message r <> None)
         /\ exists entry,
              agent_logs w' = agent_logs w ++ [entry]
              /\ al_generation_id entry = generation_id
              /\ al_step_number entry = step_number
              /\ al_status entry
                 = (if success r then lit "success" else lit "error")
              /\ al_error_message entry = error_message r
     | Raised e =>
         agent_logs w' = agent_logs w
         /\ db_fault B (pred (calls w')) = Some e
     end.

(** *** The [try] blocks of the agents *)

(** The statements between [try:] and [except Exception as e:] of the
    four [execute] methods; [start_time] is what [time.time()] gave
    before the block was entered. *)
Definition content_try_block (B : Backend) (input_data : InputData)
    (step_number start_time : Z) : M (AgentResult ContentData) :=
  let topic := topic input_data in
  let age_group := get_default (age_group input_data) (lit "child") in
  let language := get_default (language input_data) (lit "en") in
  similar_content <-
    call (fun n => search_similar_content B n topic (Some (lit "comic")) 3) ;;
  successful_patterns <-
    call (fun n => get_successful_comic_patterns B n 5) ;;
  educational_content <-
    call (fun n => generate_educational_content B n topic age_group
                     language) ;;
  characters <-
    call (fun n => extract_character_info B n educational_content) ;;
  scenes <- lift (_parse_educational_content educational_content) ;;
  let result_data :=
    {| cd_educational_content := educational_content;
       cd_characters := characters;
       cd_scenes := scenes;
       cd_similar_content_found := length similar_content;
       cd_successful_patterns := length successful_patterns;
       cd_content_analysis :=
         {| ca_topic := topic;
            ca_age_group := age_group;
            ca_language := language;
            ca_scene_count := length scenes;
            ca_character_count := length characters |} |} in
  result <- succeeded_result B start_time step_number result_data ;;
  store_educational_content B topic educational_content (lit "comic")
    age_group ;;;
  ret result.

Definition planning_try_block (B : Backend) (input_data : InputData)
    (step_number start_time : Z) : M (AgentResult PlanningData) :=
  let topic := topic input_data in
  let age_group := get_default (age_group input_data) (lit "child") in
  let educational_content :=
    get_default (educational_content input_data) [] in
  curriculum_content <-
    call (fun n => search_similar_content B n
                     (Some (fmt_opt topic ++ lit " curriculum "
                            ++ age_group))
                     (Some (lit "curriculum")) 3) ;;
  learning_objectives <-
    EducationalPlanningAgent._generate_learning_objectives B topic
      age_group ;;
  let alignment_analysis :=
    EducationalPlanningAgent._analyze_curriculum_alignment
      educational_content curriculum_content in
  let result_data :=
    {| learning_objectives := learning_objectives;
       curriculum_alignment := alignment_analysis;
       curriculum_references := length curriculum_content;
       pd_educational_planning :=
         {| ps_topic := topic;
            ps_age_group := age_group;
            alignment_score := score alignment_analysis;
            objectives_count := length learning_objectives |} |} in
  succeeded_result B start_time step_number result_data.

Definition visual_try_block (B : Backend) (input_data : InputData)
    (step_number start_time : Z) : M (AgentResult VisualData) :=
  let scenes := get_default (scenes input_data) [] in
  let characters := get_default (characters input_data) [] in
  let visual_style := get_default (visual_style input_data) (lit "comic") in
  let topic := topic input_data in
  let visual_prompts := [] in
  let character_names :=
    match characters with
    | _ :: _ => map fst characters
    | [] => [lit "protagonist"; lit "supporting character"]
    end in
  poster_prompt <-
    call (fun n => generate_comic_poster_prompt B n topic visual_style
                     character_names) ;;
  let visual_prompts :=
    visual_prompts ++
    [{| vp_type := Poster;
        prompt := poster_prompt;
        vp_scene_number := 0;
        vp_character := None;
        vp_dialogue := None;
        similar_templates := None |}] in
  visual_prompts <-
    VisualGenerationAgent.scene_loop B topic visual_style scenes
      visual_prompts ;;
  let result_data :=
    {| visual_prompts := visual_prompts;
       total_prompts := length visual_prompts;
       poster_prompt := poster_prompt;
       characters_processed := length characters;
       scenes_processed := length scenes |} in
  succeeded_result B start_time step_number result_data.

Definition qa_try_block (B : Backend) (input_data : InputData)
    (step_number start_time : Z) : M (AgentResult QAData) :=
  let educational_content :=
    get_default (educational_content input_data) [] in
  let topic := topic input_data in
  let age_group := get_default (age_group input_data) (lit "child") in
  let scenes := get_default (scenes input_data) [] in
  quality_analysis <-
    call (fun n => analyze_content_quality B n educational_content topic
                     age_group) ;;
  scene_validations <-
    QualityAssuranceAgent.scene_loop B topic age_group scenes [] ;;
  let approval_status :=
    QualityAssuranceAgent._parse_approval_status B quality_analysis in
  let improvements :=
    if negb approval_status
    then QualityAssuranceAgent._generate_improvements B educational_content
           quality_analysis
    else [] in
  let result_data :=
    {| quality_analysis := quality_analysis;
       scene_validations := scene_validations;
       approval_status := approval_status;
       improvements_needed := improvements;
       total_scenes_validated := length scenes;
       validation_summary :=
         {| content_approved := approval_status;
            scenes_checked := length scene_validations;
            improvement_count := length improvements |} |} in
  succeeded_result B start_time step_number result_data.

(** What every [execute] does around its [try] block: the start time is
    taken, the [except] clause builds the result of a failure, and the
    log entry is written after the [try] statement. *)
Definition around_try_block {D} (B : Backend) (dumps : D -> str) (name : str)
    (generation_id step_number : Z) (input_data : InputData)
    (try_block : Z -> M (AgentResult D)) : M (AgentResult D) :=
  emit (EvAgent name step_number) ;;;
  start_time <- now B ;;
  result <-
    try_except (try_block start_time)
      (failed_result B start_time step_number) ;;
  log_execution B dumps name generation_id step_number input_data result ;;;
  ret result.

(** How [execute], run in [w], deals with what its [try] block does
    there.  A failure [e] inside the block becomes a result with
    success=false, no data and the message [e], logged with the status
    [error]; a block that comes to its end gives a result with
    success=true, which is returned as it is.  In both cases the log
    entry is written after the block, and when that write raises, its
    exception leaves [execute] and no entry is written. *)
Definition failures_encoded {D} (B : Backend) (name : str)
    (step_number : Z) (try_block : Z -> M (AgentResult D))
    (execute : M (AgentResult D)) (w : World) : Prop :=
  let entered := snd (emit (EvAgent name step_number) w) in
  match try_block (time_ms B (calls w)) entered with
  | (Raised e, w1) =>
      agent_logs w1 = agent_logs w
      /\ match db_fault B (calls w1) with
         | None =>
             exists r w',
               execute w = (Returned r, w')
               /\ success r = false
               /\ data r = None
               /\ error_message r = Some e
               /\ exists entry,
                    agent_logs w' = agent_logs w ++ [entry]
                    /\ al_status entry = lit "error"
                    /\ al_error_message entry = Some e
         | Some e' =>
             exists w',
               execute w = (Raised e', w')
               /\ agent_logs w' = agent_logs w
         end
  | (Returned r, w1) =>
      agent_logs w1 = agent_logs w
      /\ success r = true
      /\ data r <> None
      /\ error_message r = None
      /\ match db_fault B (calls w1) with
         | None =>
             exists w',
               execute w = (Returned r, w')
               /\ exists entry,
                    agent_logs w' = agent_logs w ++ [entry]
                    /\ al_status entry = lit "success"
                    /\ al_error_message entry = None
         | Some e' =>
             exists w',
               execute w = (Raised e', w')
               /\ agent_logs w' = agent_logs w
         end
  end.

(** The dialogue lines of a list of scenes, each with the number of its
    scene, in the order of the script. *)
Definition dialogue_lines (scenes : list Scene) : list (Z * DialogueItem) :=
  flat_map (fun s => map (fun d => (get_default (scene_number s) 0, d))
                       (get_default (dialogues s) []))
    scenes.

(** What a visual prompt says of the dialogue line it was made for, and
    what the visual agent writes there for a given line. *)
Definition line_of_prompt (vp : VisualPrompt)
  : PromptType * Z * option str * option str :=
  (vp_type vp, vp_scene_number vp, vp_character vp, vp_dialogue vp).

Definition expected_line (l : Z * DialogueItem)
  : PromptType * Z * option str * option str :=
  (ScenePrompt, fst l,
   Some (get_default (character (snd l)) (lit "Unknown")),
   Some (get_default (dialogue (snd l)) [])).

(** What a successful result of the visual agent holds. *)
Definition visual_result_ok (input : InputData) (r : AgentResult VisualData)
  : Prop :=
  exists d p rest,
    data r = Some d
    /\ visual_prompts d = p :: rest
    /\ vp_type p = Poster
    /\ vp_scene_number p = 0
    /\ map line_of_prompt rest
       = map expected_line (dialogue_lines (get_default (scenes input) []))
    /\ total_prompts d = length (visual_prompts d).

(** *** Runs of [execute_workflow] *)

(** The id and the row [log_comic_generation] gives a run started in [w0]
    on the request [u]. *)
Definition workflow_id (w0 : World) : Z := next_id (comic_generations w0).

Definition new_generation (u : InputData) (w0 : World) : GenerationRecord :=
  {| gr_id := workflow_id w0;
     gr_user_id := get_default (user_id u) (lit "anonymous");
     gr_topic := topic u;
     gr_comic_style := get_default (visual_style u) (lit "comic");
     gr_language := get_default (language u) (lit "en");
     gr_status := lit "processing";
     gr_output_path := None;
     gr_generation_time_seconds := None |}.

(** The log entries and the trace events a run added. *)
Definition new_logs (w0 w' : World) : list AgentLogEntry :=
  skipn (length (agent_logs w0)) (agent_logs w').

Definition new_events (w0 w' : World) : list Event :=
  skipn (length (trace w0)) (trace w').

(** A log entry of the run [g] that records a success. *)
Definition succeeded (g : Z) (e : AgentLogEntry) : Prop :=
  al_generation_id e = g /\ al_status e = lit "success".

(** The first [k] agents have returned success: [logs] holds their
    entries, numbered from 1. *)
Definition Good (g : Z) (k : nat) (logs : list AgentLogEntry) : Prop :=
  length logs = k
  /\ map al_step_number logs = steps_upto k
  /\ Forall (succeeded g) logs.

(** The log entries [logs] of a run that has entered [n] agents: entries
    of successes numbered from 1, followed by nothing or by the entry of
    one failure.  The agent entered last has no entry when the write of
    its entry raised. *)
Definition LogsShape (g : Z) (n : nat) (logs : list AgentLogEntry) : Prop :=
  (n <= 4)%nat
  /\ exists oks tail,
       logs = oks ++ tail
       /\ Good g (length oks) oks
       /\ ((tail = [] /\ (n = length oks \/ n = S (length oks)))
           \/ (exists e, tail = [e]
                         /\ al_generation_id e = g
                         /\ al_step_number e = Z.of_nat n
                         /\ al_status e = lit "error"
                         /\ n = S (length oks))).

(** How far a run started in [w0] has come in the world [w]: [n] agents
    entered, the entries [logs] written. *)
Record Progress (w0 : World) (n : nat) (logs : list AgentLogEntry)
    (w : World) : Prop := {
  progress_logs : agent_logs w = agent_logs w0 ++ logs;
  progress_pdfs : pdfs w = pdfs w0;
  progress_images : generated_images_paths w = generated_images_paths w0;
  progress_trace :
    exists evs, trace w = trace w0 ++ evs /\ agent_steps evs = steps_upto n
}.

(** The ways a run of [execute_workflow B u cb] started in [w0] ends. *)
Inductive WorkflowPost (B : Backend) (u : InputData) (w0 : World)
  : outcome WorkflowResults -> World -> Prop :=
| run_not_started e w' :
    (* the insert of the generation record raised *)
    quiet w0 w' ->
    db_fault B (pred (calls w')) = Some e ->
    WorkflowPost B u w0 (Raised e) w'
| run_completed wr t logs w' :
    Progress w0 4 logs w' ->
    Good (workflow_id w0) 4 logs ->
    comic_generations w'
    = map (update_row (workflow_id w0) (lit "completed") None (Some t))
        (comic_generations w0 ++ [new_generation u w0]) ->
    generation_id wr = workflow_id w0 ->
    error wr = None ->
    option_map status (execution_summary wr) = Some (lit "completed") ->
    WorkflowPost B u w0 (Returned wr) w'
| run_failed wr msg n logs w' :
    Progress w0 n logs w' ->
    LogsShape (workflow_id w0) n logs ->
    comic_generations w'
    = map (update_row (workflow_id w0) (lit "failed") None None)
        (comic_generations w0 ++ [new_generation u w0]) ->
    generation_id wr = workflow_id w0 ->
    error wr = Some msg ->
    option_map status (execution_summary wr) = Some (lit "failed") ->
    option_map es_error_message (execution_summary wr) = Some (Some msg) ->
    WorkflowPost B u w0 (Returned wr) w'
| run_handler_raised e n logs w' :
    (* the write of the status [failed] raised *)
    Progress w0 n logs w' ->
    LogsShape (workflow_id w0) n logs ->
    comic_generations w' = comic_generations w0 ++ [new_generation u w0] ->
    db_fault B (pred (calls w')) = Some e ->
    WorkflowPost B u w0 (Raised e) w'.

(** *** Runs of the rendering driver *)


(** The distinct scene numbers that have a prompt of type scene. *)
Definition prompt_scene_numbers (visual_prompts : list VisualPrompt)
  : list Z :=
  nodup Z.eq_dec
    (map vp_scene_number
       (filter (GenerateComicAgentic.has_type ScenePrompt) visual_prompts)).

(** The key of [generated_images_paths] a task writes. *)
Definition task_key (t : GenerateComicAgentic.Task) : Z :=
  get_default (scene_number (fst t)) 0.

(** Between [w] and [w'] no document was written, and the dict of image
    paths got no key outside of [K] and kept its keys distinct. *)
Definition keys_within (K : list Z) (w w' : World) : Prop :=
  pdfs w' = pdfs w
  /\ (NoDup (dict_keys (generated_images_paths w)) ->
      NoDup (dict_keys (generated_images_paths w')))
  /\ incl (dict_keys (generated_images_paths w'))
       (K ++ dict_keys (generated_images_paths w)).

Definition Within {A} (K : list Z) (c : M A) : Prop :=
  forall w res w', c w = (res, w') -> keys_within K w w'.

(** Between [w] and [w'] the image slots and the documents did not
    change. *)
Definition fixed (w w' : World) : Prop :=
  generated_images_paths w' = generated_images_paths w /\ pdfs w' = pdfs w.

Definition Fixed {A} (c : M A) : Prop :=
  forall w res w', c w = (res, w') -> fixed w w'.

(** How the [try] block of [start], entered in [w], ends in [wb] with
    [res]: it raised before the rendering, the image slots and the
    documents being as they were; or it reached the rendering of the
    poster in a world [w1] where they were as they were, and [res] and
    [wb] are what the rendering and the assembly gave from there. *)
Definition RenderingReached (B : Backend) (sched : Scheduler) (self : Driver)
    (customisation : str) (cfg step : Z) (output_path : str) (w : World)
    (res : outcome StartResult) (wb : World) : Prop :=
  (exists e, res = Raised e /\ fixed w wb)
  \/ (exists wr t0 scenes vps w1,
         fixed w w1
         /\ (GenerateComicAgentic.generate_poster B self vps cfg step ;;;
             GenerateComicAgentic.generate_scenes B sched self scenes vps
               customisation cfg step ;;;
             GenerateComicAgentic.assemble B self wr t0 output_path) w1
            = (res, wb)).

(* ===================================================================== *)
(** ** Sample inputs and services *)
(* ===================================================================== *)

Definition fourteen_words : str := lit "a b c d e f g h i j k l m n".

Definition sample_script : str :=
  lit "CHARACTERS:
Ada: a curious girl
SCENE 7:
Ada: Look at the sky!
Bob: So many planets.
SCENE 7:
Ada: The sun is a star.
EDUCATIONAL_SUMMARY:
Planets orbit the sun.".

(** Services that answer with fixed texts; the datastore writes raise as
    [db] says, the call of the text service for the learning objectives
    answers as [objectives] says and the image service as [image] says. *)
Definition sample_backend_with (db : nat -> option exn)
    (objectives : nat -> outcome str)
    (image : nat -> outcome (option path)) : Backend :=
  {| search_similar_content := fun _ _ _ _ => Returned [];
     get_successful_comic_patterns := fun _ _ => Returned [];
     search_character_templates := fun _ _ _ _ => Returned [];
     db_fault := db;
     generate_text := fun n _ => objectives n;
     generate_educational_content := fun _ _ _ _ => Returned sample_script;
     extract_character_info := fun _ _ => Returned [];
     generate_comic_poster_prompt := fun _ _ _ _ => Returned (lit "cover");
     generate_visual_prompt := fun _ _ _ _ _ => Returned (lit "panel");
     analyze_content_quality := fun _ _ _ _ => Returned (lit "APPROVAL: YES");
     imagen_generate_image := fun n _ _ => image n;
     imagen_generate_comic_poster := fun n _ _ => image n;
     imagen_generate_comic_panel := fun n _ _ _ => image n;
     fallback_image_fault := fun _ => None;
     overlay_fault := fun _ => None;
     pdf_fault := fun _ => None;
     random_alpha_string := fun n _ => str_of_nat n;
     time_ms := fun n => Z.of_nat n * 1000;
     dumps_input := fun _ => lit "{...}";
     dumps_content := fun _ => lit "{...}";
     dumps_planning := fun _ => lit "{...}";
     dumps_visual := fun _ => lit "{...}";
     dumps_qa := fun _ => lit "{...}";
     upper := fun s => s |}.

Definition objectives_ok : nat -> outcome str :=
  fun _ => Returned (lit "- name the planets").
Definition objectives_down : nat -> outcome str :=
  fun _ => Raised (lit "text service down").

Definition sample_backend (db : nat -> option exn)
    (image : nat -> outcome (option path)) : Backend :=
  sample_backend_with db objectives_ok image.

Definition never : nat -> option exn := fun _ => None.
Definition always : nat -> option exn :=
  fun _ => Some (lit "connection lost").
Definition only_at (k : nat) : nat -> option exn :=
  fun n => if (n =? k)%nat then Some (lit "connection lost") else None.

Definition image_ok : nat -> outcome (option path) :=
  fun n => Returned (Some (lit "static/img/comic/" ++ str_of_nat n ++ lit ".png")).

Definition empty_world : World :=
  {| comic_generations := [];
     agent_logs := [];
     stored_content := [];
     pdfs := [];
     generated_images_paths := [];
     trace := [];
     calls := 0 |}.

Definition sample_request : InputData :=
  {| topic := Some (lit "Solar System and Planets");
     visual_style := Some (lit "superhero");
     age_group := Some (lit "child");
     language := Some (lit "en");
     user_id := Some (lit "system");
     educational_content := None;
     characters := None;
     scenes := None;
     similar_content_found := None;
     successful_patterns := None;
     content_analysis := None |}.

(** Two scenes with three dialogue lines in all. *)
Definition sample_scenes : list Scene :=
  [ {| scene_number := Some 1;
       dialogues :=
         Some [ {| character := Some (lit "Ada");
                   dialogue := Some (lit "Look at the sky!") |};
                {| character := Some (lit "Bob");
                   dialogue := Some (lit "So many planets.") |} ] |};
    {| scene_number := Some 2;
       dialogues :=
         Some [ {| character := Some (lit "Ada");
                   dialogue := Some (lit "The sun is a star.") |} ] |} ].

Definition sample_visual_input : InputData :=
  {| topic := Some (lit "Solar System and Planets");
     visual_style := Some (lit "superhero");
     age_group := Some (lit "child");
     language := Some (lit "en");
     user_id := Some (lit "system");
     educational_content := Some sample_script;
     characters := Some [];
     scenes := Some sample_scenes;
     similar_content_found := None;
     successful_patterns := None;
     content_analysis := None |}.





Definition sample_driver : Driver :=
  {| update_state := None; lang_code := lit "en"; imagen_client := true |}.

Definition in_order : Scheduler :=
  {| run_order := fun A l => l;
     run_order_perm := fun A l => Permutation_refl l |}.


(* ===================================================================== *)
(** ** More of the code: text service client ([gemini_client.py]) *)
(* ===================================================================== *)

Module GeminiFlashClient.

(** What one call [self.model.generate_content(prompt)] followed by
    [response.text] gives on the attempt of a given number: the text, or
    an exception. *)
Definition Model := nat -> outcome str.

(** The state of [generate_text] that the outside can see: the attempts
    made and the arguments of [time.sleep], latest last. *)
Record Retries := {
  attempts : nat;
  sleeps : list Z
}.

Definition failed_after (max_retries : nat) (e : exn) : exn :=
  lit "Failed to generate text after " ++ str_of_nat max_retries
  ++ lit " attempts: " ++ e.

(** The body of [for attempt in range(max_retries)], from [attempt] on,
    with [remaining] iterations to go. *)
Fixpoint generate_text_from (model : Model) (max_retries : nat)
    (remaining attempt : nat) (st : Retries)
  : outcome (option str) * Retries :=
  match remaining with
  | O => (Returned None, st)
  | S remaining' =>
      let st := {| attempts := S (attempts st); sleeps := sleeps st |} in
      let tried :=
        match model attempt with
        | Returned text =>
            match text with
            | _ :: _ => Returned (strip text)
            | [] => Raised (lit "Empty response from Gemini")
            end
        | Raised e => Raised e
        end in
      match tried with
      | Returned text => (Returned (Some text), st)
      | Raised e =>
          if (Z.of_nat attempt =? Z.of_nat max_retries - 1) then
            (Raised (failed_after max_retries e), st)
          else
            generate_text_from model max_retries remaining' (S attempt)
              {| attempts := attempts st;
                 sleeps := sleeps st ++ [2 ^ Z.of_nat attempt] |}
      end
  end.

(** [generate_text(prompt, max_retries)]; Python's [None] is returned when
    the loop ends without a [return]. *)
Definition generate_text (model : Model) (max_retries : nat)
  : outcome (option str) * Retries :=
  generate_text_from model max_retries max_retries 0
    {| attempts := 0; sleeps := [] |}.

(** [s.replace(old, '')] for a non-empty [old]: [skip] characters of an
    occurrence found are still to be dropped. *)
Fixpoint remove_from (old : str) (skip : nat) (s : str) : str :=
  match s with
  | [] => []
  | c :: s' =>
      match skip with
      | S k => remove_from old k s'
      | O =>
          if startswith old s then remove_from old (length old - 1) s'
          else c :: remove_from old 0 s'
      end
  end.

Definition remove_all (old s : str) : str := remove_from old 0 s.

(** The dict [current_char] of [extract_character_info]. *)
Record CharacterEntry := {
  ce_name : option str;
  ce_personality : option str;
  ce_role : option str
}.

(** Dicts with string keys, in insertion order. *)
Fixpoint sdict_set {V} (k : str) (v : V) (d : list (str * V))
  : list (str * V) :=
  match d with
  | [] => [(k, v)]
  | (k', v') :: d' =>
      if str_eqb k' k then (k, v) :: d' else (k', v') :: sdict_set k v d'
  end.

Definition char_state :=
  (list (str * CharacterEntry) * option CharacterEntry)%type.

(** One iteration of the loop of [extract_character_info]. *)
Definition character_line (st : char_state) (line : str)
  : outcome char_state :=
  let '(characters, current_char) := st in
  if startswith (lit "CHARACTER_") line then
    Returned (characters,
              Some {| ce_name := None; ce_personality := None;
                      ce_role := None |})
  else
    match current_char with
    | None => Returned st
    | Some cc =>
        if startswith (lit "Name:") line then
          let name := strip (remove_all (lit "Name:") line) in
          Returned (characters,
                    Some {| ce_name := Some name;
                            ce_personality := ce_personality cc;
                            ce_role := ce_role cc |})
        else if startswith (lit "Personality:") line then
          Returned (characters,
                    Some {| ce_name := ce_name cc;
                            ce_personality :=
                              Some (strip (remove_all (lit "Personality:")
                                             line));
                            ce_role := ce_role cc |})
        else if startswith (lit "Role:") line then
          let cc := {| ce_name := ce_name cc;
                       ce_personality := ce_personality cc;
                       ce_role :=
                         Some (strip (remove_all (lit "Role:") line)) |} in
          obind (py_key "name" (ce_name cc)) (fun name =>
          Returned
            (match name with
             | _ :: _ => sdict_set name cc characters
             | [] => characters
             end,
             None))
        else Returned st
    end.

Fixpoint character_lines (st : char_state) (lines : list str)
  : outcome char_state :=
  match lines with
  | [] => Returned st
  | line :: rest =>
      obind (character_line st line) (fun st' => character_lines st' rest)
  end.

(** The parsing part of [extract_character_info], applied to the text
    [generate_text] returned. *)
Definition parse_character_info (response : str)
  : outcome (list (str * CharacterEntry)) :=
  obind (character_lines ([], None) (split_sep newline response))
    (fun st => Returned (fst st)).

End GeminiFlashClient.

(* ===================================================================== *)
(** ** More of the code: image service client ([imagen_client.py]) *)
(* ===================================================================== *)

Module GoogleImagenClient.

(** A part of an answer: the bytes of an image, a text, or neither. *)
Record Part := {
  inline_data : option (list N);
  text : option str
}.

(** A candidate of an answer: the parts of its content, [None] when the
    content or its parts are missing. *)
Record Candidate := {
  parts : option (list Part)
}.

(** The files the client writes under [static/img/comic]. *)
Inductive File :=
| ImageFile (data : list N)
| PlaceholderFile (text_lines : list str).

Definition Files := list (path * File).

(** The bitmap library and the file system: [Some e] when decoding and
    saving the bytes of an image, or drawing and saving the placeholder,
    raises [e]. *)
Record Pillow := {
  decode_fault : list N -> option exn;
  placeholder_fault : option exn
}.

Definition image_path (image_name : str) : path :=
  lit "static/img/comic/" ++ image_name ++ lit ".png".

(** The third line of text on the placeholder. *)
Definition placeholder_label (prompt : str) : str :=
  lit "Prompt: " ++ firstn 30 prompt ++ lit "...".

Definition _create_placeholder_image (pil : Pillow) (image_name prompt : str)
    (files : Files) : outcome path * Files :=
  match placeholder_fault pil with
  | Some e => (Raised e, files)
  | None =>
      (Returned (image_path image_name),
       files ++ [(image_path image_name,
                  PlaceholderFile [lit "Image Generation";
                                   lit "Placeholder";
                                   placeholder_label prompt])])
  end.

Definition no_image_data : exn :=
  lit "No image data found in Gemini response".
Definition no_candidates : exn :=
  lit "No candidates returned from Gemini API".

(** The loop [for part in candidate.content.parts], followed by the
    [raise] that is reached when no part returned. *)
Fixpoint scan_parts (pil : Pillow) (image_name : str) (ps : list Part)
    (files : Files) : outcome path * Files :=
  match ps with
  | [] => (Raised no_image_data, files)
  | part :: rest =>
      match inline_data part with
      | Some image_data =>
          match decode_fault pil image_data with
          | Some e => (Raised e, files)
          | None =>
              (Returned (image_path image_name),
               files ++ [(image_path image_name, ImageFile image_data)])
          end
      | None => scan_parts pil image_name rest files
      end
  end.

(** [generate_image]; [api] is [self.client.models.generate_content]
    followed by [response.candidates], the empty list standing for
    [None] as well. *)
Definition generate_image (api : str -> outcome (list Candidate))
    (pil : Pillow) (prompt image_name : str) (files : Files)
  : outcome path * Files :=
  let tried :=
    match api prompt with
    | Raised e => (Raised e, files)
    | Returned candidates =>
        match candidates with
        | candidate :: _ =>
            match parts candidate with
            | Some ((_ :: _) as ps) => scan_parts pil image_name ps files
            | _ => (Raised no_image_data, files)
            end
        | [] => (Raised no_candidates, files)
        end
    end in
  match tried with
  | (Returned p, files') => (Returned p, files')
  | (Raised e, files') =>
      _create_placeholder_image pil image_name prompt files'
  end.

(** The prompt [generate_comic_poster] hands to [generate_image]. *)
Definition poster_prompt_of (prompt : str) : str :=
  lit "Create a comic book style poster with vibrant colors and dynamic composition: "
  ++ prompt
  ++ lit ". Make it high quality digital art in professional comic book illustration style.".

Definition generate_comic_poster (api : str -> outcome (list Candidate))
    (pil : Pillow) (prompt image_name : str) (files : Files)
  : outcome path * Files :=
  generate_image api pil (poster_prompt_of prompt) image_name files.

End GoogleImagenClient.

(* ===================================================================== *)
(** ** More of the code: the placeholder text and the legacy parser
       ([GenerateComicAgentic.py]) *)
(* ===================================================================== *)

Module FallbackImage.

Definition max_width : nat := 45.

(** The loop [for word in words] of [_create_fallback_image]. *)
Fixpoint wrap_loop (words : list str) (lines : list str)
    (current_line : list str) : list str * list str :=
  match words with
  | [] => (lines, current_line)
  | word :: rest =>
      if (length (join [space] (current_line ++ [word])) <=? max_width)%nat
      then wrap_loop rest lines (current_line ++ [word])
      else
        wrap_loop rest
          (match current_line with
           | _ :: _ => lines ++ [join [space] current_line]
           | [] => lines
           end)
          [word]
  end.

(** [lines] as lines 103 to 117 of [_create_fallback_image] leave it. *)
Definition text_lines (prompt : str) : list str :=
  let '(lines, current_line) := wrap_loop (split prompt) [] [] in
  match current_line with
  | _ :: _ => lines ++ [join [space] current_line]
  | [] => lines
  end.

(** The lines drawn: [lines[:8]]. *)
Definition drawn_lines (prompt : str) : list str :=
  firstn 8 (text_lines prompt).

End FallbackImage.

Module Legacy.

(** The loop variables of [generate_map_from_text]. *)
Record MapState := {
  d : list (Z * str);
  who_spoke : list (Z * str);
  dialogue_list : list str;
  speak : list str
}.

(** [for i in range(len(dialogue))], from [i] on, [n] indices to go. *)
Fixpoint fill_dicts (n : nat) (i : nat) (st : MapState) : outcome MapState :=
  match n with
  | O => Returned st
  | S n' =>
      obind (py_index (dialogue_list st) i) (fun di =>
      obind (py_index (speak st) i) (fun si =>
      fill_dicts n' (S i)
        {| d := dict_set (Z.of_nat i) di (d st);
           who_spoke := dict_set (Z.of_nat i) si (who_spoke st);
           dialogue_list := dialogue_list st;
           speak := speak st |}))
  end.

(** One iteration of [for word in l]. *)
Definition map_line (st : MapState) (word : str) : outcome MapState :=
  obind
    (if negb (contains (lit "Scene") word) && negb (contains (lit "Act") word)
     then
       if contains_char colon word then
         obind (py_index (split_sep colon word) 1) (fun said =>
         obind (py_index (split_sep colon word) 0) (fun speaker =>
         Returned {| d := d st;
                     who_spoke := who_spoke st;
                     dialogue_list := dialogue_list st ++ [said];
                     speak := speak st ++ [speaker] |}))
       else Returned st
     else Returned st)
    (fun st => fill_dicts (length (dialogue_list st)) 0 st).

Fixpoint map_lines (st : MapState) (l : list str) : outcome MapState :=
  match l with
  | [] => Returned st
  | word :: rest => obind (map_line st word) (fun st' => map_lines st' rest)
  end.

Definition generate_map_from_text (text : str)
  : outcome (list (Z * str) * list (Z * str)) :=
  match
    obind (map_lines {| d := []; who_spoke := []; dialogue_list := [];
                        speak := [] |}
             (split_sep newline text))
      (fun st => Returned (d st, who_spoke st))
  with
  | Returned r => Returned r
  | Raised e => Raised (lit "Error occurred during map generation: " ++ e)
  end.




End Legacy.

(* ===================================================================== *)
(** ** Vocabulary of the further statements *)
(* ===================================================================== *)

(** A word, as [split] returns them: not empty, no whitespace in it. *)
Definition is_word (w : str) : Prop :=
  w <> [] /\ Forall (fun x => isspace x = false) w.

(** A stripped text: nothing to remove at either end. *)
Definition stripped_by (f : char -> bool) (s : str) : Prop :=
  lstrip_by f s = s /\ lstrip_by f (rev s) = rev s.

(** Whether the attempt of number [k] gets a text that is not empty, and
    the exception the attempt ends with when it does not. *)
Definition answers (model : GeminiFlashClient.Model) (k : nat) : bool :=
  match model k with
  | Returned (_ :: _) => true
  | _ => false
  end.

Definition error_of (model : GeminiFlashClient.Model) (k : nat) : exn :=
  match model k with
  | Raised e => e
  | Returned _ => lit "Empty response from Gemini"
  end.

Definition text_of (model : GeminiFlashClient.Model) (k : nat) : str :=
  match model k with
  | Returned text => strip text
  | Raised _ => []
  end.

(** The pauses before the attempt of number [k]: 1, 2, 4, ... seconds. *)
Definition backoff (k : nat) : list Z :=
  map (fun attempt => 2 ^ Z.of_nat attempt) (seq 0 k).

(** A dialogue line as the script parser builds it: speaker and text are
    there and stripped, and the speaker holds no colon. *)
Definition dialogue_ok (item : DialogueItem) : Prop :=
  exists c t,
    character item = Some c /\ dialogue item = Some t
    /\ strip c = c /\ strip t = t /\ contains_char colon c = false.

Definition scene_ok (s : Scene) : Prop :=
  exists ds, dialogues s = Some ds /\ Forall dialogue_ok ds.

(** An improvement suggestion as [_generate_improvements] keeps it. *)
Definition improvement_ok (x : str) : Prop := x <> [] /\ strip x = x.

(** What a validation of the quality agent says of the dialogue line it
    was made for, and the dialogue lines of a list of scenes as this
    agent reads them. *)
Definition line_of_validation (sv : SceneValidation)
  : option Z * str * str :=
  (sv_scene_number sv, sv_character sv, sv_dialogue sv).

Definition validated_lines (scenes : list Scene)
  : list (option Z * str * str) :=
  flat_map (fun s => map (fun d => (scene_number s,
                                   get_default (character d) [],
                                   get_default (dialogue d) []))
                       (get_default (dialogues s) []))
    scenes.

(** What a successful result of the quality agent holds. *)
Definition qa_result_ok (input : InputData) (r : AgentResult QAData) : Prop :=
  exists qd,
    data r = Some qd
    /\ map line_of_validation (scene_validations qd)
       = validated_lines (get_default (scenes input) [])
    /\ total_scenes_validated qd = length (get_default (scenes input) [])
    /\ scenes_checked (validation_summary qd)
       = length (validated_lines (get_default (scenes input) []))
    /\ content_approved (validation_summary qd) = approval_status qd
    /\ improvement_count (validation_summary qd)
       = length (improvements_needed qd)
    /\ (approval_status qd = true -> improvements_needed qd = [])
    /\ Forall improvement_ok (improvements_needed qd).

(** The lines of an answer that are read as learning objectives. *)
Definition objective_lines (response : str) : list str :=
  filter (fun line => startswith (lit "-") (strip line))
    (split_sep newline response).

(** What a successful result of the planning agent holds: [response] is
    an answer the text service gave to the prompt for the objectives. *)
Definition planning_result_ok (B : Backend) (input : InputData)
    (r : AgentResult PlanningData) : Prop :=
  exists pd n response,
    data r = Some pd
    /\ generate_text B n
         (EducationalPlanningAgent.objectives_prompt (topic input)
            (get_default (age_group input) (lit "child")))
       = Returned response
    /\ length (learning_objectives pd) = length (objective_lines response)
    /\ Forall (fun o => strip o = o) (learning_objectives pd)
    /\ objectives_count (pd_educational_planning pd)
       = length (objective_lines response)
    /\ score (curriculum_alignment pd) = 85 # 10
    /\ alignment_score (pd_educational_planning pd) = 85 # 10
    /\ aligned_standards (curriculum_alignment pd)
       = curriculum_references pd
    /\ gaps (curriculum_alignment pd) = [].

(** What a successful result of the content agent holds. *)
Definition content_result_ok (r : AgentResult ContentData) : Prop :=
  exists cd,
    data r = Some cd
    /\ _parse_educational_content (cd_educational_content cd)
       = Returned (cd_scenes cd)
    /\ ca_scene_count (cd_content_analysis cd) = length (cd_scenes cd)
    /\ ca_character_count (cd_content_analysis cd)
       = length (cd_characters cd).

(** What the mapping of a completed run holds: the data of the four
    agents, each made from the scenes the first one parsed. *)
Definition completed_results_ok (wr : WorkflowResults) : Prop :=
  exists cd pd vd qd poster rest,
    content_intelligence wr = Some (Some cd)
    /\ educational_planning wr = Some (Some pd)
    /\ visual_generation wr = Some (Some vd)
    /\ quality_assurance wr = Some (Some qd)
    /\ _parse_educational_content (cd_educational_content cd)
       = Returned (cd_scenes cd)
    /\ map scene_number (cd_scenes cd) = numbers_upto (length (cd_scenes cd))
    /\ Forall scene_ok (cd_scenes cd)
    /\ visual_prompts vd = poster :: rest
    /\ vp_type poster = Poster
    /\ map line_of_prompt rest
       = map expected_line (dialogue_lines (cd_scenes cd))
    /\ map line_of_validation (scene_validations qd)
       = validated_lines (cd_scenes cd)
    /\ quality_warning wr
       = (if approval_status qd then None
          else Some (improvements_needed qd))
    /\ option_map steps_completed (execution_summary wr) = Some (Some 4)
    /\ option_map agents_executed (execution_summary wr)
       = Some (Some 4%nat).

(** The request [start] hands to the orchestrator. *)
Definition agentic_input (self : Driver) (user_input customisation : str)
  : InputData :=
  {| topic := Some user_input;
     visual_style := Some customisation;
     age_group := Some (lit "child");
     language := Some (lang_code self);
     user_id := Some (lit "system");
     educational_content := None;
     characters := None;
     scenes := None;
     similar_content_found := None;
     successful_patterns := None;
     content_analysis := None |}.

(** A driver whose progress callback raises whenever it is called. *)
Definition deaf_driver : Driver :=
  {| update_state := Some (fun _ _ => Some (lit "client gone"));
     lang_code := lit "en";
     imagen_client := true |}.

(** An image service that answers, and a bitmap library that cannot add
    the text to the image. *)
Definition no_overlay_backend : Backend :=
  {| search_similar_content := fun _ _ _ _ => Returned [];
     get_successful_comic_patterns := fun _ _ => Returned [];
     search_character_templates := fun _ _ _ _ => Returned [];
     db_fault := never;
     generate_text := fun _ _ => Returned (lit "- name the planets");
     generate_educational_content := fun _ _ _ _ => Returned sample_script;
     extract_character_info := fun _ _ => Returned [];
     generate_comic_poster_prompt := fun _ _ _ _ => Returned (lit "cover");
     generate_visual_prompt := fun _ _ _ _ _ => Returned (lit "panel");
     analyze_content_quality := fun _ _ _ _ => Returned (lit "APPROVAL: YES");
     imagen_generate_image := fun n _ _ => image_ok n;
     imagen_generate_comic_poster := fun n _ _ => image_ok n;
     imagen_generate_comic_panel := fun n _ _ _ => image_ok n;
     fallback_image_fault := fun _ => None;
     overlay_fault := fun _ => Some (lit "cannot open image");
     pdf_fault := fun _ => None;
     random_alpha_string := fun n _ => str_of_nat n;
     time_ms := fun n => Z.of_nat n * 1000;
     dumps_input := fun _ => lit "{...}";
     dumps_content := fun _ => lit "{...}";
     dumps_planning := fun _ => lit "{...}";
     dumps_visual := fun _ => lit "{...}";
     dumps_qa := fun _ => lit "{...}";
     upper := fun s => s |}.

(** The first image of an answer: the bytes of the first part, among the
    parts of the first candidate, that holds inline data. *)
Definition first_image (ps : list GoogleImagenClient.Part) (data : list N)
  : Prop :=
  exists pre part post,
    ps = pre ++ part :: post
    /\ Forall (fun q => GoogleImagenClient.inline_data q = None) pre
    /\ GoogleImagenClient.inline_data part = Some data.

Definition first_image_of_answer
    (answer : outcome (list GoogleImagenClient.Candidate)) (data : list N)
  : Prop :=
  exists candidate rest ps,
    answer = Returned (candidate :: rest)
    /\ GoogleImagenClient.parts candidate = Some ps
    /\ first_image ps data.

(** An image service that is down, and a bitmap library that works. *)
Definition api_down : str -> outcome (list GoogleImagenClient.Candidate) :=
  fun _ => Raised (lit "quota exceeded").

(** An answer of the image service: a part of text, then two images. *)
Definition image_answer : str -> outcome (list GoogleImagenClient.Candidate) :=
  fun _ =>
    Returned
      [{| GoogleImagenClient.parts :=
            Some [{| GoogleImagenClient.inline_data := None;
                     GoogleImagenClient.text := Some (lit "here it is") |};
                  {| GoogleImagenClient.inline_data := Some [1; 2; 3]%N;
                     GoogleImagenClient.text := None |};
                  {| GoogleImagenClient.inline_data := Some [4; 5]%N;
                     GoogleImagenClient.text := None |}] |}].

Definition sample_pillow : GoogleImagenClient.Pillow :=
  {| GoogleImagenClient.decode_fault := fun _ => None;
     GoogleImagenClient.placeholder_fault := None |}.

(** An item of the character registry as the parser may store it: under
    the stripped, non-empty name of the entry, which has a role. *)
Definition character_ok (item : str * GeminiFlashClient.CharacterEntry)
  : Prop :=
  fst item <> []
  /\ strip (fst item) = fst item
  /\ GeminiFlashClient.ce_name (snd item) = Some (fst item)
  /\ GeminiFlashClient.ce_role (snd item) <> None.

(** [enumerate(l, i)] as a dict. *)
Fixpoint enumerate_from {A} (i : nat) (l : list A) : list (Z * A) :=
  match l with
  | [] => []
  | x :: l' => (Z.of_nat i, x) :: enumerate_from (S i) l'
  end.

(** The lines of a script the legacy parser reads as dialogue. *)
Definition spoken (word : str) : bool :=
  negb (contains (lit "Scene") word) && negb (contains (lit "Act") word)
  && contains_char colon word.

Definition spoken_lines (text : str) : list str :=
  filter spoken (split_sep newline text).

(** The text before the first colon of a line, and the text between its
    first and its second colon. *)
Definition speaker_of (word : str) : str := nth 0 (split_sep colon word) [].
Definition said_of (word : str) : str := nth 1 (split_sep colon word) [].

(** A line of the placeholder text fits the width, or is one long word. *)
Definition fits (line : str) : Prop :=
  (length line <= FallbackImage.max_width)%nat
  \/ length (split line) = 1%nat.

(* ===================================================================== *)
(** ** Properties of the string operations *)
(* ===================================================================== *)

Section StringFacts.

Lemma count_char_app (c : char) (a b : str) :
  count_char c (a ++ b) = (count_char c a + count_char c b)%nat.
Proof.
  unfold count_char. rewrite filter_app, length_app. reflexivity.
Qed.

Lemma count_char_nospace (c : char) (w : str) :
  isspace c = true ->
  Forall (fun x => isspace x = false) w ->
  count_char c w = 0%nat.
Proof.
  intros Hc Hw. unfold count_char.
  induction Hw as [|x w Hx _ IH]; simpl; [reflexivity|].
  destruct (N.eqb_spec c x) as [->|_]; [congruence|exact IH].
Qed.

(** The words [split] returns hold no whitespace. *)
Lemma split_ws_from_nospace (s cur : str) :
  Forall (fun x => isspace x = false) cur ->
  Forall (Forall (fun x => isspace x = false)) (split_ws_from cur s).
Proof.
  revert cur.
  induction s as [|c s IH]; intros cur Hcur; simpl.
  - destruct cur; constructor; [|constructor].
    apply Forall_rev. exact Hcur.
  - destruct (isspace c) eqn:Ec.
    + destruct cur as [|x cur'].
      * apply IH. constructor.
      * constructor; [apply Forall_rev; exact Hcur|].
        apply IH. constructor.
    + apply IH. constructor; assumption.
Qed.

Lemma split_nospace (s : str) :
  Forall (Forall (fun x => isspace x = false)) (split s).
Proof.
  apply split_ws_from_nospace. constructor.
Qed.

(** [split(sep, 1)] gives two parts exactly when the separator occurs. *)
Lemma partition_first_some (sep : char) (s : str) :
  contains_char sep s = true -> exists a b, partition_first sep s = Some (a, b).
Proof.
  unfold contains_char.
  induction s as [|c s IH]; simpl; [discriminate|].
  intros H. rewrite N.eqb_sym in H.
  destruct (c =? sep)%N; simpl in H.
  - eauto.
  - destruct (IH H) as (a & b & ->). eauto.
Qed.

End StringFacts.

(* ===================================================================== *)
(** ** The script parser *)
(* ===================================================================== *)

Section Parser.

Lemma NoDup_map_inj {A B} (f : A -> B) (l : list A) :
  (forall x y, f x = f y -> x = y) -> NoDup l -> NoDup (map f l).
Proof.
  intros Hf Hl. induction Hl as [|x l Hx _ IH]; simpl; constructor.
  - rewrite in_map_iff. intros (y & Hy & Hin). apply Hf in Hy. congruence.
  - exact IH.
Qed.

Lemma numbers_upto_S (n : nat) :
  numbers_upto (S n) = numbers_upto n ++ [Some (Z.of_nat (S n))].
Proof.
  unfold numbers_upto. rewrite seq_S, map_app. reflexivity.
Qed.

Lemma parse_line_inv (st : parse_state) (line : str) :
  parse_inv st ->
  exists st',
    parse_line st line = Returned st'
    /\ parse_inv st'
    /\ length (flush_scene (fst st') (snd st'))
       = (length (flush_scene (fst st) (snd st))
          + if is_scene_line line then 1 else 0)%nat.
Proof.
  destruct st as [scenes cur]. unfold parse_inv. cbn [fst snd].
  intros [Hnum Hcur].
  assert (Hsame : exists st',
             Returned (scenes, cur) = Returned st'
             /\ (map scene_number (flush_scene (fst st') (snd st'))
                 = numbers_upto (length (flush_scene (fst st') (snd st')))
                 /\ (forall cs, snd st' = Some cs ->
                       scene_number cs
                       = Some (Z.of_nat
                                 (length (flush_scene (fst st') (snd st'))))
                       /\ dialogues cs <> None))
             /\ length (flush_scene (fst st') (snd st'))
                = (length (flush_scene scenes cur) + 0)%nat).
  { exists (scenes, cur). cbn [fst snd]. repeat split; try assumption.
    - apply Hcur; assumption.
    - apply Hcur; assumption.
    - lia. }
  unfold parse_line, is_scene_line.
  destruct (startswith (lit "SCENE") (strip line)) eqn:Escene.
  - eexists. split; [reflexivity|]. cbn [fst snd flush_scene].
    rewrite !length_app. cbn [length].
    replace (length (flush_scene scenes cur) + 1)%nat
      with (S (length (flush_scene scenes cur))) by lia.
    split; [|reflexivity].
    split.
    + rewrite map_app, numbers_upto_S. cbn [map scene_number].
      rewrite Hnum. do 3 f_equal. lia.
    + intros cs [= <-]. cbn [scene_number dialogues].
      split; [f_equal; lia|discriminate].
  - destruct cur as [cs|]; [|exact Hsame].
    destruct (contains_char colon (strip line)) eqn:Ecolon; [|exact Hsame].
    destruct (negb (startswith (lit "CHARACTERS:") (strip line))
              && negb (startswith (lit "EDUCATIONAL_SUMMARY:") (strip line)));
      [|exact Hsame].
    destruct (partition_first_some _ _ Ecolon) as (a & b & Hab).
    unfold split_sep1. rewrite Hab.
    cbn [length Nat.eqb py_index nth_error obind].
    destruct (Hcur cs eq_refl) as [Hn Hd].
    destruct (dialogues cs) as [ds|] eqn:Eds; [|congruence].
    cbn [py_key obind].
    eexists. split; [reflexivity|].
    cbn [fst snd flush_scene] in *.
    rewrite !length_app in *. cbn [length] in *.
    rewrite map_app in *. cbn [map scene_number] in *.
    split; [|lia].
    split; [exact Hnum|].
    intros cs' [= <-]. cbn [scene_number dialogues].
    split; [exact Hn|discriminate].
Qed.

Lemma parse_lines_inv (lines : list str) (st : parse_state) :
  parse_inv st ->
  exists st',
    parse_lines st lines = Returned st'
    /\ parse_inv st'
    /\ length (flush_scene (fst st') (snd st'))
       = (length (flush_scene (fst st) (snd st))
          + length (filter is_scene_line lines))%nat.
Proof.
  revert st.
  induction lines as [|line rest IH]; intros st Hst; cbn [parse_lines filter].
  - exists st. split; [reflexivity|]. split; [exact Hst|]. cbn [length]. lia.
  - destruct (parse_line_inv line Hst) as (st1 & E1 & H1 & L1).
    rewrite E1. cbn [obind].
    destruct (IH st1 H1) as (st2 & E2 & H2 & L2).
    exists st2. split; [exact E2|]. split; [exact H2|].
    rewrite L2, L1. destruct (is_scene_line line); cbn [length]; lia.
Qed.

(** The parser returns, with the scenes numbered from 1. *)
Lemma parse_numbered (content : str) :
  exists scenes,
    _parse_educational_content content = Returned scenes
    /\ length scenes = scene_line_count content
    /\ map scene_number scenes = numbers_upto (scene_line_count content).
Proof.
  unfold _parse_educational_content, scene_line_count.
  assert (H0 : parse_inv ([], None)).
  { split; [reflexivity|]. intros cs [=]. }
  destruct (parse_lines_inv (split_sep newline content) H0)
    as ([scenes cur] & E & [Hnum _] & L).
  rewrite E. cbn [obind]. simpl in L, Hnum.
  exists (flush_scene scenes cur).
  split; [reflexivity|].
  split; [exact L|].
  rewrite <- L. exact Hnum.
Qed.

(** Both scenes of the sample script are headed SCENE 7; they get the
    numbers 1 and 2, and the lines before the first scene are dropped. *)
Example parse_sample_script :
  option_map (map (fun s => (scene_number s,
                             option_map (@length _) (dialogues s))))
    (match _parse_educational_content sample_script with
     | Returned scenes => Some scenes
     | Raised _ => None
     end)
  = Some [(Some 1, Some 2%nat); (Some 2, Some 1%nat)].
Proof. reflexivity. Qed.

(** C10. For every script text the parser returns (it raises on no input),
    and the scene_number values of the scenes it returns are 1, 2, ..., N
    in this order, where N is the number of lines that open a scene: the
    i-th scene met gets the number i, whatever number the script wrote
    after the word SCENE.  In particular the numbers are pairwise distinct,
    contiguous and strictly increasing. *)
Theorem parse_scene_numbers (content : str) :
  exists scenes,
    _parse_educational_content content = Returned scenes
    /\ length scenes = scene_line_count content
    /\ map scene_number scenes = numbers_upto (scene_line_count content)
    /\ NoDup (map scene_number scenes)
    /\ (forall i, (i < length scenes)%nat ->
          nth_error (map scene_number scenes) i = Some (Some (Z.of_nat i + 1))).
Proof.
  destruct (parse_numbered content) as (scenes & E & L & Hnum).
  exists scenes.
  split; [exact E|]. split; [exact L|]. split; [exact Hnum|].
  rewrite Hnum, L. unfold numbers_upto.
  split.
  - apply NoDup_map_inj; [|apply seq_NoDup].
    intros x y [= H]. lia.
  - intros i Hi.
    rewrite nth_error_map, nth_error_seq.
    destruct (Nat.ltb_spec i (scene_line_count content)); [|lia].
    cbn [option_map]. do 2 f_equal. lia.
Qed.

End Parser.

(* ===================================================================== *)
(** ** Dialogue wrapping *)
(* ===================================================================== *)

Section LineBreaks.

Example add_line_breaks_three_words :
  add_line_breaks (lit "  to the   moon ") = lit "to the moon ".
Proof. reflexivity. Qed.

Example add_line_breaks_seven_words :
  add_line_breaks (lit "a b c d e f g") = lit "a b c d e f g" ++ [newline].
Proof. reflexivity. Qed.

(** C6, as stated, fails: a text of 14 words comes back with two line
    breaks, not one.  The loop ends every word with a separator, also the
    last one, and the 14th word is a multiple of 7 as well. *)
Lemma add_line_breaks_fourteen_words_example :
  length (split fourteen_words) = 14%nat
  /\ add_line_breaks fourteen_words
     = lit "a b c d e f g" ++ [newline] ++ lit "h i j k l m n" ++ [newline]
  /\ count_char newline (add_line_breaks fourteen_words) <> 1%nat.
Proof.
  repeat split; try reflexivity.
  vm_compute. discriminate.
Qed.

Lemma count_char_single (c x : char) :
  count_char c [x] = if (c =? x)%N then 1%nat else 0%nat.
Proof.
  unfold count_char. simpl. destruct (c =? x)%N; reflexivity.
Qed.

(** C6, amended. For every text of exactly 14 whitespace-delimited words,
    the wrapped text is the first seven words separated by single spaces, a
    line break, the last seven words separated by single spaces, and a
    final line break: it holds exactly two line breaks, one immediately
    after the 7th word and one immediately after the 14th. *)
Theorem add_line_breaks_fourteen_words (text : str) :
  length (split text) = 14%nat ->
  add_line_breaks text
  = join [space] (firstn 7 (split text)) ++ [newline]
    ++ join [space] (skipn 7 (split text)) ++ [newline]
  /\ count_char newline (add_line_breaks text) = 2%nat.
Proof.
  intros Hlen.
  pose proof (split_nospace text) as Hws.
  unfold add_line_breaks.
  destruct (split text)
    as [|w1 [|w2 [|w3 [|w4 [|w5 [|w6 [|w7 [|w8 [|w9 [|w10 [|w11 [|w12
        [|w13 [|w14 [|w15 rest]]]]]]]]]]]]]]];
    try discriminate Hlen.
  assert (Hshape :
    add_line_breaks_from 0
      [w1; w2; w3; w4; w5; w6; w7; w8; w9; w10; w11; w12; w13; w14] []
    = join [space] [w1; w2; w3; w4; w5; w6; w7] ++ [newline]
      ++ join [space] [w8; w9; w10; w11; w12; w13; w14] ++ [newline]).
  { cbn [add_line_breaks_from Nat.add Nat.modulo Nat.divmod Nat.eqb fst snd
         Nat.sub join].
    rewrite app_nil_l. repeat rewrite <- app_assoc. reflexivity. }
  split; [exact Hshape|].
  rewrite Hshape. cbn [join].
  repeat match goal with
         | H : Forall _ (_ :: _) |- _ => inversion_clear H
         end.
  repeat rewrite count_char_app.
  repeat rewrite count_char_single.
  repeat (rewrite count_char_nospace by (assumption || reflexivity)).
  reflexivity.
Qed.

(** The amended statement at a text of 14 words. *)
Lemma add_line_breaks_fourteen_words_witness :
  length (split fourteen_words) = 14%nat
  /\ (add_line_breaks fourteen_words
      = join [space] (firstn 7 (split fourteen_words)) ++ [newline]
        ++ join [space] (skipn 7 (split fourteen_words)) ++ [newline]
      /\ count_char newline (add_line_breaks fourteen_words) = 2%nat).
Proof.
  split; [reflexivity|].
  apply (add_line_breaks_fourteen_words fourteen_words). reflexivity.
Defined.

End LineBreaks.

(* ===================================================================== *)
(** ** Reasoning about effectful code *)
(* ===================================================================== *)

Section MonadFacts.

Lemma quiet_refl (w : World) : quiet w w.
Proof. repeat split. Qed.

Lemma quiet_trans (w1 w2 w3 : World) :
  quiet w1 w2 -> quiet w2 w3 -> quiet w1 w3.
Proof.
  unfold quiet. intros (A1 & A2 & A3 & A4 & A5) (B1 & B2 & B3 & B4 & B5).
  repeat split; congruence.
Qed.

Lemma quiet_tick (w : World) : quiet w (tick w).
Proof. repeat split. Qed.

Lemma bind_returned {A B} (c : M A) (k : A -> M B) w b w' :
  bind c k w = (Returned b, w') ->
  exists a w1, c w = (Returned a, w1) /\ k a w1 = (Returned b, w').
Proof.
  unfold bind. destruct (c w) as [[a|e] w1]; [eauto|discriminate].
Qed.

Lemma bind_cases {A B} (c : M A) (k : A -> M B) w res w' :
  bind c k w = (res, w') ->
  (exists a w1, c w = (Returned a, w1) /\ k a w1 = (res, w'))
  \/ (exists e, c w = (Raised e, w') /\ res = Raised e).
Proof.
  unfold bind. destruct (c w) as [[a|e] w1]; [eauto|].
  intros [= <- <-]. eauto.
Qed.

Lemma try_except_cases {A} (c : M A) (h : exn -> M A) w res w' :
  try_except c h w = (res, w') ->
  (exists a, c w = (Returned a, w') /\ res = Returned a)
  \/ (exists e w1, c w = (Raised e, w1) /\ h e w1 = (res, w')).
Proof.
  unfold try_except. destruct (c w) as [[a|e] w1]; [|eauto].
  intros [= <- <-]. eauto.
Qed.

Lemma spec_ret {A} (P : A -> Prop) (a : A) : P a -> Spec P (ret a).
Proof.
  intros Ha w res w' [= <- <-]. split; [apply quiet_refl|].
  intros a' [= <-]. exact Ha.
Qed.

Lemma spec_raise {A} (P : A -> Prop) (e : exn) : Spec P (raise e).
Proof.
  intros w res w' [= <- <-]. split; [apply quiet_refl|]. discriminate.
Qed.

Lemma spec_lift {A} (P : A -> Prop) (o : outcome A) :
  (forall a, o = Returned a -> P a) -> Spec P (lift o).
Proof.
  intros Ho w res w' [= <- <-]. split; [apply quiet_refl|exact Ho].
Qed.

Lemma spec_now (B : Backend) : Spec (fun _ => True) (now B).
Proof.
  intros w res w' [= <- <-]. split; [apply quiet_refl|trivial].
Qed.

Lemma spec_call {A} (oracle : nat -> outcome A) :
  Spec (fun _ => True) (call oracle).
Proof.
  intros w res w' [= <- <-]. split; [apply quiet_tick|trivial].
Qed.

Lemma spec_effect (fault : nat -> option exn) (change : World -> World) :
  (forall w, quiet w (change w)) -> Spec (fun _ => True) (effect fault change).
Proof.
  intros Hq w res w'. unfold effect.
  destruct (fault (calls w)); intros [= <- <-].
  - split; [apply quiet_tick|trivial].
  - split; [|trivial].
    eapply quiet_trans; [apply Hq|apply quiet_tick].
Qed.

Lemma spec_bind {A B} (P : A -> Prop) (Q : B -> Prop) (c : M A)
    (k : A -> M B) :
  Spec P c -> (forall a, P a -> Spec Q (k a)) -> Spec Q (bind c k).
Proof.
  intros Hc Hk w res w' H.
  destruct (bind_cases _ _ _ H) as [(a & w1 & Ec & Ek)|(e & Ec & ->)].
  - destruct (Hc _ _ _ Ec) as [Q1 Pa].
    destruct (Hk a (Pa a eq_refl) _ _ _ Ek) as [Q2 Qb].
    split; [eapply quiet_trans; eassumption|exact Qb].
  - destruct (Hc _ _ _ Ec) as [Q1 _]. split; [exact Q1|discriminate].
Qed.

Lemma spec_try {A} (P : A -> Prop) (c : M A) (h : exn -> M A) :
  Spec P c -> (forall e, Spec P (h e)) -> Spec P (try_except c h).
Proof.
  intros Hc Hh w res w' H.
  destruct (try_except_cases _ _ _ H) as [(a & Ec & ->)|(e & w1 & Ec & Eh)].
  - exact (Hc _ _ _ Ec).
  - destruct (Hc _ _ _ Ec) as [Q1 _].
    destruct (Hh e _ _ _ Eh) as [Q2 Pa].
    split; [eapply quiet_trans; eassumption|exact Pa].
Qed.

Lemma spec_weaken {A} (P Q : A -> Prop) (c : M A) :
  Spec P c -> (forall a, P a -> Q a) -> Spec Q c.
Proof.
  intros Hc HPQ w res w' H. destruct (Hc _ _ _ H) as [Q1 Pa].
  split; [exact Q1|]. intros a Ha. apply HPQ, Pa, Ha.
Qed.

Lemma spec_store (B : Backend) topic content content_type age_group :
  Spec (fun _ => True)
    (store_educational_content B topic content content_type age_group).
Proof.
  apply spec_effect. intros w. repeat split.
Qed.

End MonadFacts.

(* ===================================================================== *)
(** ** The agents *)
(* ===================================================================== *)

Section Agents.

Variable B : Backend.

Lemma spec_succeeded {D} (start_time sn : Z) (d : D) :
  Spec (fun r => success r = true /\ data r = Some d)
    (succeeded_result B start_time sn d).
Proof.
  intros w res w' [= <- <-]. split; [apply quiet_refl|].
  intros a [= <-]. split; reflexivity.
Qed.

(** The shape shared by the four [execute] methods: the body of the [try]
    block, the [except] clause, then the log entry. *)
Lemma agent_execute_post {D} (P : AgentResult D -> Prop) (dumps : D -> str)
    (name : str) (g sn : Z) (input : InputData)
    (body : Z -> M (AgentResult D)) (w : World) res w' :
  (forall st,
      Spec (fun r => success r = true /\ data r <> None /\ P r) (body st)) ->
  (emit (EvAgent name sn) ;;;
   start_time <- now B ;;
   result <- try_except (body start_time) (failed_result B start_time sn) ;;
   log_execution B dumps name g sn input result ;;;
   ret result) w = (res, w') ->
  AgentPost B name g sn w res w'
  /\ (forall r, res = Returned r -> success r = true -> P r).
Proof.
  intros Hbody.
  unfold bind at 1. unfold emit at 1.
  unfold bind at 1. unfold now at 1.
  set (we := {| comic_generations := comic_generations w;
                agent_logs := agent_logs w;
                stored_content := stored_content w;
                pdfs := pdfs w;
                generated_images_paths := generated_images_paths w;
                trace := trace w ++ [EvAgent name sn];
                calls := calls w |}).
  set (st := time_ms B (calls we)).
  unfold bind at 1. unfold try_except.
  assert (Hres : exists r w1,
             (let (o, w1) := body st we in
              match o with
              | Returned a => (Returned a, w1)
              | Raised e => failed_result B st sn e w1
              end) = (Returned r, w1)
             /\ quiet we w1
             /\ (success r = true -> data r <> None /\ P r)
             /\ (success r = false -> data r = None /\ error_message r <> None)).
  { destruct (body st we) as [[r|e] w1] eqn:Eb.
    - destruct (Hbody st _ _ _ Eb) as [Hq Hr].
      destruct (Hr r eq_refl) as (S1 & S2 & S3).
      exists r, w1. split; [reflexivity|]. split; [exact Hq|].
      split; [auto|congruence].
    - destruct (Hbody st _ _ _ Eb) as [Hq _].
      eexists _, w1. split; [reflexivity|]. split; [exact Hq|].
      cbn. split; [discriminate|]. intros _. split; [reflexivity|discriminate]. }
  destruct Hres as (r & w1 & -> & (Q1 & Q2 & Q3 & Q4 & Q5) & Hok & Hko).
  unfold log_execution, log_agent_execution, bind, effect, ret.
  destruct (db_fault B (calls w1)) as [e|] eqn:Ef; intros [= <- <-].
  - split; [|discriminate].
    repeat split; cbn; try assumption.
  - split.
    + repeat split; cbn; try assumption.
      * intros H. apply Hok, H.
      * apply Hko; assumption.
      * apply Hko; assumption.
      * eexists. rewrite Q2. cbn. repeat split.
    + intros r' [= <-] Hs. apply Hok, Hs.
Qed.

Lemma spec_parse (content : str) :
  Spec (fun _ => True) (lift (_parse_educational_content content)).
Proof. apply spec_lift. trivial. Qed.

Lemma content_execute_post input g sn w res w' :
  ContentIntelligenceAgent.execute B input g sn w = (res, w') ->
  AgentPost B ContentIntelligenceAgent.name g sn w res w'.
Proof.
  intros H. unfold ContentIntelligenceAgent.execute in H.
  eapply (@agent_execute_post _ (fun _ => True)) in H; [apply H|].
  intros st. cbv zeta.
  eapply spec_bind; [apply spec_call|intros similar_content _].
  eapply spec_bind; [apply spec_call|intros successful_patterns _].
  eapply spec_bind; [apply spec_call|intros educational_content _].
  eapply spec_bind; [apply spec_call|intros characters _].
  eapply spec_bind; [apply spec_parse|intros scenes _].
  eapply spec_bind; [apply spec_succeeded|intros result [Hs Hd]].
  eapply spec_bind; [apply spec_store|intros _ _].
  apply spec_ret. rewrite Hd. repeat split; [exact Hs|discriminate].
Qed.

Lemma planning_execute_post input g sn w res w' :
  EducationalPlanningAgent.execute B input g sn w = (res, w') ->
  AgentPost B EducationalPlanningAgent.name g sn w res w'.
Proof.
  intros H. unfold EducationalPlanningAgent.execute in H.
  eapply (@agent_execute_post _ (fun _ => True)) in H; [apply H|].
  intros st. cbv zeta.
  eapply spec_bind; [apply spec_call|intros curriculum_content _].
  eapply (@spec_bind _ _ (fun _ => True)).
  { unfold EducationalPlanningAgent._generate_learning_objectives.
    eapply spec_bind; [apply spec_call|intros response _].
    apply spec_ret. exact I. }
  intros learning_objectives _.
  eapply spec_weaken; [apply spec_succeeded|].
  intros r [Hs Hd]. rewrite Hd. repeat split; [exact Hs|discriminate].
Qed.

(** The prompts the visual agent adds for the dialogue lines. *)
Lemma visual_dialogue_loop_spec topic vs n (ds : list DialogueItem) acc :
  Spec (fun res => exists new,
            res = acc ++ new
            /\ map line_of_prompt new
               = map expected_line (map (fun d => (n, d)) ds))
    (VisualGenerationAgent.dialogue_loop B topic vs n ds acc).
Proof.
  revert acc. induction ds as [|d ds IH]; intros acc.
  - apply spec_ret. exists []. rewrite app_nil_r. split; reflexivity.
  - cbn [VisualGenerationAgent.dialogue_loop]. cbv zeta.
    eapply spec_bind; [apply spec_call|intros character_templates _].
    eapply spec_bind; [apply spec_call|intros visual_prompt _].
    eapply spec_weaken; [apply IH|].
    intros res (new & -> & Hnew).
    eexists (_ :: new). rewrite <- app_assoc. split; [reflexivity|].
    cbn [map]. rewrite Hnew. reflexivity.
Qed.

Lemma visual_scene_loop_spec topic vs (scenes : list Scene) acc :
  Spec (fun res => exists new,
            res = acc ++ new
            /\ map line_of_prompt new
               = map expected_line (dialogue_lines scenes))
    (VisualGenerationAgent.scene_loop B topic vs scenes acc).
Proof.
  revert acc. induction scenes as [|s scenes IH]; intros acc.
  - apply spec_ret. exists []. rewrite app_nil_r. split; reflexivity.
  - cbn [VisualGenerationAgent.scene_loop]. cbv zeta.
    eapply spec_bind; [apply visual_dialogue_loop_spec|].
    intros visual_prompts (new1 & -> & H1).
    eapply spec_weaken; [apply IH|].
    intros res (new2 & -> & H2).
    exists (new1 ++ new2). rewrite <- app_assoc. split; [reflexivity|].
    unfold dialogue_lines in *. cbn [flat_map].
    rewrite !map_app, H1, H2. reflexivity.
Qed.

Lemma visual_execute_post input g sn w res w' :
  VisualGenerationAgent.execute B input g sn w = (res, w') ->
  AgentPost B VisualGenerationAgent.name g sn w res w'
  /\ (forall r, res = Returned r -> success r = true ->
        visual_result_ok input r).
Proof.
  intros H. unfold VisualGenerationAgent.execute in H.
  eapply (@agent_execute_post _ (visual_result_ok input)) in H;
    [apply H|].
  intros st. cbv zeta.
  eapply spec_bind; [apply spec_call|intros poster_prompt _].
  eapply spec_bind; [apply visual_scene_loop_spec|].
  intros visual_prompts (new & -> & Hnew).
  eapply spec_weaken; [apply spec_succeeded|].
  intros r [Hs Hd]. rewrite Hd.
  split; [exact Hs|]. split; [discriminate|].
  eexists _, _, new. split; [exact Hd|].
  cbn. repeat split. exact Hnew.
Qed.

Lemma qa_dialogue_loop_spec topic ag s (ds : list DialogueItem) acc :
  Spec (fun _ => True)
    (QualityAssuranceAgent.dialogue_loop B topic ag s ds acc).
Proof.
  revert acc. induction ds as [|d ds IH]; intros acc.
  - apply spec_ret. exact I.
  - cbn [QualityAssuranceAgent.dialogue_loop]. cbv zeta.
    eapply spec_bind; [apply spec_call|intros dialogue_analysis _].
    apply IH.
Qed.

Lemma qa_scene_loop_spec topic ag (scenes : list Scene) acc :
  Spec (fun _ => True) (QualityAssuranceAgent.scene_loop B topic ag scenes acc).
Proof.
  revert acc. induction scenes as [|s scenes IH]; intros acc.
  - apply spec_ret. exact I.
  - cbn [QualityAssuranceAgent.scene_loop]. cbv zeta.
    eapply spec_bind; [apply qa_dialogue_loop_spec|intros sv _].
    apply IH.
Qed.

Lemma qa_execute_post input g sn w res w' :
  QualityAssuranceAgent.execute B input g sn w = (res, w') ->
  AgentPost B QualityAssuranceAgent.name g sn w res w'.
Proof.
  intros H. unfold QualityAssuranceAgent.execute in H.
  eapply (@agent_execute_post _ (fun _ => True)) in H; [apply H|].
  intros st. cbv zeta.
  eapply spec_bind; [apply spec_call|intros quality_analysis _].
  eapply spec_bind; [apply qa_scene_loop_spec|intros scene_validations _].
  eapply spec_weaken; [apply spec_succeeded|].
  intros r [Hs Hd]. rewrite Hd. repeat split; [exact Hs|discriminate].
Qed.

Lemma spec_succeeded_plain {D} (start_time sn : Z) (d : D) :
  Spec (fun r => success r = true /\ data r <> None /\ error_message r = None)
    (succeeded_result B start_time sn d).
Proof.
  intros w res w' [= <- <-]. split; [apply quiet_refl|].
  intros a [= <-]. repeat split. discriminate.
Qed.

(** The [try] blocks change no log entry and, when they come to their
    end, give a result with success=true. *)
Lemma content_try_block_spec input sn st :
  Spec (fun r => success r = true /\ data r <> None /\ error_message r = None)
    (content_try_block B input sn st).
Proof.
  unfold content_try_block. cbv zeta.
  eapply spec_bind; [apply spec_call|intros similar_content _].
  eapply spec_bind; [apply spec_call|intros successful_patterns _].
  eapply spec_bind; [apply spec_call|intros educational_content _].
  eapply spec_bind; [apply spec_call|intros characters _].
  eapply spec_bind; [apply spec_parse|intros scenes _].
  eapply spec_bind; [apply spec_succeeded_plain|intros result Hr].
  eapply spec_bind; [apply spec_store|intros _ _].
  apply spec_ret. exact Hr.
Qed.

Lemma planning_try_block_spec input sn st :
  Spec (fun r => success r = true /\ data r <> None /\ error_message r = None)
    (planning_try_block B input sn st).
Proof.
  unfold planning_try_block. cbv zeta.
  eapply spec_bind; [apply spec_call|intros curriculum_content _].
  eapply (@spec_bind _ _ (fun _ => True)).
  { unfold EducationalPlanningAgent._generate_learning_objectives.
    eapply spec_bind; [apply spec_call|intros response _].
    apply spec_ret. exact I. }
  intros learning_objectives _.
  apply spec_succeeded_plain.
Qed.

Lemma visual_try_block_spec input sn st :
  Spec (fun r => success r = true /\ data r <> None /\ error_message r = None)
    (visual_try_block B input sn st).
Proof.
  unfold visual_try_block. cbv zeta.
  eapply spec_bind; [apply spec_call|intros poster_prompt _].
  eapply spec_bind; [apply visual_scene_loop_spec|intros visual_prompts _].
  apply spec_succeeded_plain.
Qed.

Lemma qa_try_block_spec input sn st :
  Spec (fun r => success r = true /\ data r <> None /\ error_message r = None)
    (qa_try_block B input sn st).
Proof.
  unfold qa_try_block. cbv zeta.
  eapply spec_bind; [apply spec_call|intros quality_analysis _].
  eapply spec_bind; [apply qa_scene_loop_spec|intros scene_validations _].
  apply spec_succeeded_plain.
Qed.

(** The frame around a [try] block encodes its failures. *)
Lemma around_try_block_encodes {D} (dumps : D -> str) (name : str)
    (g sn : Z) (input : InputData) (try_block : Z -> M (AgentResult D))
    (w : World) :
  (forall st,
      Spec (fun r => success r = true /\ data r <> None
                     /\ error_message r = None) (try_block st)) ->
  failures_encoded B name sn try_block
    (around_try_block B dumps name g sn input try_block) w.
Proof.
  intros Hblock. unfold failures_encoded. cbv zeta.
  unfold emit at 1. cbn [snd].
  match goal with
  | |- context [try_block ?a ?b] =>
      destruct (try_block a b) as [[r|e] w1] eqn:Eb;
      destruct (Hblock _ _ _ _ Eb) as [(Q1 & Q2 & Q3 & Q4 & Q5) Hr]
  end; cbn [agent_logs] in Q2.
  - destruct (Hr r eq_refl) as (S1 & S2 & S3).
    split; [exact Q2|]. split; [exact S1|]. split; [exact S2|].
    split; [exact S3|].
    destruct (db_fault B (calls w1)) as [e'|] eqn:Ef.
    + eexists. split.
      * unfold around_try_block, bind, emit, now, try_except.
        cbn [calls]. rewrite Eb.
        unfold log_execution, log_agent_execution, effect. rewrite Ef.
        reflexivity.
      * exact Q2.
    + eexists. split.
      * unfold around_try_block, bind, emit, now, try_except.
        cbn [calls]. rewrite Eb.
        unfold log_execution, log_agent_execution, effect, ret. rewrite Ef.
        reflexivity.
      * eexists. cbn [agent_logs tick set_agent_logs]. rewrite Q2.
        split; [reflexivity|]. cbn [al_status al_error_message].
        rewrite S1, S3. split; reflexivity.
  - split; [exact Q2|].
    destruct (db_fault B (calls w1)) as [e'|] eqn:Ef.
    + eexists. split.
      * unfold around_try_block, bind, emit, now, try_except.
        cbn [calls]. rewrite Eb.
        unfold failed_result, bind, now, ret, log_execution,
          log_agent_execution, effect. rewrite Ef.
        reflexivity.
      * exact Q2.
    + eexists _, _. split.
      * unfold around_try_block, bind, emit, now, try_except.
        cbn [calls]. rewrite Eb.
        unfold failed_result, bind, now, ret, log_execution,
          log_agent_execution, effect. rewrite Ef.
        reflexivity.
      * cbn [success data error_message].
        repeat (split; [reflexivity|]).
        eexists. cbn [agent_logs tick set_agent_logs]. rewrite Q2.
        repeat split.
Qed.

End Agents.

(* ===================================================================== *)
(** ** Properties of single agents *)
(* ===================================================================== *)

Section AgentProperties.

(** C9. When the Visual Generation Agent succeeds, its prompt list starts
    with one prompt of type poster and scene_number 0, and goes on with
    one prompt of type scene for every dialogue line, in the order of the
    scenes and of the lines within a scene, each carrying the number of
    its scene, its character and its line.  So the list has one prompt
    more than there are dialogue lines in all scenes together, and that
    is the count reported as total_prompts. *)
Theorem visual_prompts_poster_then_lines (B : Backend) (input : InputData)
    (g sn : Z) (w : World) (r : AgentResult VisualData) (w' : World) :
  VisualGenerationAgent.execute B input g sn w = (Returned r, w') ->
  success r = true ->
  exists d p rest,
    data r = Some d
    /\ visual_prompts d = p :: rest
    /\ vp_type p = Poster
    /\ vp_scene_number p = 0
    /\ map line_of_prompt rest
       = map expected_line (dialogue_lines (get_default (scenes input) []))
    /\ length (visual_prompts d)
       = (1 + length (dialogue_lines (get_default (scenes input) [])))%nat
    /\ total_prompts d
       = (1 + length (dialogue_lines (get_default (scenes input) [])))%nat.
Proof.
  intros Hrun Hs.
  destruct (@visual_execute_post _ _ _ _ _ _ _ Hrun) as [_ Hok].
  destruct (Hok r eq_refl Hs) as (d & p & rest & Hd & Hv & Hp & Hn & Hl & Ht).
  exists d, p, rest.
  assert (Hlen : length rest
                 = length (dialogue_lines (get_default (scenes input) []))).
  { rewrite <- (length_map line_of_prompt), Hl, length_map. reflexivity. }
  repeat (split; [assumption|]).
  rewrite Ht, Hv. cbn [length]. rewrite Hlen. split; reflexivity.
Qed.

(** A successful run of the visual agent on two scenes with three lines. *)
Lemma visual_prompts_poster_then_lines_witness :
  exists r w',
    VisualGenerationAgent.execute (sample_backend never image_ok)
      sample_visual_input 1 3 empty_world = (Returned r, w')
    /\ success r = true
    /\ exists d p rest,
         data r = Some d
         /\ visual_prompts d = p :: rest
         /\ vp_type p = Poster
         /\ vp_scene_number p = 0
         /\ map line_of_prompt rest
            = map expected_line (dialogue_lines sample_scenes)
         /\ length (visual_prompts d) = 4%nat
         /\ total_prompts d = 4%nat.
Proof.
  eexists _, _.
  split; [vm_compute; reflexivity|].
  split; [reflexivity|].
  eapply (visual_prompts_poster_then_lines (sample_backend never image_ok)
            sample_visual_input 1 3 empty_world).
  - vm_compute. reflexivity.
  - reflexivity.
Defined.

(** C4, as stated, fails: the entry of the agent log is written after the
    [try] block, outside of it.  Here every service answers but the write
    of the log entry, the sixth service call; its exception leaves
    [execute]. *)
Lemma log_write_failure_leaves_execute_example :
  exists w',
    ContentIntelligenceAgent.execute (sample_backend (only_at 5) image_ok)
      sample_request 1 1 empty_world
    = (Raised (lit "connection lost"), w').
Proof.
  eexists. vm_compute. reflexivity.
Qed.

(** C4, amended. For every input and every behaviour of the backends, in
    each of the four agents: [execute] is its [try] block inside the
    frame of start time, [except] clause and log entry; every failure
    raised inside the [try] block, by any backend call of the agent's
    body, is converted into a returned AgentResult with success=false, no
    data and the message of the failure as error_message, and logged with
    the status 'error'; a block that ends without failure gives the
    result with success=true.  The log entry is written after the [try]
    statement, outside of it: [execute] returns normally whenever that
    write does not raise, and otherwise the exception of that write
    leaves [execute] and no entry is written. *)
Theorem agents_encode_failures_before_logging (B : Backend)
    (input : InputData) (g sn : Z) (w : World) :
  (ContentIntelligenceAgent.execute B input g sn
   = around_try_block B (dumps_content B) ContentIntelligenceAgent.name g sn
       input (content_try_block B input sn)
   /\ failures_encoded B ContentIntelligenceAgent.name sn
        (content_try_block B input sn)
        (ContentIntelligenceAgent.execute B input g sn) w)
  /\ (EducationalPlanningAgent.execute B input g sn
      = around_try_block B (dumps_planning B) EducationalPlanningAgent.name
          g sn input (planning_try_block B input sn)
      /\ failures_encoded B EducationalPlanningAgent.name sn
           (planning_try_block B input sn)
           (EducationalPlanningAgent.execute B input g sn) w)
  /\ (VisualGenerationAgent.execute B input g sn
      = around_try_block B (dumps_visual B) VisualGenerationAgent.name g sn
          input (visual_try_block B input sn)
      /\ failures_encoded B VisualGenerationAgent.name sn
           (visual_try_block B input sn)
           (VisualGenerationAgent.execute B input g sn) w)
  /\ (QualityAssuranceAgent.execute B input g sn
      = around_try_block B (dumps_qa B) QualityAssuranceAgent.name g sn
          input (qa_try_block B input sn)
      /\ failures_encoded B QualityAssuranceAgent.name sn
           (qa_try_block B input sn)
           (QualityAssuranceAgent.execute B input g sn) w).
Proof.
  split; [|split; [|split]]; (split; [reflexivity|]).
  - change (ContentIntelligenceAgent.execute B input g sn)
      with (around_try_block B (dumps_content B)
              ContentIntelligenceAgent.name g sn input
              (content_try_block B input sn)).
    apply around_try_block_encodes. apply content_try_block_spec.
  - change (EducationalPlanningAgent.execute B input g sn)
      with (around_try_block B (dumps_planning B)
              EducationalPlanningAgent.name g sn input
              (planning_try_block B input sn)).
    apply around_try_block_encodes. apply planning_try_block_spec.
  - change (VisualGenerationAgent.execute B input g sn)
      with (around_try_block B (dumps_visual B)
              VisualGenerationAgent.name g sn input
              (visual_try_block B input sn)).
    apply around_try_block_encodes. apply visual_try_block_spec.
  - change (QualityAssuranceAgent.execute B input g sn)
      with (around_try_block B (dumps_qa B)
              QualityAssuranceAgent.name g sn input
              (qa_try_block B input sn)).
    apply around_try_block_encodes. apply qa_try_block_spec.
Qed.

(** C5, as stated, fails: the call that stores the script is the last
    statement inside the [try] block, so its exception reaches the
    [except] clause, which replaces the result.  Here every service
    answers but the store, the fifth service call; the agent returns
    success=false without data, and the script is not stored. *)
Lemma store_failure_fails_content_agent_example :
  exists r w',
    ContentIntelligenceAgent.execute (sample_backend (only_at 4) image_ok)
      sample_request 1 1 empty_world = (Returned r, w')
    /\ success r = false
    /\ data r = None
    /\ error_message r = Some (lit "connection lost")
    /\ stored_content w' = [].
Proof.
  eexists _, _. split; [vm_compute; reflexivity|].
  repeat split.
Qed.

End AgentProperties.

Section StoreOutcome.

(** One step of evaluation of the agent's code, up to the next answer of
    a service. *)
Ltac run_content_agent :=
  cbv beta iota zeta delta
    [ContentIntelligenceAgent.execute bind emit now try_except call lift
     succeeded_result failed_result store_educational_content
     log_execution log_agent_execution effect ret tick
     set_stored_content set_agent_logs];
  cbn [calls stored_content agent_logs comic_generations pdfs
       generated_images_paths trace].

(** C5, amended. In the Content Intelligence Agent the stored script is
    not fire-and-forget.  When the two lookups and the two calls of the
    text service answer and the log entry can be written, the agent
    returns, and the store call decides its result: if the store raises
    [e], the result has success=false, no data and error_message [e], and
    nothing is stored; if the store returns, the result has success=true
    and carries the script, the characters and the scenes parsed from the
    script, and the script is stored. *)
Theorem content_agent_store_decides_success (B : Backend)
    (input : InputData) (g sn : Z) (w : World)
    (sc sp : list Row) (ec : str) (ch : list (str * CharacterInfo)) :
  search_similar_content B (calls w) (topic input) (Some (lit "comic")) 3
  = Returned sc ->
  get_successful_comic_patterns B (1 + calls w) 5 = Returned sp ->
  generate_educational_content B (2 + calls w) (topic input)
    (get_default (age_group input) (lit "child"))
    (get_default (language input) (lit "en")) = Returned ec ->
  extract_character_info B (3 + calls w) ec = Returned ch ->
  db_fault B (5 + calls w) = None ->
  exists r w' parsed,
    ContentIntelligenceAgent.execute B input g sn w = (Returned r, w')
    /\ _parse_educational_content ec = Returned parsed
    /\ match db_fault B (4 + calls w) with
       | Some e =>
           success r = false
           /\ data r = None
           /\ error_message r = Some e
           /\ stored_content w' = stored_content w
       | None =>
           success r = true
           /\ (exists d,
                  data r = Some d
                  /\ cd_educational_content d = ec
                  /\ cd_characters d = ch
                  /\ cd_scenes d = parsed)
           /\ stored_content w'
              = stored_content w
                ++ [{| ec_topic := topic input;
                       ec_content := ec;
                       ec_content_type := lit "comic";
                       ec_age_group :=
                         get_default (age_group input) (lit "child") |}]
       end.
Proof.
  intros H0 H1 H2 H3 H5.
  destruct (parse_numbered ec) as (parsed & Hparse & _).
  cbn [Nat.add] in *.
  run_content_agent. rewrite H0. run_content_agent. rewrite H1.
  run_content_agent. rewrite H2. run_content_agent. rewrite H3.
  run_content_agent. rewrite Hparse. run_content_agent.
  destruct (db_fault B (S (S (S (S (calls w)))))) as [e|] eqn:E4;
    run_content_agent; rewrite H5; run_content_agent;
    eexists _, _, parsed;
    (split; [reflexivity|]); (split; [reflexivity|]); cbn.
  - repeat split.
  - split; [reflexivity|]. split; [|reflexivity].
    eexists. split; [reflexivity|]. cbn. repeat split.
Qed.

(** The store raises and the agent fails. *)
Lemma content_agent_store_decides_success_witness :
  exists r w' parsed,
    ContentIntelligenceAgent.execute (sample_backend (only_at 4) image_ok)
      sample_request 1 1 empty_world = (Returned r, w')
    /\ _parse_educational_content sample_script = Returned parsed
    /\ success r = false
    /\ data r = None
    /\ error_message r = Some (lit "connection lost")
    /\ stored_content w' = [].
Proof.
  exact (content_agent_store_decides_success
           (sample_backend (only_at 4) image_ok) sample_request 1 1
           empty_world (sc := []) (sp := []) (ec := sample_script) (ch := [])
           eq_refl eq_refl eq_refl eq_refl eq_refl).
Defined.

End StoreOutcome.

(* ===================================================================== *)
(** ** Runs of the orchestrator *)
(* ===================================================================== *)

Section Orchestrator.

Import MultiStepAgentOrchestrator.

Variable B : Backend.

Lemma steps_upto_S (n : nat) :
  steps_upto (S n) = steps_upto n ++ [Z.of_nat (S n)].
Proof.
  unfold steps_upto. rewrite seq_S, map_app. reflexivity.
Qed.

Lemma agent_steps_app (a b : list Event) :
  agent_steps (a ++ b) = agent_steps a ++ agent_steps b.
Proof. unfold agent_steps. apply flat_map_app. Qed.

Lemma guarded_cases {A R} (c : M A) (h : exn -> M R) (k : A -> M R) w res w' :
  guarded c h k w = (res, w') ->
  (exists a w1, c w = (Returned a, w1) /\ k a w1 = (res, w'))
  \/ (exists e w1, c w = (Raised e, w1) /\ h e w1 = (res, w')).
Proof.
  unfold guarded. destruct (c w) as [[a|e] w1]; eauto.
Qed.

(** A progress callback changes nothing but the trace, where it leaves no
    agent. *)
Lemma progress_notify cb text w0 n logs w res w' :
  Progress w0 n logs w ->
  notify cb text w = (res, w') ->
  Progress w0 n logs w' /\ comic_generations w' = comic_generations w.
Proof.
  intros [P1 P2 P3 (evs & P4 & P5)].
  destruct cb as [cb|]; cbn [notify].
  - unfold invoke, bind, emit, effect.
    cbn [calls]. destruct (cb (calls w) text); intros [= <- <-];
      (split; [|reflexivity]); constructor; cbn; try assumption;
      exists (evs ++ [EvCallback text]);
      rewrite P4, <- app_assoc, agent_steps_app, P5, app_nil_r; auto.
  - intros [= <- <-]. split; [constructor; eauto|reflexivity].
Qed.

Lemma progress_agent {D} name g sn w0 n logs w
    (res : outcome (AgentResult D)) w' :
  Progress w0 n logs w ->
  AgentPost B name g sn w res w' ->
  sn = Z.of_nat (S n) ->
  comic_generations w' = comic_generations w
  /\ match res with
     | Returned r =>
         (success r = true -> data r <> None)
         /\ exists entry,
              Progress w0 (S n) (logs ++ [entry]) w'
              /\ al_generation_id entry = g
              /\ al_step_number entry = sn
              /\ al_status entry
                 = (if success r then lit "success" else lit "error")
     | Raised e =>
         Progress w0 (S n) logs w' /\ db_fault B (pred (calls w')) = Some e
     end.
Proof.
  intros [P1 P2 P3 (evs & P4 & P5)] (A1 & A2 & A3 & A4 & A5) ->.
  split; [exact A1|].
  assert (Htrace : exists evs',
             trace w' = trace w0 ++ evs'
             /\ agent_steps evs' = steps_upto (S n)).
  { exists (evs ++ [EvAgent name (Z.of_nat (S n))]).
    rewrite A4, P4, <- app_assoc, agent_steps_app, P5, steps_upto_S.
    split; reflexivity. }
  destruct res as [r|e].
  - destruct A5 as (S1 & S2 & entry & L1 & L2 & L3 & L4 & L5).
    split; [exact S1|].
    exists entry. repeat split; try congruence.
    rewrite L1, P1, <- app_assoc. reflexivity.
  - destruct A5 as [L1 L2]. split; [|exact L2].
    constructor; congruence.
Qed.

Lemma good_nil (g : Z) : Good g 0 [].
Proof. repeat split. constructor. Qed.

Lemma good_snoc g k logs e :
  Good g k logs ->
  al_generation_id e = g ->
  al_step_number e = Z.of_nat (S k) ->
  al_status e = lit "success" ->
  Good g (S k) (logs ++ [e]).
Proof.
  intros (G1 & G2 & G3) E1 E2 E3. repeat split.
  - rewrite length_app, G1. cbn. lia.
  - rewrite map_app, G2, steps_upto_S. cbn. rewrite E2. reflexivity.
  - apply Forall_app. split; [exact G3|]. repeat constructor; assumption.
Qed.

(** The run stops between two agents. *)
Lemma shape_between g k logs :
  Good g k logs -> (k <= 4)%nat -> LogsShape g k logs.
Proof.
  intros G Hk. split; [exact Hk|].
  exists logs, []. rewrite app_nil_r.
  destruct G as (G1 & G2 & G3). subst k.
  repeat split; auto.
Qed.

(** The run stops because the entry of an agent could not be written. *)
Lemma shape_unlogged g k logs :
  Good g k logs -> (S k <= 4)%nat -> LogsShape g (S k) logs.
Proof.
  intros G Hk. split; [exact Hk|].
  exists logs, []. rewrite app_nil_r.
  destruct G as (G1 & G2 & G3). subst k.
  repeat split; auto.
Qed.

(** The run stops because an agent returned a failure. *)
Lemma shape_failed g k logs e :
  Good g k logs -> (S k <= 4)%nat ->
  al_generation_id e = g ->
  al_step_number e = Z.of_nat (S k) ->
  al_status e = lit "error" ->
  LogsShape g (S k) (logs ++ [e]).
Proof.
  intros G Hk E1 E2 E3. split; [exact Hk|].
  exists logs, [e].
  destruct G as (G1 & G2 & G3). subst k.
  split; [reflexivity|]. split; [repeat split; auto|].
  right. exists e. repeat split; auto.
Qed.

(** The [except] clause ends the run. *)
Lemma workflow_failed_post u w0 n logs t0 wr e w res w' :
  Progress w0 n logs w ->
  LogsShape (workflow_id w0) n logs ->
  comic_generations w = comic_generations w0 ++ [new_generation u w0] ->
  workflow_failed B (workflow_id w0) t0 wr e w = (res, w') ->
  WorkflowPost B u w0 res w'.
Proof.
  intros [P1 P2 P3 P4] Hshape Hcg.
  unfold workflow_failed, update_comic_generation_status, bind, effect, now,
    ret.
  destruct (db_fault B (calls w)) as [e'|] eqn:Ef; intros [= <- <-].
  - eapply run_handler_raised; [constructor| | |]; cbn; eauto.
  - eapply run_failed with (msg := e); [constructor| | | | | |]; cbn; eauto.
    rewrite Hcg. reflexivity.
Qed.


Lemma progress_maybe_notify (b : bool) cb text w0 n logs w res w' :
  Progress w0 n logs w ->
  (if b then notify cb text else ret tt) w = (res, w') ->
  Progress w0 n logs w' /\ comic_generations w' = comic_generations w.
Proof.
  destruct b; [apply progress_notify|].
  intros P [= <- <-]. split; [exact P|reflexivity].
Qed.

Lemma progress_tick w0 n logs w :
  Progress w0 n logs w -> Progress w0 n logs (tick w).
Proof. intros [P1 P2 P3 P4]. constructor; assumption. Qed.

(** A statement of the [try] block that only reports progress. *)
Ltac notify_step H P Hcg G :=
  let a := fresh "a" in
  let e := fresh "e" in
  let w2 := fresh "w" in
  let Hc := fresh "Hc" in
  let P' := fresh "P" in
  let Hcg' := fresh "Hcg" in
  apply guarded_cases in H;
  destruct H as [(a & w2 & Hc & H)|(e & w2 & Hc & H)];
  [ destruct (progress_maybe_notify _ _ _ P Hc) as [P' Hcg']
    || destruct (progress_notify _ _ P Hc) as [P' Hcg'];
    rewrite Hcg in Hcg'; clear Hc
  | (destruct (progress_maybe_notify _ _ _ P Hc) as [P' Hcg']
     || destruct (progress_notify _ _ P Hc) as [P' Hcg']);
    rewrite Hcg in Hcg';
    eapply workflow_failed_post;
    [exact P'|apply shape_between; [exact G|lia]|exact Hcg'|exact H] ].

Lemma visual_execute_agent_post input g sn w res w' :
  VisualGenerationAgent.execute B input g sn w = (res, w') ->
  AgentPost B VisualGenerationAgent.name g sn w res w'.
Proof. intros H. apply visual_execute_post in H. apply H. Qed.

(** A statement of the [try] block that runs an agent, and the test of
    its result. *)
Ltac agent_step H P Hcg G post r P' Hcg' G' Hdata :=
  let e := fresh "e" in
  let w2 := fresh "w" in
  let Hc := fresh "Hc" in
  let Hr := fresh "Hr" in
  let entry := fresh "entry" in
  let E1 := fresh "E" in
  let E2 := fresh "E" in
  let E3 := fresh "E" in
  let Hs := fresh "Hs" in
  apply guarded_cases in H;
  destruct H as [(r & w2 & Hc & H)|(e & w2 & Hc & H)];
  apply post in Hc;
  destruct (progress_agent P Hc eq_refl) as [Hcg' Hr];
  rewrite Hcg in Hcg';
  [ destruct Hr as (Hdata & entry & P' & E1 & E2 & E3);
    destruct (success r) eqn:Hs; cbn [negb] in H;
    [ pose proof (@good_snoc _ _ _ _ G E1 E2 E3) as G'
    | eapply workflow_failed_post;
      [exact P'
      |apply shape_failed; [exact G|lia|exact E1|exact E2|exact E3]
      |exact Hcg'|exact H] ]
  | destruct Hr as [P' Hr];
    eapply workflow_failed_post;
    [exact P'|apply shape_unlogged; [exact G|lia]|exact Hcg'|exact H] ].

Lemma execute_workflow_post (u : InputData) (cb : option Callback)
    (w0 : World) res w' :
  execute_workflow B u cb w0 = (res, w') ->
  WorkflowPost B u w0 res w'.
Proof.
  unfold execute_workflow.
  unfold bind at 1. unfold log_comic_generation, effect.
  destruct (db_fault B (calls w0)) as [e0|] eqn:Ef0.
  { intros [= <- <-]. apply run_not_started; [apply quiet_tick|exact Ef0]. }
  fold (workflow_id w0).
  set (w1 := tick _).
  assert (P : Progress w0 0 [] w1).
  { constructor; cbn; rewrite ?app_nil_r; auto.
    exists []. rewrite app_nil_r. auto. }
  assert (Hcg : comic_generations w1
                = comic_generations w0 ++ [new_generation u w0])
    by reflexivity.
  pose proof (good_nil (workflow_id w0)) as G.
  clearbody w1.
  unfold bind at 1. unfold now at 1.
  set (t0 := time_ms B (calls w1)). clearbody t0.
  intros H.
  (* step 1 *)
  notify_step H P Hcg G.
  agent_step H P0 Hcg0 G content_execute_post r1 P1 Hcg1 G1 Hdata1.
  notify_step H P1 Hcg1 G1.
  destruct (data r1) as [content_data|] eqn:Hd1;
    [|exfalso; exact (Hdata1 eq_refl eq_refl)].
  (* step 2 *)
  agent_step H P2 Hcg2 G1 planning_execute_post r2 P3 Hcg3 G2 Hdata2.
  notify_step H P3 Hcg3 G2.
  (* step 3 *)
  agent_step H P4 Hcg4 G2 visual_execute_agent_post r3 P5 Hcg5 G3 Hdata3.
  notify_step H P5 Hcg5 G3.
  (* step 4 *)
  agent_step H P6 Hcg6 G3 qa_execute_post r4 P7 Hcg7 G4 Hdata4.
  destruct (data r4) as [qa_data|] eqn:Hd4;
    [|exfalso; exact (Hdata4 eq_refl eq_refl)].
  notify_step H P7 Hcg7 G4.
  notify_step H P8 Hcg8 G4.
  (* completion *)
  apply guarded_cases in H.
  destruct H as [(t & w11 & Hnow & H)|(e & w11 & Hnow & H)];
    unfold now in Hnow; [|discriminate].
  injection Hnow as <- <-.
  apply guarded_cases in H.
  destruct H as [(x & w12 & Hup & H)|(e & w12 & Hup & H)];
    unfold update_comic_generation_status, effect in Hup;
    destruct (db_fault B (calls w10)) as [e'|] eqn:Ef; try discriminate;
    injection Hup as <- <-.
  - injection H as <- <-.
    destruct P9 as [Q1 Q2 Q3 Q4].
    eapply run_completed with (logs := _); [constructor| | | | |]; cbn;
      try eassumption; try reflexivity.
    rewrite Hcg9. reflexivity.
  - eapply workflow_failed_post;
      [apply progress_tick; exact P9
      |apply shape_between; [exact G4|lia]
      |exact Hcg9|exact H].
Qed.

(** The row of a run is the only row with its id. *)
Lemma next_id_above (rows : list GenerationRecord) :
  Forall (fun r => gr_id r < next_id rows) rows.
Proof.
  unfold next_id.
  induction rows as [|r rows IH]; constructor; cbn.
  - lia.
  - eapply Forall_impl; [|exact IH]. cbn. intros a Ha. lia.
Qed.

Lemma no_row_above (g : Z) (rows : list GenerationRecord)
    (f : GenerationRecord -> GenerationRecord) :
  (forall r, gr_id (f r) = gr_id r) ->
  Forall (fun r => gr_id r < g) rows ->
  filter (fun r => gr_id r =? g) (map f rows) = [].
Proof.
  intros Hf Habove.
  induction Habove as [|r rows Hr _ IH]; [reflexivity|].
  cbn [map filter]. rewrite Hf.
  destruct (Z.eqb_spec (gr_id r) g); [lia|exact IH].
Qed.

Lemma update_row_id g st op gt r : gr_id (update_row g st op gt r) = gr_id r.
Proof. unfold update_row. destruct (gr_id r =? g); reflexivity. Qed.

Lemma status_after_update u w0 w' st op gt :
  comic_generations w'
  = map (update_row (workflow_id w0) st op gt)
      (comic_generations w0 ++ [new_generation u w0]) ->
  status_of (workflow_id w0) w' = [st].
Proof.
  intros E. unfold status_of. rewrite E.
  rewrite map_app, filter_app, map_app.
  rewrite no_row_above;
    [|apply update_row_id|apply next_id_above].
  cbn [map filter app]. rewrite update_row_id.
  change (gr_id (new_generation u w0)) with (workflow_id w0).
  rewrite Z.eqb_refl. cbn [map]. unfold update_row.
  change (gr_id (new_generation u w0)) with (workflow_id w0).
  rewrite Z.eqb_refl. reflexivity.
Qed.

Lemma status_unchanged u w0 w' :
  comic_generations w' = comic_generations w0 ++ [new_generation u w0] ->
  status_of (workflow_id w0) w' = [lit "processing"].
Proof.
  intros E. unfold status_of. rewrite E.
  rewrite filter_app, map_app.
  rewrite <- (map_id (comic_generations w0)) at 1.
  rewrite no_row_above; [|reflexivity|apply next_id_above].
  cbn [map filter app].
  change (gr_id (new_generation u w0)) with (workflow_id w0).
  rewrite Z.eqb_refl. reflexivity.
Qed.

End Orchestrator.

(* ===================================================================== *)
(** ** Properties of the orchestrator *)
(* ===================================================================== *)

Section WorkflowProperties.

Import MultiStepAgentOrchestrator.

Lemma skipn_app_exact {A} (a b : list A) : skipn (length a) (a ++ b) = b.
Proof. induction a; [reflexivity|exact IHa]. Qed.

Lemma new_logs_progress w0 n logs w' :
  Progress w0 n logs w' -> new_logs w0 w' = logs.
Proof.
  intros [P1 _ _ _]. unfold new_logs. rewrite P1. apply skipn_app_exact.
Qed.

Lemma new_events_progress w0 n logs w' :
  Progress w0 n logs w' -> agent_steps (new_events w0 w') = steps_upto n.
Proof.
  intros [_ _ _ (evs & P4 & P5)]. unfold new_events.
  rewrite P4, skipn_app_exact. exact P5.
Qed.

Lemma new_logs_quiet w0 w' : quiet w0 w' -> new_logs w0 w' = [].
Proof.
  intros (_ & Q & _). unfold new_logs. rewrite Q.
  rewrite <- (app_nil_r (agent_logs w0)) at 2. apply skipn_app_exact.
Qed.

Lemma steps_upto_bound (n : nat) (step : Z) :
  In step (steps_upto n) -> 1 <= step <= Z.of_nat n.
Proof.
  unfold steps_upto. rewrite in_map_iff. intros (i & <- & Hi).
  apply in_seq in Hi. lia.
Qed.

Lemma good_no_error g k logs entry :
  Good g k logs -> In entry logs -> al_status entry = lit "error" -> False.
Proof.
  intros (_ & _ & G) Hin He. rewrite Forall_forall in G.
  destruct (G entry Hin) as [_ Hs]. rewrite He in Hs. discriminate.
Qed.

Lemma good_step g k logs entry :
  Good g k logs -> In entry logs -> 1 <= al_step_number entry <= Z.of_nat k.
Proof.
  intros (_ & G & _) Hin. apply steps_upto_bound. rewrite <- G.
  apply in_map. exact Hin.
Qed.

(** In a run that wrote the entry of a failure, that entry belongs to the
    agent entered last. *)
Lemma shape_error_is_last g n logs entry :
  LogsShape g n logs -> In entry logs -> al_status entry = lit "error" ->
  al_step_number entry = Z.of_nat n.
Proof.
  intros (_ & oks & tail & -> & G & Htail) Hin He.
  apply in_app_or in Hin. destruct Hin as [Hin|Hin].
  { exfalso. eapply good_no_error; eassumption. }
  destruct Htail as [[-> _]|(e & -> & _ & Hstep & _)].
  - destruct Hin.
  - destruct Hin as [<-|[]]. exact Hstep.
Qed.

(** In a run whose fourth agent logged a success, all four did. *)
Lemma shape_fourth_success g n logs entry :
  LogsShape g n logs -> In entry logs ->
  al_step_number entry = 4 -> al_status entry = lit "success" ->
  Good g 4 logs.
Proof.
  intros (Hn & oks & tail & -> & G & Htail) Hin Hstep Hs.
  apply in_app_or in Hin. destruct Hin as [Hin|Hin].
  - pose proof (@good_step _ _ _ _ G Hin) as Hb. rewrite Hstep in Hb.
    destruct Htail as [[-> Hk]|(e & -> & _ & _ & _ & Hk)].
    + rewrite app_nil_r.
      replace 4%nat with (length oks) by lia. exact G.
    + lia.
  - destruct Htail as [[-> _]|(e & -> & _ & _ & He & _)].
    + destruct Hin.
    + destruct Hin as [<-|[]]. rewrite Hs in He. discriminate.
Qed.

(** C1, as stated, fails: the status 'failed' is written inside the
    [except] clause of execute_workflow, and nothing guards that write.
    Here the second agent fails (the text service is down when the
    learning objectives are asked for) and logs its entry with status
    'error'; the write of the status, the eleventh service call, raises:
    execute_workflow raises instead of returning a mapping, and the
    generation record stays in the status 'processing'. *)
Lemma status_write_failure_leaves_workflow_example :
  exists w' entry,
    execute_workflow
      (sample_backend_with (only_at 10) objectives_down image_ok)
      sample_request None empty_world
    = (Raised (lit "connection lost"), w')
    /\ In entry (new_logs empty_world w')
    /\ al_status entry = lit "error"
    /\ al_step_number entry = 2
    /\ status_of (workflow_id empty_world) w' = [lit "processing"].
Proof.
  eexists _, _.
  split; [vm_compute; reflexivity|].
  split; [right; left; reflexivity|].
  repeat split.
Qed.

(** C1, amended. A run of execute_workflow in which an agent returned an
    AgentResult with success=false, which is a run that wrote a log entry
    with status 'error' (an agent that returns has written its entry, with
    status 'error' exactly when success is false): no agent with a higher
    step number was entered.  The orchestrator then writes the status
    'failed', and the run ends in one of two ways.  Either the datastore
    takes that write: execute_workflow returns a mapping with the key
    'error' bound to a message and an execution summary with status
    'failed', and the status of the generation record is 'failed'.  Or
    that write, the last service call of the run, raises: its exception
    leaves execute_workflow and the generation record stays in the status
    'processing'. *)
Theorem failed_agent_stops_workflow (B : Backend) (u : InputData)
    (cb : option Callback) (w0 : World) res w' (entry : AgentLogEntry) :
  execute_workflow B u cb w0 = (res, w') ->
  In entry (new_logs w0 w') ->
  al_status entry = lit "error" ->
  (forall step, In step (agent_steps (new_events w0 w')) ->
                step <= al_step_number entry)
  /\ (db_fault B (pred (calls w')) = None ->
      exists wr msg,
        res = Returned wr
        /\ error wr = Some msg
        /\ option_map status (execution_summary wr) = Some (lit "failed")
        /\ option_map es_error_message (execution_summary wr)
           = Some (Some msg)
        /\ status_of (generation_id wr) w' = [lit "failed"])
  /\ ((exists wr msg,
         res = Returned wr
         /\ error wr = Some msg
         /\ option_map status (execution_summary wr) = Some (lit "failed")
         /\ option_map es_error_message (execution_summary wr)
            = Some (Some msg)
         /\ status_of (generation_id wr) w' = [lit "failed"])
      \/ (exists e,
             res = Raised e
             /\ db_fault B (pred (calls w')) = Some e
             /\ status_of (workflow_id w0) w' = [lit "processing"])).
Proof.
  intros Hrun Hin He.
  apply execute_workflow_post in Hrun.
  destruct Hrun as [e w' Hq Hf|wr t logs w' P G Hcg Hid Herr Hst
                   |wr msg n logs w' P S Hcg Hid Herr Hst Hmsg
                   |e n logs w' P S Hcg Hf].
  - rewrite (new_logs_quiet Hq) in Hin. destruct Hin.
  - rewrite (new_logs_progress P) in Hin.
    exfalso. eapply good_no_error; eassumption.
  - rewrite (new_logs_progress P) in Hin.
    rewrite (new_events_progress P), (@shape_error_is_last _ _ _ _ S Hin He).
    assert (Hfailed : exists wr0 msg0,
               Returned wr = Returned wr0
               /\ error wr0 = Some msg0
               /\ option_map status (execution_summary wr0)
                  = Some (lit "failed")
               /\ option_map es_error_message (execution_summary wr0)
                  = Some (Some msg0)
               /\ status_of (generation_id wr0) w' = [lit "failed"]).
    { exists wr, msg. repeat split; try assumption.
      rewrite Hid. eapply status_after_update. exact Hcg. }
    split; [|split].
    + intros step Hstep. apply steps_upto_bound in Hstep. lia.
    + intros _. exact Hfailed.
    + left. exact Hfailed.
  - rewrite (new_logs_progress P) in Hin.
    rewrite (new_events_progress P), (@shape_error_is_last _ _ _ _ S Hin He).
    split; [|split].
    + intros step Hstep. apply steps_upto_bound in Hstep. lia.
    + intros Hnone. congruence.
    + right. exists e. split; [reflexivity|]. split; [exact Hf|].
      eapply status_unchanged. exact Hcg.
Qed.

(** The second agent fails: the text service is down when the learning
    objectives are asked for. *)
Lemma failed_agent_stops_workflow_witness :
  exists res w' entry,
    execute_workflow (sample_backend_with never objectives_down image_ok)
      sample_request None empty_world = (res, w')
    /\ In entry (new_logs empty_world w')
    /\ al_status entry = lit "error"
    /\ al_step_number entry = 2
    /\ (forall step, In step (agent_steps (new_events empty_world w')) ->
                     step <= al_step_number entry)
    /\ (db_fault (sample_backend_with never objectives_down image_ok)
          (pred (calls w')) = None ->
        exists wr msg,
          res = Returned wr
          /\ error wr = Some msg
          /\ option_map status (execution_summary wr) = Some (lit "failed")
          /\ option_map es_error_message (execution_summary wr)
             = Some (Some msg)
          /\ status_of (generation_id wr) w' = [lit "failed"])
    /\ ((exists wr msg,
           res = Returned wr
           /\ error wr = Some msg
           /\ option_map status (execution_summary wr) = Some (lit "failed")
           /\ option_map es_error_message (execution_summary wr)
              = Some (Some msg)
           /\ status_of (generation_id wr) w' = [lit "failed"])
        \/ (exists e,
               res = Raised e
               /\ db_fault (sample_backend_with never objectives_down
                              image_ok) (pred (calls w')) = Some e
               /\ status_of (workflow_id empty_world) w'
                  = [lit "processing"])).
Proof.
  eexists _, _, _.
  split; [vm_compute; reflexivity|].
  split; [right; left; reflexivity|].
  split; [reflexivity|].
  split; [reflexivity|].
  eapply (failed_agent_stops_workflow
            (sample_backend_with never objectives_down image_ok)
            sample_request None empty_world).
  - vm_compute. reflexivity.
  - right. left. reflexivity.
  - reflexivity.
Defined.

(** C2. Whenever execute_workflow returns, the generation record it
    created at the start, the only row with the id it returns, has the
    status 'completed' or the status 'failed', never 'processing'.  And it
    does return when the writes to the datastore do not raise. *)
Theorem terminal_status_completed_or_failed (B : Backend) (u : InputData)
    (cb : option Callback) (w0 : World) :
  (forall wr w',
      execute_workflow B u cb w0 = (Returned wr, w') ->
      generation_id wr = workflow_id w0
      /\ (status_of (generation_id wr) w' = [lit "completed"]
          \/ status_of (generation_id wr) w' = [lit "failed"])
      /\ status_of (generation_id wr) w' <> [lit "processing"])
  /\ ((forall n, db_fault B n = None) ->
      exists wr w', execute_workflow B u cb w0 = (Returned wr, w')).
Proof.
  split.
  - intros wr w' Hrun. apply execute_workflow_post in Hrun.
    inversion Hrun as [|wr' t logs w'' P G Hcg Hid Herr Hst
                       |wr' msg n logs w'' P S Hcg Hid Herr Hst Hmsg|];
      subst; rewrite Hid; (split; [reflexivity|]);
      rewrite (@status_after_update _ _ _ _ _ _ Hcg).
    + split; [left; reflexivity|discriminate].
    + split; [right; reflexivity|discriminate].
  - intros Hdb.
    destruct (execute_workflow B u cb w0) as [[wr|e] w'] eqn:Hrun;
      [eauto|].
    apply execute_workflow_post in Hrun.
    inversion Hrun; subst; congruence.
Qed.

(** C3. A run of execute_workflow in which all four agents succeed, which
    is a run that returns a mapping without the key 'error' or, more
    generally, a run in which the fourth agent logged a success (the
    fourth agent is entered only after the first three returned success),
    adds exactly four entries to the agent log, with the step numbers 1,
    2, 3 and 4 in this order, all for the generation record of the run
    and all with status 'success'. *)
Theorem four_agents_four_log_entries (B : Backend) (u : InputData)
    (cb : option Callback) (w0 : World) res w' :
  execute_workflow B u cb w0 = (res, w') ->
  (exists wr, res = Returned wr /\ error wr = None)
  \/ (exists entry, In entry (new_logs w0 w')
                    /\ al_step_number entry = 4
                    /\ al_status entry = lit "success") ->
  length (new_logs w0 w') = 4%nat
  /\ map al_step_number (new_logs w0 w') = [1; 2; 3; 4]
  /\ NoDup (map al_step_number (new_logs w0 w'))
  /\ Forall (succeeded (workflow_id w0)) (new_logs w0 w').
Proof.
  intros Hrun Hall.
  assert (G : Good (workflow_id w0) 4 (new_logs w0 w')).
  { apply execute_workflow_post in Hrun.
    destruct Hrun as [e w' Hq Hf|wr t logs w' P G Hcg Hid Herr Hst
                     |wr msg n logs w' P S Hcg Hid Herr Hst Hmsg
                     |e n logs w' P S Hcg Hf].
    - destruct Hall as [(wr & [=] & _)|(entry & Hin & _)].
      rewrite (new_logs_quiet Hq) in Hin. destruct Hin.
    - rewrite (new_logs_progress P). exact G.
    - rewrite (new_logs_progress P) in *.
      destruct Hall as [(wr' & [= <-] & Hnone)|(entry & Hin & H4 & Hs)];
        [congruence|].
      exact (@shape_fourth_success _ _ _ _ S Hin H4 Hs).
    - rewrite (new_logs_progress P) in *.
      destruct Hall as [(wr' & [=] & _)|(entry & Hin & H4 & Hs)].
      exact (@shape_fourth_success _ _ _ _ S Hin H4 Hs). }
  destruct G as (G1 & G2 & G3).
  repeat split; try assumption.
  rewrite G2. cbn. repeat constructor; cbn; intuition discriminate.
Qed.

(** A run in which every service answers. *)
Lemma four_agents_four_log_entries_witness :
  exists res w',
    execute_workflow (sample_backend never image_ok) sample_request None
      empty_world = (res, w')
    /\ (exists wr, res = Returned wr /\ error wr = None)
    /\ length (new_logs empty_world w') = 4%nat
    /\ map al_step_number (new_logs empty_world w') = [1; 2; 3; 4]
    /\ NoDup (map al_step_number (new_logs empty_world w'))
    /\ Forall (succeeded (workflow_id empty_world)) (new_logs empty_world w').
Proof.
  eexists _, _.
  split; [vm_compute; reflexivity|].
  split; [eexists; split; reflexivity|].
  eapply (four_agents_four_log_entries (sample_backend never image_ok)
            sample_request None empty_world).
  - vm_compute. reflexivity.
  - left. eexists. split; reflexivity.
Defined.

End WorkflowProperties.

(* ===================================================================== *)
(** ** Properties of the rendering driver *)
(* ===================================================================== *)


Import GenerateComicAgentic.

Section ImageDict.

Context {V : Type}.

Lemma dict_set_keys_incl (k : Z) (v : V) (d : list (Z * V)) :
  incl (dict_keys (dict_set k v d)) (k :: dict_keys d).
Proof.
  induction d as [|[k' v'] d IH]; cbn [dict_set].
  - apply incl_refl.
  - destruct (Z.eqb_spec k' k) as [->|Hne]; cbn [dict_keys map fst].
    + apply incl_tl, incl_refl.
    + intros x [<-|Hx]; [right; left; reflexivity|].
      destruct (IH x Hx) as [<-|Hin]; [left; reflexivity|].
      right. right. exact Hin.
Qed.

Lemma dict_set_keys_nodup (k : Z) (v : V) (d : list (Z * V)) :
  NoDup (dict_keys d) -> NoDup (dict_keys (dict_set k v d)).
Proof.
  induction d as [|[k' v'] d IH]; cbn [dict_set]; intros Hd.
  - repeat constructor. intros [].
  - inversion_clear Hd as [|? ? Hnotin Hrest].
    destruct (Z.eqb_spec k' k) as [->|Hne]; cbn [dict_keys map fst] in *.
    + constructor; assumption.
    + constructor; [|apply IH; exact Hrest].
      intros Hin. apply dict_set_keys_incl in Hin.
      destruct Hin as [Heq|Hin]; [congruence|contradiction].
Qed.





End ImageDict.







Section Assembly.



End Assembly.

Section Rendering.

Variable B : Backend.
Variable self : Driver.

Lemma keys_within_same (K : list Z) (w w' : World) :
  pdfs w' = pdfs w ->
  generated_images_paths w' = generated_images_paths w ->
  keys_within K w w'.
Proof.
  intros Hp Hg. unfold keys_within. rewrite Hp, Hg.
  split; [reflexivity|]. split; [auto|]. apply incl_appr, incl_refl.
Qed.

Lemma keys_within_trans (K : list Z) (w1 w2 w3 : World) :
  keys_within K w1 w2 -> keys_within K w2 w3 -> keys_within K w1 w3.
Proof.
  intros (A1 & A2 & A3) (B1 & B2 & B3).
  split; [congruence|]. split; [auto|].
  intros k Hk. apply B3 in Hk. apply in_app_or in Hk.
  destruct Hk as [Hk|Hk]; [apply in_or_app; left; exact Hk|apply A3, Hk].
Qed.

Lemma within_ret {A} (K : list Z) (a : A) : Within K (ret a).
Proof. intros w res w' [= <- <-]. apply keys_within_same; reflexivity. Qed.

Lemma within_raise {A} (K : list Z) (e : exn) : Within K (@raise A e).
Proof. intros w res w' [= <- <-]. apply keys_within_same; reflexivity. Qed.

Lemma within_call {A} (K : list Z) (oracle : nat -> outcome A) :
  Within K (call oracle).
Proof. intros w res w' [= <- <-]. apply keys_within_same; reflexivity. Qed.

Lemma within_effect (K : list Z) (fault : nat -> option exn) :
  Within K (effect fault (fun w => w)).
Proof.
  intros w res w'. unfold effect.
  destruct (fault (calls w)); intros [= <- <-];
    apply keys_within_same; reflexivity.
Qed.

Lemma within_emit (K : list Z) (ev : Event) : Within K (emit ev).
Proof. intros w res w' [= <- <-]. apply keys_within_same; reflexivity. Qed.

Lemma within_bind {A C} (K : list Z) (c : M A) (k : A -> M C) :
  Within K c -> (forall a, Within K (k a)) -> Within K (bind c k).
Proof.
  intros Hc Hk w res w' H.
  destruct (bind_cases _ _ _ H) as [(a & w1 & Ec & Ek)|(e & Ec & ->)].
  - eapply keys_within_trans; [exact (Hc _ _ _ Ec)|exact (Hk _ _ _ _ Ek)].
  - exact (Hc _ _ _ Ec).
Qed.

Lemma within_try {A} (K : list Z) (c : M A) (h : exn -> M A) :
  Within K c -> (forall e, Within K (h e)) -> Within K (try_except c h).
Proof.
  intros Hc Hh w res w' H.
  destruct (try_except_cases _ _ _ H) as [(a & Ec & ->)|(e & w1 & Ec & Eh)].
  - exact (Hc _ _ _ Ec).
  - eapply keys_within_trans; [exact (Hc _ _ _ Ec)|exact (Hh _ _ _ _ Eh)].
Qed.

Lemma within_printer (K : list Z) (text : str) : Within K (printer self text).
Proof.
  unfold printer, notify. destruct (update_state self) as [cb|].
  - unfold invoke. apply within_bind; [apply within_emit|intros _].
    apply within_effect.
  - apply within_ret.
Qed.

Lemma within_random (K : list Z) (n : nat) :
  Within K (generate_random_alpha_string B n).
Proof. intros w res w' [= <- <-]. apply keys_within_same; reflexivity. Qed.

Lemma within_fallback (K : list Z) (image_name prompt : str) :
  Within K (_create_fallback_image B image_name prompt).
Proof.
  unfold _create_fallback_image. apply within_try.
  - apply within_bind; [apply within_effect|intros _; apply within_ret].
  - intros e. apply within_raise.
Qed.

Lemma within_stable_diff (K : list Z) (image_prompt image_name : str)
    (cfg step : Z) :
  Within K (stable_diff B self image_prompt image_name cfg step).
Proof.
  unfold stable_diff, generate_image_with_google_imagen. apply within_try.
  - destruct (imagen_client self); [apply within_call|].
    apply within_bind; [apply within_printer|intros _; apply within_fallback].
  - intros e.
    apply within_bind; [apply within_printer|intros _; apply within_fallback].
Qed.

Lemma within_overlay (K : list Z) (image_path text image_name : str) :
  Within K (add_text_to_image B image_path text image_name).
Proof.
  unfold add_text_to_image. apply within_try.
  - apply within_bind; [apply within_effect|intros _; apply within_emit].
  - intros e. apply within_raise.
Qed.

Lemma within_record_image (K : list Z) (k : Z) (p : option path) :
  In k K -> Within K (record_image k p).
Proof.
  intros Hk w res w' [= <- <-]. unfold keys_within. cbn.
  split; [reflexivity|].
  split; [apply dict_set_keys_nodup|].
  intros x Hx. apply dict_set_keys_incl in Hx.
  apply in_or_app. destruct Hx as [<-|Hx]; [left; exact Hk|right; exact Hx].
Qed.

Lemma within_process_comic_page (K : list Z) (scene_data : Scene)
    (visual_prompt customisation : str) (cfg step : Z) :
  In (task_key (scene_data, visual_prompt)) K ->
  Within K (process_comic_page B self scene_data visual_prompt customisation
              cfg step).
Proof.
  intros Hk. unfold process_comic_page. apply within_try.
  - apply within_bind; [apply within_random|intros image_name].
    apply within_bind.
    { destruct (imagen_client self); [|apply within_stable_diff].
      apply within_try.
      - apply within_bind; [apply within_call|intros image_path].
        apply within_bind; [apply within_printer|intros _; apply within_ret].
      - intros e.
        apply within_bind; [apply within_printer|intros _].
        apply within_stable_diff. }
    intros image_path. cbv zeta.
    apply within_bind; [apply within_record_image; exact Hk|intros _].
    apply within_bind; [|intros _; apply within_ret].
    destruct (get_default (dialogues scene_data) []);
      [apply within_ret|apply within_overlay].
  - intros e. apply within_ret.
Qed.

Lemma within_run_tasks (K : list Z) (customisation : str) (cfg step : Z)
    (tasks : list Task) :
  Forall (fun t => In (task_key t) K) tasks ->
  Within K (run_tasks B self customisation cfg step tasks).
Proof.
  induction 1 as [|[scene_data main_prompt] tasks Ht _ IH];
    cbn [run_tasks]; [apply within_ret|].
  apply within_bind; [|intros _; exact IH].
  apply within_try; [|intros _; apply within_ret].
  apply within_process_comic_page. exact Ht.
Qed.


Lemma find_scene_key (scenes : list Scene) (k : Z) :
  get_default (scene_number (find_scene scenes k)) 0 = k
  \/ get_default (scene_number (find_scene scenes k)) 0 = 0.
Proof.
  unfold find_scene.
  destruct (find _ scenes) as [s|] eqn:Ef; [|right; reflexivity].
  apply find_some in Ef. destruct Ef as [_ Hs].
  destruct (scene_number s) as [n|]; [|discriminate].
  left. cbn. apply Z.eqb_eq. exact Hs.
Qed.

Lemma submitted_tasks_keys (scenes : list Scene)
    (items : list (Z * list VisualPrompt)) :
  Forall (fun t => In (task_key t) (0 :: dict_keys items))
    (submitted_tasks scenes items).
Proof.
  induction items as [|[k l] items IH]; cbn [submitted_tasks];
    [constructor|].
  assert (IH' : Forall (fun t => In (task_key t)
                                   (0 :: dict_keys ((k, l) :: items)))
                  (submitted_tasks scenes items)).
  { eapply Forall_impl; [|exact IH]. cbn. intros t [H|H]; auto. }
  destruct l as [|first rest]; [exact IH'|].
  constructor; [|exact IH'].
  unfold task_key. cbn [fst].
  destruct (find_scene_key scenes k) as [-> | ->]; cbn; auto.
Qed.

Lemma group_prompt_keys (acc : list (Z * list VisualPrompt))
    (p : VisualPrompt) :
  incl (dict_keys (group_prompt acc p)) (vp_scene_number p :: dict_keys acc).
Proof.
  unfold group_prompt. intros k Hk.
  apply dict_set_keys_incl in Hk. destruct Hk as [<-|Hk]; [left; reflexivity|].
  destruct (dict_get (vp_scene_number p) acc); [right; exact Hk|].
  apply dict_set_keys_incl in Hk. exact Hk.
Qed.

Lemma group_prompts_keys (vps : list VisualPrompt)
    (acc : list (Z * list VisualPrompt)) :
  incl (dict_keys (fold_left group_prompt vps acc))
    (dict_keys acc ++ map vp_scene_number vps).
Proof.
  revert acc. induction vps as [|p vps IH]; intros acc; cbn [fold_left map].
  - rewrite app_nil_r. apply incl_refl.
  - intros k Hk. apply IH in Hk. apply in_app_or in Hk.
    apply in_or_app. destruct Hk as [Hk|Hk].
    + apply group_prompt_keys in Hk.
      destruct Hk as [<-|Hk]; [right; left; reflexivity|left; exact Hk].
    + right. right. exact Hk.
Qed.

Lemma within_generate_poster (K : list Z) (vps : list VisualPrompt)
    (cfg step : Z) :
  In 0 K -> Within K (generate_poster B self vps cfg step).
Proof.
  intros H0. unfold generate_poster. cbv zeta.
  destruct (filter (has_type Poster) vps) as [|first rest];
    [apply within_ret|].
  apply within_bind; [apply within_printer|intros _].
  apply within_bind; [apply within_random|intros image_name].
  apply within_bind.
  { destruct (imagen_client self); [|apply within_stable_diff].
    apply within_try; [apply within_call|intros e].
    apply within_bind; [apply within_printer|intros _].
    apply within_stable_diff. }
  intros poster_path.
  apply within_bind; [apply within_record_image; exact H0|intros _].
  apply within_printer.
Qed.

Lemma within_generate_scenes (sched : Scheduler) (scenes : list Scene)
    (vps : list VisualPrompt) (customisation : str) (cfg step : Z) :
  Within (0 :: prompt_scene_numbers vps)
    (generate_scenes B sched self scenes vps customisation cfg step).
Proof.
  unfold generate_scenes. cbv zeta.
  apply within_bind; [apply within_printer|intros _].
  apply within_bind; [|intros _; apply within_printer].
  apply within_run_tasks.
  rewrite Forall_forall. intros t Ht.
  apply (Permutation_in _ (run_order_perm sched _)) in Ht.
  pose proof (submitted_tasks_keys scenes
                (group_prompts (filter (has_type ScenePrompt) vps))) as Hall.
  rewrite Forall_forall in Hall. specialize (Hall t Ht).
  destruct Hall as [<-|Hin]; [left; reflexivity|].
  right. unfold prompt_scene_numbers. apply nodup_In.
  unfold group_prompts in Hin. apply group_prompts_keys in Hin.
  exact Hin.
Qed.

End Rendering.

Section Document.

Variable B : Backend.
Variable self : Driver.

Lemma printer_fixed (text : str) w res w' :
  printer self text w = (res, w') ->
  generated_images_paths w' = generated_images_paths w /\ pdfs w' = pdfs w.
Proof.
  unfold printer, notify. destruct (update_state self) as [cb|].
  - unfold invoke, bind, emit, effect. cbn [calls].
    destruct (cb (calls w) text); intros [= <- <-]; split; reflexivity.
  - intros [= <- <-]. split; reflexivity.
Qed.




End Document.



(* ===================================================================== *)
(** ** [start] as a whole *)
(* ===================================================================== *)

Section Start.

Variable B : Backend.
Variable self : Driver.

Lemma fixed_trans (w1 w2 w3 : World) :
  fixed w1 w2 -> fixed w2 w3 -> fixed w1 w3.
Proof. intros [A1 A2] [B1 B2]. split; congruence. Qed.

Lemma fixed_ret {A} (a : A) : Fixed (ret a).
Proof. intros w res w' [= <- <-]. split; reflexivity. Qed.

Lemma fixed_raise {A} (e : exn) : Fixed (@raise A e).
Proof. intros w res w' [= <- <-]. split; reflexivity. Qed.

Lemma fixed_now : Fixed (now B).
Proof. intros w res w' [= <- <-]. split; reflexivity. Qed.

Lemma fixed_printer (text : str) : Fixed (printer self text).
Proof. intros w res w' H. exact (printer_fixed self _ _ H). Qed.

Lemma fixed_bind {A C} (c : M A) (k : A -> M C) :
  Fixed c -> (forall a, Fixed (k a)) -> Fixed (bind c k).
Proof.
  intros Hc Hk w res w' H.
  destruct (bind_cases _ _ _ H) as [(a & w1 & Ec & Ek)|(e & Ec & ->)].
  - eapply fixed_trans; [exact (Hc _ _ _ Ec)|exact (Hk _ _ _ _ Ek)].
  - exact (Hc _ _ _ Ec).
Qed.

Lemma fixed_execute_workflow (u : InputData) (cb : option Callback) :
  Fixed (MultiStepAgentOrchestrator.execute_workflow B u cb).
Proof.
  intros w res w' H. apply execute_workflow_post in H.
  destruct H as [e w' (_ & _ & Q3 & Q4 & _) _|wr t logs w' [_ P2 P3 _]
                |wr msg n logs w' [_ P2 P3 _]|e n logs w' [_ P2 P3 _]];
    split; assumption.
Qed.

Section Prefix.

Variable sched : Scheduler.
Variables customisation output_path : str.
Variables cfg step : Z.
Variable w : World.
Variable res : outcome StartResult.
Variable wb : World.

Let Reached := RenderingReached B sched self customisation cfg step
                 output_path w res wb.

(** A statement of the [try] block before the rendering. *)
Lemma reach_bind {A} (c : M A) (k : A -> M StartResult) (w0 : World) :
  Fixed c ->
  (forall a w1, fixed w w1 -> k a w1 = (res, wb) -> Reached) ->
  fixed w w0 -> bind c k w0 = (res, wb) -> Reached.
Proof.
  intros Hc Hk F0 H.
  destruct (bind_cases _ _ _ H) as [(a & w1 & Ec & Ek)|(e & Ec & ->)].
  - eapply Hk; [|exact Ek]. eapply fixed_trans; [exact F0|exact (Hc _ _ _ Ec)].
  - left. exists e. split; [reflexivity|].
    eapply fixed_trans; [exact F0|exact (Hc _ _ _ Ec)].
Qed.

Lemma reach_raise (e : exn) (w0 : World) :
  fixed w w0 -> @raise StartResult e w0 = (res, wb) -> Reached.
Proof.
  intros F0 [= <- <-]. left. exists e. split; [reflexivity|exact F0].
Qed.

End Prefix.

Lemma fixed_key {A} (o : option (option A)) {C} (f : A -> C) (d : C) :
  Fixed (match o with
         | Some (Some a) => ret (f a)
         | Some None => raise MultiStepAgentOrchestrator.no_attribute_get
         | None => ret d
         end).
Proof.
  destruct o as [[a|]|]; [apply fixed_ret|apply fixed_raise|apply fixed_ret].
Qed.

(** A run of [start] either stops before the rendering, leaving the image
    slots and the documents as they were, or reaches the rendering of the
    poster with the image slots and the documents as they were, and then
    returns what the assembly returns or, when the rendering or the
    assembly raised, what its except clause makes of the exception. *)
Lemma start_reaches_rendering (sched : Scheduler) (user_input customisation
    : str) (cfg step : Z) (output_path : str) (w : World) res w' :
  start B sched self user_input customisation cfg step output_path w
  = (res, w') ->
  fixed w w'
  \/ exists wr t0 scenes vps w1 res1 w2,
       fixed w w1
       /\ (generate_poster B self vps cfg step ;;;
           generate_scenes B sched self scenes vps customisation cfg step ;;;
           assemble B self wr t0 output_path) w1 = (res1, w2)
       /\ match res1 with
          | Returned r => res = Returned r /\ w' = w2
          | Raised e => start_failed self e w2 = (res, w')
          end.
Proof.
  unfold start. intros H.
  match type of H with
  | try_except ?body _ _ = _ => set (block := body) in H
  end.
  apply try_except_cases in H.
  assert (Hbody : forall res0 wb,
             block w = (res0, wb) ->
             RenderingReached B sched self customisation cfg step output_path
               w res0 wb).
  { intros res0 wb. subst block.
    apply reach_bind; [apply fixed_now| |split; reflexivity].
    intros t0 w1 F1.
    apply reach_bind; [apply fixed_printer| |exact F1].
    intros _ w2 F2.
    apply reach_bind; [apply fixed_execute_workflow| |exact F2].
    intros wr w3 F3.
    destruct (error wr) as [e|]; [apply reach_raise; exact F3|].
    apply reach_bind; [apply fixed_printer| |exact F3].
    intros _ w4 F4.
    apply reach_bind; [apply fixed_key| |exact F4].
    intros scenes w5 F5.
    apply reach_bind; [apply fixed_key| |exact F5].
    intros vps w6 F6.
    apply reach_bind; [apply fixed_key| |exact F6].
    intros approved w7 F7.
    apply reach_bind;
      [destruct (negb approved); [apply fixed_printer|apply fixed_ret]|
      |exact F7].
    intros _ w8 F8.
    apply reach_bind; [apply fixed_printer| |exact F8].
    intros _ w9 F9 Hphases.
    right. exists wr, t0, scenes, vps, w9. split; [exact F9|exact Hphases]. }
  destruct H as [(r & Eb & ->)|(e & wb & Eb & Hh)].
  - destruct (Hbody _ _ Eb) as [(e & [=] & _)|(wr & t0 & scenes & vps & w1 & F & Hp)].
    right. exists wr, t0, scenes, vps, w1, (Returned r), w'.
    split; [exact F|]. split; [exact Hp|]. split; reflexivity.
  - destruct (Hbody _ _ Eb) as [(e' & _ & F)|(wr & t0 & scenes & vps & w1 & F & Hp)].
    + left. eapply fixed_trans; [exact F|].
      revert Hh. unfold start_failed.
      apply fixed_bind; [apply fixed_printer|intros _; apply fixed_ret].
    + right. exists wr, t0, scenes, vps, w1, (Raised e), wb.
      split; [exact F|]. split; [exact Hp|]. exact Hh.
Qed.

End Start.

(* ===================================================================== *)
(** ** More on strings: words, joins and stripped texts *)
(* ===================================================================== *)

Lemma split_ws_from_words (s cur : str) :
  Forall (fun x => isspace x = false) cur ->
  Forall is_word (split_ws_from cur s).
Proof.
  revert cur.
  induction s as [|c s IH]; intros cur Hcur; simpl.
  - destruct cur as [|x cur']; constructor; [|constructor].
    split; [|apply Forall_rev; exact Hcur].
    intros E. apply (f_equal (@length _)) in E.
    rewrite length_rev in E. discriminate E.
  - destruct (isspace c) eqn:Ec.
    + destruct cur as [|x cur'].
      * apply IH. constructor.
      * constructor; [|apply IH; constructor].
        split; [|apply Forall_rev; exact Hcur].
        intros E. apply (f_equal (@length _)) in E.
        rewrite length_rev in E. discriminate E.
    + apply IH. constructor; assumption.
Qed.

Lemma split_words (s : str) : Forall is_word (split s).
Proof. apply split_ws_from_words. constructor. Qed.

(** Reading a word, whatever follows it. *)
Lemma split_ws_from_word (w cur s : str) :
  Forall (fun x => isspace x = false) w ->
  split_ws_from cur (w ++ s) = split_ws_from (rev w ++ cur) s.
Proof.
  intros Hw. revert cur.
  induction Hw as [|x w Hx _ IH]; intros cur; simpl; [reflexivity|].
  rewrite Hx, IH, <- app_assoc. reflexivity.
Qed.

(** A word followed by a whitespace character is split off. *)
Lemma split_word_then_space (w : str) (c : char) (s : str) :
  is_word w -> isspace c = true ->
  split (w ++ c :: s) = w :: split s.
Proof.
  intros [Hne Hw] Hc. unfold split.
  rewrite split_ws_from_word by exact Hw.
  rewrite app_nil_r. simpl. rewrite Hc.
  destruct (rev w) as [|x r] eqn:Er.
  - apply (f_equal (@length _)) in Er. rewrite length_rev in Er.
    destruct w; [congruence|discriminate Er].
  - rewrite <- Er, rev_involutive. reflexivity.
Qed.

Lemma split_one_word (w : str) : is_word w -> split w = [w].
Proof.
  intros [Hne Hw]. unfold split.
  rewrite <- (app_nil_r w) at 1.
  rewrite split_ws_from_word by exact Hw.
  rewrite app_nil_r. simpl.
  destruct (rev w) as [|x r] eqn:Er.
  - apply (f_equal (@length _)) in Er. rewrite length_rev in Er.
    destruct w; [congruence|discriminate Er].
  - rewrite <- Er, rev_involutive. reflexivity.
Qed.

(** Joining words with single spaces and splitting again gives the words
    back. *)
Lemma split_join_words (ws : list str) :
  Forall is_word ws -> split (join [space] ws) = ws.
Proof.
  induction 1 as [|w ws Hw Hws IH]; [reflexivity|].
  destruct ws as [|w' ws'].
  - simpl. apply split_one_word. exact Hw.
  - change (join [space] (w :: w' :: ws'))
      with (w ++ space :: join [space] (w' :: ws')).
    rewrite split_word_then_space by (exact Hw || reflexivity).
    rewrite IH. reflexivity.
Qed.

(** What [lstrip] removes is a prefix made of stripped characters. *)
Lemma lstrip_by_prefix (f : char -> bool) (s : str) :
  exists p, s = p ++ lstrip_by f s /\ Forall (fun c => f c = true) p.
Proof.
  induction s as [|c s (p & Hp & Hall)]; simpl.
  - exists []. split; [reflexivity|constructor].
  - destruct (f c) eqn:Ec.
    + exists (c :: p). split; [simpl; congruence|constructor; assumption].
    + exists []. split; [reflexivity|constructor].
Qed.

Lemma lstrip_by_head (f : char -> bool) (s : str) :
  match lstrip_by f s with
  | [] => True
  | c :: _ => f c = false
  end.
Proof.
  induction s as [|c s IH]; simpl; [exact I|].
  destruct (f c) eqn:Ec; [exact IH|exact Ec].
Qed.

Lemma lstrip_by_fixed (f : char -> bool) (s : str) :
  match s with [] => True | c :: _ => f c = false end ->
  lstrip_by f s = s.
Proof.
  destruct s as [|c s]; simpl; [reflexivity|].
  intros ->. reflexivity.
Qed.

Lemma lstrip_by_idem (f : char -> bool) (s : str) :
  lstrip_by f (lstrip_by f s) = lstrip_by f s.
Proof. apply lstrip_by_fixed, lstrip_by_head. Qed.

Lemma strip_by_stripped (f : char -> bool) (s : str) :
  stripped_by f (strip_by f s).
Proof.
  unfold stripped_by, strip_by, rstrip_by.
  rewrite rev_involutive. split; [|apply lstrip_by_idem].
  set (t := lstrip_by f s).
  destruct (lstrip_by_prefix f (rev t)) as (p & Hp & _).
  apply (f_equal (@rev _)) in Hp.
  rewrite rev_involutive, rev_app_distr in Hp.
  apply lstrip_by_fixed.
  pose proof (lstrip_by_head f s) as Hhead. fold t in Hhead.
  destruct (rev (lstrip_by f (rev t))) as [|c u]; [exact I|].
  rewrite Hp in Hhead. exact Hhead.
Qed.

Lemma stripped_by_fixed (f : char -> bool) (s : str) :
  stripped_by f s -> strip_by f s = s.
Proof.
  intros [Hl Hr]. unfold strip_by, rstrip_by.
  rewrite Hl, Hr. apply rev_involutive.
Qed.

(** [strip] applied twice is [strip]. *)
Lemma strip_idem (s : str) : strip (strip s) = strip s.
Proof. apply stripped_by_fixed, strip_by_stripped. Qed.

(** The pieces [split(sep)] returns do not hold the separator, and there
    are at least two of them when the separator occurs. *)
Lemma split_sep_pieces (sep : char) (s : str) :
  Forall (fun p => contains_char sep p = false) (split_sep sep s).
Proof.
  induction s as [|c s IH]; simpl.
  - constructor; [reflexivity|constructor].
  - destruct (N.eqb_spec c sep) as [->|Hne].
    + constructor; [reflexivity|exact IH].
    + destruct (split_sep sep s) as [|w ws]; constructor.
      * simpl. destruct (N.eqb_spec sep c); [congruence|reflexivity].
      * constructor.
      * simpl. inversion IH; subst.
        destruct (N.eqb_spec sep c); [congruence|assumption].
      * inversion IH; assumption.
Qed.

Lemma split_sep_not_nil (sep : char) (s : str) : split_sep sep s <> [].
Proof.
  destruct s as [|c s]; simpl; [discriminate|].
  destruct (c =? sep)%N; [discriminate|].
  destruct (split_sep sep s); discriminate.
Qed.

Lemma split_sep_two (sep : char) (s : str) :
  contains_char sep s = true ->
  exists a b rest, split_sep sep s = a :: b :: rest.
Proof.
  unfold contains_char.
  induction s as [|c s IH]; simpl; [discriminate|].
  rewrite N.eqb_sym.
  destruct (c =? sep)%N; simpl.
  - intros _. pose proof (split_sep_not_nil sep s) as Hne.
    destruct (split_sep sep s) as [|b rest]; [congruence|]. eauto.
  - intros H. destruct (IH H) as (a & b & rest & ->). eauto.
Qed.

(* ===================================================================== *)
(** ** Dialogue wrapping, for every text *)
(* ===================================================================== *)

(** The text [add_line_breaks] builds from the words, written with the
    word count instead of the accumulator. *)
Lemma add_line_breaks_from_acc (words : list str) (i : nat) (acc : str) :
  add_line_breaks_from i words acc
  = acc ++ add_line_breaks_from i words [].
Proof.
  revert i acc.
  induction words as [|w ws IH]; intros i acc; cbn [add_line_breaks_from].
  - rewrite app_nil_r. reflexivity.
  - rewrite app_nil_l. destruct ((i + 1) mod 7 =? 0)%nat;
      rewrite (IH _ ((acc ++ w) ++ _)), (IH _ (w ++ _));
      repeat rewrite <- app_assoc; reflexivity.
Qed.

Lemma add_line_breaks_from_cons (w : str) (ws : list str) (i : nat) :
  add_line_breaks_from i (w :: ws) []
  = w ++ (if ((i + 1) mod 7 =? 0)%nat then newline else space)
         :: add_line_breaks_from (S i) ws [].
Proof.
  cbn [add_line_breaks_from]. rewrite app_nil_l.
  rewrite add_line_breaks_from_acc.
  destruct ((i + 1) mod 7 =? 0)%nat; rewrite <- app_assoc; reflexivity.
Qed.

Lemma split_add_line_breaks_from (ws : list str) (i : nat) :
  Forall is_word ws ->
  split (add_line_breaks_from i ws []) = ws.
Proof.
  intros H. revert i.
  induction H as [|w ws Hw _ IH]; intros i; [reflexivity|].
  rewrite add_line_breaks_from_cons.
  rewrite split_word_then_space.
  - rewrite IH. reflexivity.
  - exact Hw.
  - destruct ((i + 1) mod 7 =? 0)%nat; reflexivity.
Qed.

(** X1. [add_line_breaks] changes the white space only: the wrapped text
    has the words of the text, in their order, and wrapping a wrapped text
    changes nothing. *)
Theorem add_line_breaks_keeps_words (text : str) :
  split (add_line_breaks text) = split text
  /\ add_line_breaks (add_line_breaks text) = add_line_breaks text.
Proof.
  assert (H : split (add_line_breaks text) = split text).
  { unfold add_line_breaks.
    apply split_add_line_breaks_from, split_words. }
  split; [exact H|].
  unfold add_line_breaks at 1. rewrite H. reflexivity.
Qed.

Lemma div7_succ (j : nat) :
  (S j / 7 = j / 7 + (if ((j + 1) mod 7 =? 0) then 1 else 0))%nat.
Proof.
  pose proof (Nat.div_mod_eq (S j) 7) as H1.
  pose proof (Nat.mod_upper_bound (S j) 7 ltac:(discriminate)) as H2.
  pose proof (Nat.div_mod_eq j 7) as H3.
  pose proof (Nat.mod_upper_bound j 7 ltac:(discriminate)) as H4.
  replace (j + 1)%nat with (S j) by lia.
  destruct (Nat.eqb_spec (S j mod 7) 0); lia.
Qed.

Lemma add_line_breaks_from_newlines (ws : list str) (i : nat) :
  Forall is_word ws ->
  (count_char newline (add_line_breaks_from i ws []) + i / 7
   = (i + length ws) / 7)%nat
  /\ (count_char space (add_line_breaks_from i ws [])
      + count_char newline (add_line_breaks_from i ws [])
      = length ws)%nat.
Proof.
  intros H. revert i.
  induction H as [|w ws Hw _ IH]; intros i.
  - simpl. rewrite Nat.add_0_r. split; reflexivity.
  - rewrite add_line_breaks_from_cons.
    change (w ++ ?c :: ?r) with (w ++ [c] ++ r).
    repeat rewrite count_char_app.
    destruct Hw as [_ Hw].
    rewrite (@count_char_nospace newline w) by (exact Hw || reflexivity).
    rewrite (@count_char_nospace space w) by (exact Hw || reflexivity).
    rewrite !count_char_single.
    destruct (IH (S i)) as [IH1 IH2].
    pose proof (div7_succ i) as Hd.
    cbn [length].
    replace (i + S (length ws))%nat with (S i + length ws)%nat by lia.
    revert Hd.
    destruct ((i + 1) mod 7 =? 0)%nat; intros Hd;
      rewrite !N.eqb_refl;
      [change (space =? newline)%N with false
      |change (newline =? space)%N with false].
    all: cbv iota; lia.
Qed.

(** X2. For every text, the wrapped text holds one line break for every
    seven words (the whole part of the word count divided by 7), and one
    separator, a space or a line break, after each word, the last one
    included. *)
Theorem add_line_breaks_counts (text : str) :
  count_char newline (add_line_breaks text)
  = (length (split text) / 7)%nat
  /\ (count_char space (add_line_breaks text)
      + count_char newline (add_line_breaks text)
      = length (split text))%nat.
Proof.
  unfold add_line_breaks.
  destruct (add_line_breaks_from_newlines 0 (split_words text)) as [H1 H2].
  split; [|exact H2].
  simpl in H1. rewrite Nat.add_0_r in H1. exact H1.
Qed.

(* ===================================================================== *)
(** ** The text of the placeholder image *)
(* ===================================================================== *)

Lemma wrap_loop_inv (words lines current_line : list str) :
  Forall is_word words ->
  Forall is_word current_line ->
  Forall fits lines ->
  (length (join [space] current_line) <= FallbackImage.max_width)%nat
  \/ length current_line = 1%nat ->
  let '(lines', current_line') :=
    FallbackImage.wrap_loop words lines current_line in
  flat_map split lines' ++ current_line'
  = flat_map split lines ++ current_line ++ words
  /\ Forall is_word current_line'
  /\ Forall fits lines'
  /\ ((length (join [space] current_line') <= FallbackImage.max_width)%nat
      \/ length current_line' = 1%nat).
Proof.
  intros Hwords. revert lines current_line.
  induction Hwords as [|word rest Hword _ IH];
    intros lines cur Hcur Hlines Hfit; cbn [FallbackImage.wrap_loop].
  - rewrite app_nil_r. auto.
  - destruct (Nat.leb_spec (length (join [space] (cur ++ [word])))
                FallbackImage.max_width) as [Hle|Hgt].
    + specialize (IH lines (cur ++ [word])).
      destruct (FallbackImage.wrap_loop rest lines (cur ++ [word]))
        as [lines' cur'].
      destruct IH as (E & IH).
      * apply Forall_app. split; [exact Hcur|]. constructor; [exact Hword|constructor].
      * exact Hlines.
      * left. exact Hle.
      * split; [|exact IH].
        rewrite E, <- app_assoc. reflexivity.
    + destruct cur as [|c cur0].
      * specialize (IH lines [word]).
        destruct (FallbackImage.wrap_loop rest lines [word])
          as [lines' cur'].
        destruct IH as (E & IH).
        -- constructor; [exact Hword|constructor].
        -- exact Hlines.
        -- right. reflexivity.
        -- split; [exact E|exact IH].
      * specialize (IH (lines ++ [join [space] (c :: cur0)]) [word]).
        destruct (FallbackImage.wrap_loop rest
                    (lines ++ [join [space] (c :: cur0)]) [word])
          as [lines' cur'].
        destruct IH as (E & IH).
        -- constructor; [exact Hword|constructor].
        -- apply Forall_app. split; [exact Hlines|].
           constructor; [|constructor].
           destruct Hfit as [Hfit|Hone]; [left; exact Hfit|].
           right. rewrite split_join_words by exact Hcur. exact Hone.
        -- right. reflexivity.
        -- split; [|exact IH].
           rewrite E, flat_map_app. cbn [flat_map].
           rewrite split_join_words by exact Hcur.
           rewrite app_nil_r, <- !app_assoc. reflexivity.
Qed.

(** X3. The text of the placeholder image.  The lines built from the
    prompt hold its words, all of them and in their order; every line has
    at most 45 characters or is a single word longer than that; at most
    eight lines are drawn, the first ones, so the words of any further
    line do not appear on the image. *)
Theorem fallback_text_wrapped (prompt : str) :
  flat_map split (FallbackImage.text_lines prompt) = split prompt
  /\ Forall fits (FallbackImage.text_lines prompt)
  /\ FallbackImage.drawn_lines prompt
     = firstn 8 (FallbackImage.text_lines prompt)
  /\ (length (FallbackImage.drawn_lines prompt) <= 8)%nat.
Proof.
  unfold FallbackImage.drawn_lines, FallbackImage.text_lines.
  pose proof (@wrap_loop_inv (split prompt) [] [] (split_words prompt)
                (Forall_nil _) (Forall_nil _)) as H.
  destruct (FallbackImage.wrap_loop (split prompt) [] []) as [lines cur].
  destruct H as (E & Hcur & Hlines & Hfit).
  { left. cbn. unfold FallbackImage.max_width. lia. }
  cbn [flat_map app] in E.
  assert (Hgoal :
    flat_map split
      match cur with
      | [] => lines
      | _ :: _ => lines ++ [join [space] cur]
      end = split prompt
    /\ Forall fits
         match cur with
         | [] => lines
         | _ :: _ => lines ++ [join [space] cur]
         end).
  { destruct cur as [|c cur0].
    - rewrite app_nil_r in E. split; [exact E|exact Hlines].
    - split.
      + rewrite flat_map_app. cbn [flat_map].
        rewrite split_join_words by exact Hcur.
        rewrite app_nil_r. exact E.
      + apply Forall_app. split; [exact Hlines|].
        constructor; [|constructor].
        destruct Hfit as [Hfit|Hone]; [left; exact Hfit|].
        right. rewrite split_join_words by exact Hcur. exact Hone. }
  destruct Hgoal as [G1 G2].
  split; [exact G1|]. split; [exact G2|]. split; [reflexivity|].
  apply firstn_le_length.
Qed.

(* ===================================================================== *)
(** ** The legacy dialogue parser *)
(* ===================================================================== *)

Lemma dict_set_enumerate_same {A} (l : list A) (i k : nat) (x : A) :
  nth_error l k = Some x ->
  dict_set (Z.of_nat (i + k)) x (enumerate_from i l) = enumerate_from i l.
Proof.
  revert i k.
  induction l as [|y l IH]; intros i k H; [destruct k; discriminate H|].
  destruct k as [|k]; cbn [enumerate_from dict_set].
  - injection H as ->. rewrite Nat.add_0_r, Z.eqb_refl. reflexivity.
  - destruct (Z.eqb_spec (Z.of_nat i) (Z.of_nat (i + S k))) as [E|_]; [lia|].
    replace (i + S k)%nat with (S i + k)%nat by lia.
    rewrite IH by exact H. reflexivity.
Qed.

Lemma dict_set_enumerate_end {A} (l : list A) (i : nat) (x : A) :
  dict_set (Z.of_nat (i + length l)) x (enumerate_from i l)
  = enumerate_from i (l ++ [x]).
Proof.
  revert i.
  induction l as [|y l IH]; intros i; cbn [enumerate_from dict_set app length].
  - rewrite Nat.add_0_r. reflexivity.
  - destruct (Z.eqb_spec (Z.of_nat i) (Z.of_nat (i + S (length l))))
      as [E|_]; [lia|].
    replace (i + S (length l))%nat with (S i + length l)%nat by lia.
    rewrite IH. reflexivity.
Qed.

Lemma firstn_succ_nth {A} (l : list A) (k : nat) (x : A) :
  nth_error l k = Some x -> firstn (S k) l = firstn k l ++ [x].
Proof.
  revert k.
  induction l as [|y l IH]; intros k H; [destruct k; discriminate H|].
  destruct k as [|k].
  - injection H as ->. reflexivity.
  - change (y :: firstn (S k) l = y :: (firstn k l ++ [x])).
    rewrite (IH _ H). reflexivity.
Qed.

Lemma dict_set_enumerate_firstn {A} (l : list A) (i k : nat) (x : A) :
  nth_error l i = Some x -> (i <= k <= length l)%nat ->
  dict_set (Z.of_nat i) x (enumerate_from 0 (firstn k l))
  = enumerate_from 0 (firstn (Nat.max k (S i)) l).
Proof.
  intros Hx [Hik Hk].
  destruct (Nat.eq_dec i k) as [->|Hne].
  - replace (Nat.max k (S k)) with (S k) by lia.
    rewrite (@firstn_succ_nth _ _ _ _ Hx).
    rewrite <- dict_set_enumerate_end.
    rewrite length_firstn, Nat.min_l by exact Hk. reflexivity.
  - replace (Nat.max k (S i)) with k by lia.
    apply (@dict_set_enumerate_same _ _ 0 i).
    rewrite nth_error_firstn.
    destruct (Nat.ltb_spec i k); [exact Hx|lia].
Qed.

Lemma fill_dicts_spec (dl sp : list str) (n i k : nat) (st : Legacy.MapState) :
  (n + i = length dl)%nat -> (i <= k <= length dl)%nat ->
  length sp = length dl ->
  Legacy.dialogue_list st = dl -> Legacy.speak st = sp ->
  Legacy.d st = enumerate_from 0 (firstn k dl) ->
  Legacy.who_spoke st = enumerate_from 0 (firstn k sp) ->
  Legacy.fill_dicts n i st
  = Returned {| Legacy.d := enumerate_from 0 dl;
                Legacy.who_spoke := enumerate_from 0 sp;
                Legacy.dialogue_list := dl;
                Legacy.speak := sp |}.
Proof.
  revert i k st.
  induction n as [|n IH]; intros i k st Hn Hk Hlen Hdl Hsp Hd Hw;
    cbn [Legacy.fill_dicts].
  - assert (k = length dl) as -> by lia.
    rewrite firstn_all in Hd. rewrite <- Hlen, firstn_all in Hw.
    destruct st; cbn in *. congruence.
  - rewrite Hdl, Hsp. unfold py_index.
    destruct (nth_error dl i) as [di|] eqn:Edi;
      [|apply nth_error_None in Edi; lia].
    destruct (nth_error sp i) as [si|] eqn:Esi;
      [|apply nth_error_None in Esi; lia].
    cbn [obind].
    apply (IH (S i) (Nat.max k (S i)));
      cbn [Legacy.d Legacy.who_spoke Legacy.dialogue_list Legacy.speak];
      try lia; try assumption; try reflexivity.
    + rewrite Hd. apply dict_set_enumerate_firstn; [exact Edi|lia].
    + rewrite Hw. apply dict_set_enumerate_firstn; [exact Esi|lia].
Qed.

Lemma map_line_spec (dl sp : list str) (word : str) :
  length sp = length dl ->
  Legacy.map_line
    {| Legacy.d := enumerate_from 0 dl;
       Legacy.who_spoke := enumerate_from 0 sp;
       Legacy.dialogue_list := dl;
       Legacy.speak := sp |} word
  = Returned
      (if spoken word then
         {| Legacy.d := enumerate_from 0 (dl ++ [said_of word]);
            Legacy.who_spoke := enumerate_from 0 (sp ++ [speaker_of word]);
            Legacy.dialogue_list := dl ++ [said_of word];
            Legacy.speak := sp ++ [speaker_of word] |}
       else
         {| Legacy.d := enumerate_from 0 dl;
            Legacy.who_spoke := enumerate_from 0 sp;
            Legacy.dialogue_list := dl;
            Legacy.speak := sp |}).
Proof.
  intros Hlen. unfold Legacy.map_line, spoken.
  destruct (negb (contains (lit "Scene") word)
            && negb (contains (lit "Act") word)); cbn [andb].
  - destruct (contains_char colon word) eqn:Ecolon.
    + destruct (split_sep_two _ _ Ecolon) as (a & b & rest & Hsplit).
      unfold said_of, speaker_of. rewrite Hsplit.
      cbn [py_index nth_error obind nth Legacy.dialogue_list].
      apply (@fill_dicts_spec _ _ _ 0 (length dl)); cbn;
        rewrite ?length_app; cbn; try lia; try reflexivity.
      * rewrite firstn_app, firstn_all, Nat.sub_diag. cbn.
        rewrite app_nil_r. reflexivity.
      * rewrite <- Hlen, firstn_app, firstn_all, Nat.sub_diag. cbn.
        rewrite app_nil_r. reflexivity.
    + cbn [obind Legacy.dialogue_list].
      apply (@fill_dicts_spec _ _ _ 0 (length dl)); cbn; try lia;
        try reflexivity.
      * rewrite firstn_all. reflexivity.
      * rewrite <- Hlen, firstn_all. reflexivity.
  - cbn [obind Legacy.dialogue_list].
    apply (@fill_dicts_spec _ _ _ 0 (length dl)); cbn; try lia;
      try reflexivity.
    * rewrite firstn_all. reflexivity.
    * rewrite <- Hlen, firstn_all. reflexivity.
Qed.

Lemma map_lines_spec (l : list str) (dl sp : list str) :
  length sp = length dl ->
  Legacy.map_lines
    {| Legacy.d := enumerate_from 0 dl;
       Legacy.who_spoke := enumerate_from 0 sp;
       Legacy.dialogue_list := dl;
       Legacy.speak := sp |} l
  = Returned
      {| Legacy.d := enumerate_from 0 (dl ++ map said_of (filter spoken l));
         Legacy.who_spoke :=
           enumerate_from 0 (sp ++ map speaker_of (filter spoken l));
         Legacy.dialogue_list := dl ++ map said_of (filter spoken l);
         Legacy.speak := sp ++ map speaker_of (filter spoken l) |}.
Proof.
  revert dl sp.
  induction l as [|word l IH]; intros dl sp Hlen;
    cbn [Legacy.map_lines filter map].
  - rewrite !app_nil_r. reflexivity.
  - rewrite map_line_spec by exact Hlen. cbn [obind].
    destruct (spoken word); cbn [map].
    + rewrite IH by (rewrite !length_app; cbn; lia).
      rewrite <- !app_assoc. reflexivity.
    + apply IH. exact Hlen.
Qed.

Lemma enumerate_from_keys {A} (l : list A) (i : nat) :
  dict_keys (enumerate_from i l) = map Z.of_nat (seq i (length l)).
Proof.
  revert i. induction l as [|x l IH]; intros i; [reflexivity|].
  cbn. f_equal. apply IH.
Qed.

Lemma spoken_pieces (word : str) :
  contains_char colon (said_of word) = false
  /\ contains_char colon (speaker_of word) = false.
Proof.
  pose proof (split_sep_pieces colon word) as H.
  unfold said_of, speaker_of.
  destruct (split_sep colon word) as [|a [|b rest]]; cbn [nth];
    repeat match goal with
           | H : Forall _ (_ :: _) |- _ => inversion H; subst; clear H
           end; auto.
Qed.

Lemma generate_map_from_text_returns (text : str) :
  Legacy.generate_map_from_text text
  = Returned (enumerate_from 0 (map said_of (spoken_lines text)),
              enumerate_from 0 (map speaker_of (spoken_lines text))).
Proof.
  unfold Legacy.generate_map_from_text, spoken_lines.
  rewrite (@map_lines_spec _ [] []) by reflexivity.
  reflexivity.
Qed.

(** X4. [generate_map_from_text] never raises.  The lines it reads as
    dialogue are those with a colon that contain neither [Scene] nor
    [Act] anywhere, a line such as [Tom: Actually, yes] being skipped;
    the two dicts it returns have the same keys [0 .. n-1], one per such
    line in the order of the text, bound to the text between the first
    and the second colon of the line and to the text before the first
    colon; no value holds a colon, so what follows a second colon is
    lost. *)
Theorem generate_map_from_text_spoken_lines (text : str) :
  Legacy.generate_map_from_text text
  = Returned (enumerate_from 0 (map said_of (spoken_lines text)),
              enumerate_from 0 (map speaker_of (spoken_lines text)))
  /\ dict_keys (enumerate_from 0 (map said_of (spoken_lines text)))
     = map Z.of_nat (seq 0 (length (spoken_lines text)))
  /\ dict_keys (enumerate_from 0 (map speaker_of (spoken_lines text)))
     = map Z.of_nat (seq 0 (length (spoken_lines text)))
  /\ Forall (fun v => contains_char colon v = false)
       (map said_of (spoken_lines text)
        ++ map speaker_of (spoken_lines text)).
Proof.
  split; [|split; [|split]].
  - apply generate_map_from_text_returns.
  - rewrite enumerate_from_keys, length_map. reflexivity.
  - rewrite enumerate_from_keys, length_map. reflexivity.
  - apply Forall_app. split; apply Forall_map, Forall_forall;
      intros word _; apply spoken_pieces.
Qed.

(* ===================================================================== *)
(** ** The retries of the text service client *)
(* ===================================================================== *)

Lemma retries_eq (a a' : nat) (s s' : list Z) :
  a = a' -> s = s' ->
  {| GeminiFlashClient.attempts := a; GeminiFlashClient.sleeps := s |}
  = {| GeminiFlashClient.attempts := a'; GeminiFlashClient.sleeps := s' |}.
Proof. intros -> ->. reflexivity. Qed.

Lemma generate_text_from_spec (model : GeminiFlashClient.Model)
    (max_retries remaining attempt : nat) (st : GeminiFlashClient.Retries) :
  (attempt + remaining = max_retries)%nat ->
  GeminiFlashClient.generate_text_from model max_retries remaining attempt st
  = match find (answers model) (seq attempt remaining) with
    | Some k =>
        (Returned (Some (text_of model k)),
         {| GeminiFlashClient.attempts :=
              GeminiFlashClient.attempts st + (k - attempt) + 1;
            GeminiFlashClient.sleeps :=
              GeminiFlashClient.sleeps st
              ++ map (fun j => 2 ^ Z.of_nat j) (seq attempt (k - attempt)) |})
    | None =>
        match remaining with
        | O => (Returned None, st)
        | S r =>
            (Raised (GeminiFlashClient.failed_after max_retries
                       (error_of model (max_retries - 1))),
             {| GeminiFlashClient.attempts :=
                  GeminiFlashClient.attempts st + remaining;
                GeminiFlashClient.sleeps :=
                  GeminiFlashClient.sleeps st
                  ++ map (fun j => 2 ^ Z.of_nat j) (seq attempt r) |})
        end
    end.
Proof.
  revert attempt st.
  induction remaining as [|r IH]; intros a st Hsum;
    cbn [GeminiFlashClient.generate_text_from seq find]; [reflexivity|].
  assert (Hfail : forall e,
    answers model a = false -> error_of model a = e ->
    (if Z.of_nat a =? Z.of_nat max_retries - 1
     then (Raised (GeminiFlashClient.failed_after max_retries e),
           {| GeminiFlashClient.attempts := S (GeminiFlashClient.attempts st);
              GeminiFlashClient.sleeps := GeminiFlashClient.sleeps st |})
     else GeminiFlashClient.generate_text_from model max_retries r (S a)
            {| GeminiFlashClient.attempts :=
                 S (GeminiFlashClient.attempts st);
               GeminiFlashClient.sleeps :=
                 GeminiFlashClient.sleeps st ++ [2 ^ Z.of_nat a] |})
    = match
        (if answers model a then Some a
         else find (answers model) (seq (S a) r))
      with
      | Some k =>
          (Returned (Some (text_of model k)),
           {| GeminiFlashClient.attempts :=
                GeminiFlashClient.attempts st + (k - a) + 1;
              GeminiFlashClient.sleeps :=
                GeminiFlashClient.sleeps st
                ++ map (fun j => 2 ^ Z.of_nat j) (seq a (k - a)) |})
      | None =>
          (Raised (GeminiFlashClient.failed_after max_retries
                     (error_of model (max_retries - 1))),
           {| GeminiFlashClient.attempts :=
                GeminiFlashClient.attempts st + S r;
              GeminiFlashClient.sleeps :=
                GeminiFlashClient.sleeps st
                ++ map (fun j => 2 ^ Z.of_nat j) (seq a r) |})
      end).
  { intros e Hno He. rewrite Hno.
    destruct (Z.eqb_spec (Z.of_nat a) (Z.of_nat max_retries - 1)) as [E|E].
    - assert (r = 0%nat) as -> by lia.
      replace (max_retries - 1)%nat with a by lia.
      cbn [seq find map]. rewrite He, app_nil_r.
      f_equal. apply retries_eq; [lia|reflexivity].
    - rewrite IH by lia.
      cbn [GeminiFlashClient.attempts GeminiFlashClient.sleeps].
      destruct (find (answers model) (seq (S a) r)) as [k|] eqn:Efind.
      + apply find_some in Efind. destruct Efind as [Hin _].
        apply in_seq in Hin.
        f_equal. apply retries_eq; [lia|].
        replace (k - a)%nat with (S (k - S a)) by lia.
        cbn [seq map]. rewrite <- app_assoc. reflexivity.
      + destruct r as [|r']; [lia|].
        f_equal. apply retries_eq; [lia|].
        cbn [seq map]. rewrite <- app_assoc. reflexivity. }
  unfold answers, error_of in Hfail. unfold answers at 1.
  destruct (model a) as [[|c t]|e] eqn:Em.
  - apply Hfail; reflexivity.
  - rewrite Nat.sub_diag. cbn [seq map]. rewrite app_nil_r.
    unfold text_of. rewrite Em.
    f_equal. apply retries_eq; [lia|reflexivity].
  - apply Hfail; reflexivity.
Qed.

Lemma backoff_total (k : nat) :
  fold_right Z.add 0 (backoff k) = 2 ^ Z.of_nat k - 1.
Proof.
  unfold backoff.
  induction k as [|k IH]; [reflexivity|].
  rewrite seq_S, map_app, fold_right_app. cbn [map fold_right Nat.add].
  assert (G : forall l z, fold_right Z.add z l = fold_right Z.add 0 l + z).
  { induction l as [|x l IHl]; intros z; cbn [fold_right]; [lia|].
    rewrite IHl. lia. }
  rewrite G, IH.
  rewrite Nat2Z.inj_succ, Z.pow_succ_r by lia. lia.
Qed.

(** X5. [generate_text] with [max_retries] attempts allowed.  It returns
    the stripped text of the first attempt that gets a non-empty text,
    after that many attempts and pauses of 1, 2, 4, ... seconds between
    them; when no attempt gets one, it raises [Failed to generate text
    after N attempts: e] with the error [e] of the last attempt only,
    after [max_retries] attempts and no pause after the last; with
    [max_retries = 0] it makes no attempt and returns [None].  The pauses
    before the attempt of number [k] add up to [2^k - 1] seconds. *)
Theorem generate_text_retries (model : GeminiFlashClient.Model)
    (max_retries : nat) :
  GeminiFlashClient.generate_text model max_retries
  = match find (answers model) (seq 0 max_retries) with
    | Some k =>
        (Returned (Some (text_of model k)),
         {| GeminiFlashClient.attempts := S k;
            GeminiFlashClient.sleeps := backoff k |})
    | None =>
        match max_retries with
        | O =>
            (Returned None,
             {| GeminiFlashClient.attempts := 0;
                GeminiFlashClient.sleeps := [] |})
        | S last =>
            (Raised (GeminiFlashClient.failed_after max_retries
                       (error_of model last)),
             {| GeminiFlashClient.attempts := max_retries;
                GeminiFlashClient.sleeps := backoff last |})
        end
    end
  /\ forall k, fold_right Z.add 0 (backoff k) = 2 ^ Z.of_nat k - 1.
Proof.
  split; [|exact backoff_total].
  unfold GeminiFlashClient.generate_text.
  rewrite generate_text_from_spec by reflexivity.
  cbn [GeminiFlashClient.attempts GeminiFlashClient.sleeps app Nat.add].
  destruct (find (answers model) (seq 0 max_retries)) as [k|].
  - rewrite Nat.sub_0_r. f_equal. apply retries_eq; [lia|reflexivity].
  - destruct max_retries as [|last]; [reflexivity|].
    replace (S last - 1)%nat with last by lia. reflexivity.
Qed.

(* ===================================================================== *)
(** ** The character registry read from the answer of the text service *)
(* ===================================================================== *)

Lemma sdict_set_keys_incl {V} (k : str) (v : V) (d : list (str * V)) :
  incl (map fst (GeminiFlashClient.sdict_set k v d)) (k :: map fst d).
Proof.
  induction d as [|[k' v'] d IH]; cbn [GeminiFlashClient.sdict_set].
  - apply incl_refl.
  - unfold str_eqb.
    destruct (list_eq_dec N.eq_dec k' k) as [->|Hne]; cbn [map fst].
    + apply incl_tl, incl_refl.
    + intros x [<-|Hx]; [right; left; reflexivity|].
      destruct (IH x Hx) as [<-|Hin]; [left; reflexivity|].
      right. right. exact Hin.
Qed.

Lemma sdict_set_keys_nodup {V} (k : str) (v : V) (d : list (str * V)) :
  NoDup (map fst d) -> NoDup (map fst (GeminiFlashClient.sdict_set k v d)).
Proof.
  induction d as [|[k' v'] d IH]; cbn [GeminiFlashClient.sdict_set];
    intros Hd.
  - repeat constructor. intros [].
  - inversion_clear Hd as [|? ? Hnotin Hrest].
    unfold str_eqb.
    destruct (list_eq_dec N.eq_dec k' k) as [->|Hne]; cbn [map fst] in *.
    + constructor; assumption.
    + constructor; [|apply IH; exact Hrest].
      intros Hin. apply sdict_set_keys_incl in Hin.
      destruct Hin as [Heq|Hin]; [congruence|contradiction].
Qed.

Lemma sdict_set_forall {V} (P : str * V -> Prop) (k : str) (v : V)
    (d : list (str * V)) :
  Forall P d -> P (k, v) -> Forall P (GeminiFlashClient.sdict_set k v d).
Proof.
  intros Hd Hkv.
  induction Hd as [|[k' v'] d Hx Hd IH]; cbn [GeminiFlashClient.sdict_set].
  - constructor; [exact Hkv|constructor].
  - destruct (str_eqb k' k); constructor; assumption.
Qed.

Lemma character_line_inv (st st' : GeminiFlashClient.char_state)
    (line : str) :
  Forall character_ok (fst st) -> NoDup (map fst (fst st)) ->
  (forall cc n, snd st = Some cc -> GeminiFlashClient.ce_name cc = Some n ->
                strip n = n) ->
  match GeminiFlashClient.character_line st line with
  | Returned st' =>
      Forall character_ok (fst st') /\ NoDup (map fst (fst st'))
      /\ (forall cc n, snd st' = Some cc ->
                       GeminiFlashClient.ce_name cc = Some n -> strip n = n)
  | Raised e => e = lit "KeyError: name"
  end.
Proof.
  destruct st as [chars cur]. cbn [fst snd]. intros Hok Hnd Hcur.
  unfold GeminiFlashClient.character_line.
  destruct (startswith (lit "CHARACTER_") line).
  { cbn [fst snd]. split; [exact Hok|]. split; [exact Hnd|].
    intros cc n [= <-]. discriminate. }
  destruct cur as [cc|]; [|cbn [fst snd]; auto].
  destruct (startswith (lit "Name:") line).
  { cbn [fst snd]. split; [exact Hok|]. split; [exact Hnd|].
    intros cc' n [= <-]. cbn. intros [= <-]. apply strip_idem. }
  destruct (startswith (lit "Personality:") line).
  { cbn [fst snd]. split; [exact Hok|]. split; [exact Hnd|].
    intros cc' n [= <-]. cbn. intros Hn. exact (Hcur cc n eq_refl Hn). }
  destruct (startswith (lit "Role:") line); [|cbn [fst snd]; auto].
  cbn [GeminiFlashClient.ce_name].
  destruct (GeminiFlashClient.ce_name cc) as [name|] eqn:Ename;
    cbn [py_key obind]; [|reflexivity].
  cbn [fst snd].
  split; [|split; [|intros ? ? [=]]].
  - destruct name as [|c name']; [exact Hok|].
    apply sdict_set_forall; [exact Hok|].
    unfold character_ok. cbn.
    repeat split; try discriminate.
    exact (Hcur cc _ eq_refl Ename).
  - destruct name as [|c name']; [exact Hnd|].
    apply sdict_set_keys_nodup. exact Hnd.
Qed.

Lemma character_lines_inv (lines : list str)
    (st : GeminiFlashClient.char_state) :
  Forall character_ok (fst st) -> NoDup (map fst (fst st)) ->
  (forall cc n, snd st = Some cc -> GeminiFlashClient.ce_name cc = Some n ->
                strip n = n) ->
  match GeminiFlashClient.character_lines st lines with
  | Returned st' =>
      Forall character_ok (fst st') /\ NoDup (map fst (fst st'))
  | Raised e => e = lit "KeyError: name"
  end.
Proof.
  revert st.
  induction lines as [|line rest IH]; intros st Hok Hnd Hcur;
    cbn [GeminiFlashClient.character_lines].
  - auto.
  - pose proof (@character_line_inv st st line Hok Hnd Hcur) as Hstep.
    destruct (GeminiFlashClient.character_line st line) as [st'|e];
      cbn [obind]; [|exact Hstep].
    destruct Hstep as (Hok' & Hnd' & Hcur').
    apply IH; assumption.
Qed.

(** X6. The registry [extract_character_info] reads from the answer of the
    text service.  Whatever the answer, the parser either returns a
    registry whose keys are distinct, not empty and stripped, each bound
    to an entry that carries this name and has a role, or it raises a
    [KeyError] for [name], nothing else; and it does raise it when, after
    a [CHARACTER_] header, a [Role:] line comes with no [Name:] line in
    between. *)
Theorem character_registry_well_formed (response : str) :
  match GeminiFlashClient.parse_character_info response with
  | Returned characters =>
      Forall character_ok characters /\ NoDup (map fst characters)
  | Raised e => e = lit "KeyError: name"
  end
  /\ forall st header role rest,
       startswith (lit "CHARACTER_") header = true ->
       GeminiFlashClient.character_lines st
         (header :: (lit "Role:" ++ role) :: rest)
       = Raised (lit "KeyError: name").
Proof.
  split.
  - unfold GeminiFlashClient.parse_character_info.
    pose proof (@character_lines_inv (split_sep newline response) ([], None)
                  (Forall_nil _) (NoDup_nil _)) as H.
    destruct (GeminiFlashClient.character_lines ([], None)
                (split_sep newline response)) as [st|e]; cbn [obind].
    + apply H. intros cc n [=].
    + apply H. intros cc n [=].
  - intros [chars cur] header role rest Hheader.
    cbn [GeminiFlashClient.character_lines].
    unfold GeminiFlashClient.character_line at 1. rewrite Hheader.
    cbn [obind]. reflexivity.
Qed.

(** An answer in which the role of the first character comes before any
    name. *)
Lemma character_registry_well_formed_witness :
  startswith (lit "CHARACTER_") (lit "CHARACTER_1:") = true
  /\ GeminiFlashClient.character_lines ([], None)
       [lit "CHARACTER_1:"; lit "Role:" ++ lit " guide"; lit "Name: Ada"]
     = Raised (lit "KeyError: name").
Proof.
  split; [reflexivity|].
  apply (proj2 (character_registry_well_formed [])).
  reflexivity.
Defined.

(* ===================================================================== *)
(** ** The dialogue lines of a parsed script *)
(* ===================================================================== *)

Lemma contains_char_in (c : char) (s : str) :
  contains_char c s = false <-> ~ In c s.
Proof.
  unfold contains_char. split.
  - intros H Hin.
    assert (existsb (N.eqb c) s = true) as E; [|congruence].
    apply existsb_exists. exists c. split; [exact Hin|apply N.eqb_refl].
  - intros H. destruct (existsb (N.eqb c) s) eqn:E; [|reflexivity].
    apply existsb_exists in E. destruct E as (x & Hin & Hx).
    apply N.eqb_eq in Hx. subst x. contradiction.
Qed.

Lemma lstrip_by_in (f : char -> bool) (s : str) (x : char) :
  In x (lstrip_by f s) -> In x s.
Proof.
  destruct (lstrip_by_prefix f s) as (p & Hp & _).
  intros H. rewrite Hp. apply in_or_app. right. exact H.
Qed.

Lemma strip_in (s : str) (x : char) : In x (strip s) -> In x s.
Proof.
  unfold strip, strip_by, rstrip_by. intros H.
  apply in_rev, lstrip_by_in, in_rev, lstrip_by_in in H. exact H.
Qed.

Lemma partition_first_before (sep : char) (s a b : str) :
  partition_first sep s = Some (a, b) -> contains_char sep a = false.
Proof.
  revert a b.
  induction s as [|c s IH]; intros a b; cbn [partition_first];
    [discriminate|].
  destruct (N.eqb_spec c sep) as [->|Hne].
  - intros [= <- <-]. reflexivity.
  - destruct (partition_first sep s) as [[a' b']|]; [|discriminate].
    intros [= <- <-]. cbn. specialize (IH a' b' eq_refl).
    unfold contains_char in IH. rewrite IH.
    destruct (N.eqb_spec sep c); [congruence|reflexivity].
Qed.

Lemma parse_line_scenes_ok (st : parse_state) (line : str) :
  Forall scene_ok (fst st) ->
  (forall cs, snd st = Some cs -> scene_ok cs) ->
  match parse_line st line with
  | Returned st' =>
      Forall scene_ok (fst st')
      /\ (forall cs, snd st' = Some cs -> scene_ok cs)
  | Raised _ => True
  end.
Proof.
  destruct st as [scenes cur]. cbn [fst snd]. intros Hs Hc.
  unfold parse_line.
  destruct (startswith (lit "SCENE") (strip line)).
  { cbn [fst snd]. split.
    - destruct cur as [cs|]; cbn [flush_scene]; [|exact Hs].
      apply Forall_app. split; [exact Hs|].
      constructor; [apply Hc; reflexivity|constructor].
    - intros cs [= <-]. exists []. split; [reflexivity|constructor]. }
  destruct cur as [cs|]; [|cbn [fst snd]; auto].
  destruct (contains_char colon (strip line)); [|cbn [fst snd]; auto].
  destruct (negb (startswith (lit "CHARACTERS:") (strip line))
            && negb (startswith (lit "EDUCATIONAL_SUMMARY:") (strip line)));
    [|cbn [fst snd]; auto].
  unfold split_sep1.
  destruct (partition_first colon (strip line)) as [[a b]|] eqn:Epart;
    cbn [length Nat.eqb]; [|cbn [fst snd]; auto].
  cbn [py_index nth_error obind].
  destruct (Hc cs eq_refl) as (ds & Eds & Hds).
  rewrite Eds. cbn [py_key obind fst snd].
  split; [exact Hs|].
  intros cs' [= <-]. exists (ds ++ [{| character := Some (strip a);
                                       dialogue := Some (strip b) |}]).
  split; [reflexivity|].
  apply Forall_app. split; [exact Hds|].
  constructor; [|constructor].
  exists (strip a), (strip b). cbn [character dialogue].
  repeat split; try apply strip_idem.
  apply contains_char_in. intros Hin. apply strip_in in Hin.
  apply partition_first_before in Epart.
  apply contains_char_in in Epart. contradiction.
Qed.

Lemma parse_lines_scenes_ok (lines : list str) (st : parse_state) :
  Forall scene_ok (fst st) ->
  (forall cs, snd st = Some cs -> scene_ok cs) ->
  match parse_lines st lines with
  | Returned st' =>
      Forall scene_ok (fst st')
      /\ (forall cs, snd st' = Some cs -> scene_ok cs)
  | Raised _ => True
  end.
Proof.
  revert st.
  induction lines as [|line rest IH]; intros st Hs Hc; cbn [parse_lines].
  - auto.
  - pose proof (parse_line_scenes_ok st line Hs Hc) as Hstep.
    destruct (parse_line st line) as [st'|e]; cbn [obind]; [|exact I].
    apply IH; apply Hstep.
Qed.

Lemma parse_scenes_ok (content : str) (scenes : list Scene) :
  _parse_educational_content content = Returned scenes ->
  Forall scene_ok scenes.
Proof.
  unfold _parse_educational_content.
  pose proof (@parse_lines_scenes_ok (split_sep newline content) ([], None)
                (Forall_nil _)) as H.
  destruct (parse_lines ([], None) (split_sep newline content))
    as [[ss cur]|e]; cbn [obind]; [|discriminate].
  intros [= <-].
  destruct H as [Hs Hc]; [intros cs [=]|].
  cbn [fst snd] in *.
  destruct cur as [cs|]; cbn [flush_scene]; [|exact Hs].
  apply Forall_app. split; [exact Hs|].
  constructor; [apply Hc; reflexivity|constructor].
Qed.

(** X7. For every script text the parser returns scenes whose dialogue
    lists are present and whose every dialogue line has a speaker and a
    text, both stripped of surrounding white space, the speaker being the
    text before the first colon of the line and so free of colons: the
    defaults [Unknown] and the empty text, which the agents use when
    they read a dialogue line, never apply to a parsed script. *)
Theorem parsed_dialogues_well_formed (content : str) :
  exists scenes,
    _parse_educational_content content = Returned scenes
    /\ Forall scene_ok scenes.
Proof.
  destruct (parse_numbered content) as (scenes & E & _).
  exists scenes. split; [exact E|].
  exact (parse_scenes_ok _ E).
Qed.

(* ===================================================================== *)
(** ** What the agents return *)
(* ===================================================================== *)

Lemma improvements_loop_ok (B : Backend) (lines : list str) (flag : bool)
    (acc : list str) :
  Forall improvement_ok acc ->
  Forall improvement_ok
    (QualityAssuranceAgent.improvements_loop B lines flag acc).
Proof.
  revert flag acc.
  induction lines as [|line rest IH]; intros flag acc Hacc;
    cbn [QualityAssuranceAgent.improvements_loop]; [exact Hacc|].
  destruct (contains (lit "IMPROVEMENTS:") (upper B line)); [auto|].
  destruct (strip line) as [|c t] eqn:Es.
  - rewrite andb_false_r. auto.
  - destruct flag; cbn [andb negb]; [|auto].
    destruct (startswith (lit "APPROVAL:") line); cbn [negb]; [exact Hacc|].
    apply IH. apply Forall_app. split; [exact Hacc|].
    constructor; [|constructor].
    split; [discriminate|]. rewrite <- Es. apply strip_idem.
Qed.

Lemma improvements_loop_no_header (B : Backend) (lines : list str)
    (acc : list str) :
  (forall line, In line lines ->
                contains (lit "IMPROVEMENTS:") (upper B line) = false) ->
  QualityAssuranceAgent.improvements_loop B lines false acc = acc.
Proof.
  induction lines as [|line rest IH]; intros H;
    cbn [QualityAssuranceAgent.improvements_loop]; [reflexivity|].
  rewrite (H line (or_introl eq_refl)). cbn [andb].
  apply IH. intros l Hl. apply H. right. exact Hl.
Qed.

Lemma qa_dialogue_loop_lines (B : Backend) topic ag (s : Scene)
    (ds : list DialogueItem) acc :
  Spec (fun res => exists new,
            res = acc ++ new
            /\ map line_of_validation new
               = map (fun d => (scene_number s,
                                get_default (character d) [],
                                get_default (dialogue d) [])) ds)
    (QualityAssuranceAgent.dialogue_loop B topic ag s ds acc).
Proof.
  revert acc. induction ds as [|d ds IH]; intros acc.
  - apply spec_ret. exists []. rewrite app_nil_r. split; reflexivity.
  - cbn [QualityAssuranceAgent.dialogue_loop]. cbv zeta.
    eapply spec_bind; [apply spec_call|intros dialogue_analysis _].
    eapply spec_weaken; [apply IH|].
    intros res (new & -> & Hnew).
    eexists (_ :: new). rewrite <- app_assoc. split; [reflexivity|].
    cbn [map]. rewrite Hnew. reflexivity.
Qed.

Lemma qa_scene_loop_lines (B : Backend) topic ag (scenes : list Scene) acc :
  Spec (fun res => exists new,
            res = acc ++ new
            /\ map line_of_validation new = validated_lines scenes)
    (QualityAssuranceAgent.scene_loop B topic ag scenes acc).
Proof.
  revert acc. induction scenes as [|s scenes IH]; intros acc.
  - apply spec_ret. exists []. rewrite app_nil_r. split; reflexivity.
  - cbn [QualityAssuranceAgent.scene_loop]. cbv zeta.
    eapply spec_bind; [apply qa_dialogue_loop_lines|].
    intros sv (new1 & -> & H1).
    eapply spec_weaken; [apply IH|].
    intros res (new2 & -> & H2).
    exists (new1 ++ new2). rewrite <- app_assoc. split; [reflexivity|].
    unfold validated_lines in *. cbn [flat_map].
    rewrite map_app, H1, H2. reflexivity.
Qed.

Lemma qa_execute_ok (B : Backend) input g sn w res w' :
  QualityAssuranceAgent.execute B input g sn w = (res, w') ->
  forall r, res = Returned r -> success r = true -> qa_result_ok input r.
Proof.
  intros H. unfold QualityAssuranceAgent.execute in H.
  eapply (@agent_execute_post B _ (qa_result_ok input)) in H; [apply H|].
  intros st. cbv zeta.
  eapply spec_bind; [apply spec_call|intros quality_analysis _].
  eapply spec_bind; [apply qa_scene_loop_lines|].
  intros scene_validations (new & -> & Hnew).
  eapply spec_weaken; [apply spec_succeeded|].
  intros r [Hs Hd]. rewrite Hd.
  split; [exact Hs|]. split; [discriminate|].
  eexists. split; [exact Hd|].
  cbn [scene_validations total_scenes_validated validation_summary
       scenes_checked content_approved approval_status improvement_count
       improvements_needed app].
  split; [exact Hnew|]. split; [reflexivity|].
  split; [rewrite <- Hnew, length_map; reflexivity|].
  split; [reflexivity|]. split; [reflexivity|].
  split.
  - intros ->. reflexivity.
  - destruct (QualityAssuranceAgent._parse_approval_status B quality_analysis);
      cbn [negb]; [constructor|].
    apply improvements_loop_ok. constructor.
Qed.

(** X8. When the Quality Assurance Agent succeeds, its result holds one
    validation for every dialogue line of the scenes it was given, in the
    order of the script, with the number of the scene, the speaker and
    the text of the line; [total_scenes_validated] is the number of
    scenes, while [scenes_checked] is the number of dialogue lines; the
    list of improvements is empty when the content is approved, and
    otherwise holds stripped, non-empty lines only. *)
Theorem quality_result_covers_every_line (B : Backend) (input : InputData)
    (g sn : Z) (w : World) (r : AgentResult QAData) (w' : World) :
  QualityAssuranceAgent.execute B input g sn w = (Returned r, w') ->
  success r = true ->
  qa_result_ok input r.
Proof.
  intros Hrun Hs.
  eapply qa_execute_ok; [exact Hrun|reflexivity|exact Hs].
Qed.

(** A run of the quality agent on two scenes with three lines. *)
Lemma quality_result_covers_every_line_witness :
  exists r w',
    QualityAssuranceAgent.execute (sample_backend never image_ok)
      sample_visual_input 1 4 empty_world = (Returned r, w')
    /\ success r = true
    /\ qa_result_ok sample_visual_input r.
Proof.
  eexists _, _.
  split; [vm_compute; reflexivity|].
  split; [reflexivity|].
  eapply (quality_result_covers_every_line (sample_backend never image_ok)
            sample_visual_input 1 4 empty_world).
  - vm_compute. reflexivity.
  - reflexivity.
Defined.

(** X9. [_generate_improvements] reads the lines that follow a line with
    [IMPROVEMENTS:] up to a line that starts with [APPROVAL:]: every
    suggestion it returns is a stripped, non-empty text, and an analysis
    without such a header line gives no suggestion at all, whatever else
    it says. *)
Theorem improvements_need_a_header (B : Backend) (content analysis : str) :
  Forall improvement_ok
    (QualityAssuranceAgent._generate_improvements B content analysis)
  /\ ((forall line, In line (split_sep newline analysis) ->
                    contains (lit "IMPROVEMENTS:") (upper B line) = false) ->
      QualityAssuranceAgent._generate_improvements B content analysis = []).
Proof.
  unfold QualityAssuranceAgent._generate_improvements. split.
  - apply improvements_loop_ok. constructor.
  - apply improvements_loop_no_header.
Qed.

(** An analysis that rejects the content without a list of improvements. *)
Lemma improvements_need_a_header_witness :
  (forall line,
      In line (split_sep newline (lit "APPROVAL: NO")) ->
      contains (lit "IMPROVEMENTS:")
        (upper (sample_backend never image_ok) line) = false)
  /\ QualityAssuranceAgent._generate_improvements
       (sample_backend never image_ok) sample_script (lit "APPROVAL: NO")
     = [].
Proof.
  assert (H : forall line,
      In line (split_sep newline (lit "APPROVAL: NO")) ->
      contains (lit "IMPROVEMENTS:")
        (upper (sample_backend never image_ok) line) = false).
  { intros line [<-|[]]. reflexivity. }
  split; [exact H|].
  exact (proj2 (improvements_need_a_header (sample_backend never image_ok)
                  sample_script (lit "APPROVAL: NO")) H).
Defined.

Lemma spec_call_answer {A} (oracle : nat -> outcome A) :
  Spec (fun a => exists n, oracle n = Returned a) (call oracle).
Proof.
  intros w res w' [= <- <-]. split; [apply quiet_tick|].
  intros a Ha. exists (calls w). exact Ha.
Qed.

Lemma planning_execute_ok (B : Backend) input g sn w res w' :
  EducationalPlanningAgent.execute B input g sn w = (res, w') ->
  forall r, res = Returned r -> success r = true ->
            planning_result_ok B input r.
Proof.
  intros H. unfold EducationalPlanningAgent.execute in H.
  eapply (@agent_execute_post B _ (planning_result_ok B input)) in H;
    [apply H|].
  intros st. cbv zeta.
  eapply spec_bind; [apply spec_call|intros curriculum_content _].
  eapply (@spec_bind _ _
            (fun objs =>
               exists n response,
                 generate_text B n
                   (EducationalPlanningAgent.objectives_prompt (topic input)
                      (get_default (age_group input) (lit "child")))
                 = Returned response
                 /\ length objs = length (objective_lines response)
                 /\ Forall (fun o => strip o = o) objs)).
  { unfold EducationalPlanningAgent._generate_learning_objectives.
    eapply spec_bind; [apply spec_call_answer|intros response [n Hn]].
    apply spec_ret. exists n, response. split; [exact Hn|]. split.
    - apply length_map.
    - apply Forall_map, Forall_forall. intros line _. apply strip_idem. }
  intros learning_objectives (n & response & Hn & Hlen & Hstr).
  eapply spec_weaken; [apply spec_succeeded|].
  intros r [Hs Hd]. rewrite Hd.
  split; [exact Hs|]. split; [discriminate|].
  eexists _, n, response. split; [exact Hd|]. cbn.
  repeat split; assumption.
Qed.

(** One step of evaluation of the planning agent's code, up to the next
    answer of a service. *)
Ltac run_planning_agent :=
  cbv beta iota zeta delta
    [EducationalPlanningAgent.execute
     EducationalPlanningAgent._generate_learning_objectives
     EducationalPlanningAgent._analyze_curriculum_alignment
     bind emit now try_except call lift succeeded_result failed_result
     log_execution log_agent_execution effect ret tick set_agent_logs];
  cbn [calls stored_content agent_logs comic_generations pdfs
       generated_images_paths trace].

(** X10. When the Educational Planning Agent, entered with [n] service
    calls made before, succeeds: its first call, of number [n], has found
    the curriculum references, and its second call, of number [n + 1],
    is the prompt for the objectives, which the text service has
    answered; the learning objectives of the result are, in the order
    of that answer, its lines that start with a dash once stripped, each
    with the dashes and spaces at its ends removed and then stripped,
    one objective per such line, [objectives_count] being their number;
    and the curriculum alignment does not depend on the content: the
    score is 8.5, no gap is reported, and the aligned standards are the
    references found. *)
Theorem planning_result_counts_objectives (B : Backend) (input : InputData)
    (g sn : Z) (w : World) (r : AgentResult PlanningData) (w' : World) :
  EducationalPlanningAgent.execute B input g sn w = (Returned r, w') ->
  success r = true ->
  exists refs response pd,
    search_similar_content B (calls w)
      (Some (fmt_opt (topic input) ++ lit " curriculum "
             ++ get_default (age_group input) (lit "child")))
      (Some (lit "curriculum")) 3 = Returned refs
    /\ generate_text B (S (calls w))
         (EducationalPlanningAgent.objectives_prompt (topic input)
            (get_default (age_group input) (lit "child")))
       = Returned response
    /\ data r = Some pd
    /\ learning_objectives pd
       = map (fun line =>
                strip (strip_by EducationalPlanningAgent.is_dash_or_space
                         line))
           (objective_lines response)
    /\ Forall (fun o => strip o = o) (learning_objectives pd)
    /\ objectives_count (pd_educational_planning pd)
       = length (objective_lines response)
    /\ score (curriculum_alignment pd) = 85 # 10
    /\ alignment_score (pd_educational_planning pd) = 85 # 10
    /\ aligned_standards (curriculum_alignment pd) = length refs
    /\ curriculum_references pd = length refs
    /\ gaps (curriculum_alignment pd) = [].
Proof.
  intros Hrun Hs. revert Hrun. run_planning_agent.
  destruct (search_similar_content B (calls w) _ _ 3) as [refs|e1] eqn:E1;
    run_planning_agent.
  - destruct (generate_text B (S (calls w)) _) as [response|e2] eqn:E2;
      run_planning_agent.
    + destruct (db_fault B (S (S (calls w)))); intros [= <- <-].
      exists refs, response. eexists.
      split; [reflexivity|]. split; [reflexivity|].
      split; [reflexivity|].
      cbn [learning_objectives pd_educational_planning objectives_count
           curriculum_alignment score alignment_score aligned_standards
           curriculum_references gaps].
      split; [reflexivity|].
      split.
      { apply Forall_map, Forall_forall. intros line _. apply strip_idem. }
      split; [apply length_map|].
      repeat split.
    + destruct (db_fault B (S (S (calls w)))); intros [= <- <-].
      discriminate Hs.
  - destruct (db_fault B (S (calls w))); intros [= <- <-].
    discriminate Hs.
Qed.

(** A run of the planning agent with one objective in the answer. *)
Lemma planning_result_counts_objectives_witness :
  exists r w',
    EducationalPlanningAgent.execute (sample_backend never image_ok)
      sample_visual_input 1 2 empty_world = (Returned r, w')
    /\ success r = true
    /\ option_map learning_objectives (data r)
       = Some [lit "name the planets"]
    /\ exists refs response pd,
         search_similar_content (sample_backend never image_ok)
           (calls empty_world)
           (Some (fmt_opt (topic sample_visual_input) ++ lit " curriculum "
                  ++ get_default (age_group sample_visual_input)
                       (lit "child")))
           (Some (lit "curriculum")) 3 = Returned refs
         /\ generate_text (sample_backend never image_ok)
              (S (calls empty_world))
              (EducationalPlanningAgent.objectives_prompt
                 (topic sample_visual_input)
                 (get_default (age_group sample_visual_input)
                    (lit "child")))
            = Returned response
         /\ data r = Some pd
         /\ learning_objectives pd
            = map (fun line =>
                     strip
                       (strip_by EducationalPlanningAgent.is_dash_or_space
                          line))
                (objective_lines response)
         /\ Forall (fun o => strip o = o) (learning_objectives pd)
         /\ objectives_count (pd_educational_planning pd)
            = length (objective_lines response)
         /\ score (curriculum_alignment pd) = 85 # 10
         /\ alignment_score (pd_educational_planning pd) = 85 # 10
         /\ aligned_standards (curriculum_alignment pd) = length refs
         /\ curriculum_references pd = length refs
         /\ gaps (curriculum_alignment pd) = [].
Proof.
  eexists _, _.
  split; [vm_compute; reflexivity|].
  split; [reflexivity|].
  split; [reflexivity|].
  eapply (planning_result_counts_objectives (sample_backend never image_ok)
            sample_visual_input 1 2 empty_world).
  - vm_compute. reflexivity.
  - reflexivity.
Defined.

Lemma content_execute_ok (B : Backend) input g sn w res w' :
  ContentIntelligenceAgent.execute B input g sn w = (res, w') ->
  forall r, res = Returned r -> success r = true -> content_result_ok r.
Proof.
  intros H. unfold ContentIntelligenceAgent.execute in H.
  eapply (@agent_execute_post B _ content_result_ok) in H; [apply H|].
  intros st. cbv zeta.
  eapply spec_bind; [apply spec_call|intros similar_content _].
  eapply spec_bind; [apply spec_call|intros successful_patterns _].
  eapply spec_bind; [apply spec_call|intros educational_content _].
  eapply spec_bind; [apply spec_call|intros characters _].
  eapply (@spec_bind _ _
            (fun scenes =>
               _parse_educational_content educational_content
               = Returned scenes)).
  { apply spec_lift. intros a Ha. exact Ha. }
  intros scenes Hparse.
  eapply spec_bind; [apply spec_succeeded|intros result [Hs Hd]].
  eapply spec_bind; [apply spec_store|intros _ _].
  apply spec_ret. rewrite Hd.
  split; [exact Hs|]. split; [discriminate|].
  eexists. split; [exact Hd|]. cbn.
  repeat split. exact Hparse.
Qed.

(* ===================================================================== *)
(** ** The table of generation records *)
(* ===================================================================== *)

Lemma update_rows_ids g st op gt (rows : list GenerationRecord) :
  map gr_id (map (update_row g st op gt) rows) = map gr_id rows.
Proof.
  rewrite map_map. apply map_ext. intros r. apply update_row_id.
Qed.

Lemma update_rows_others g st op gt (rows : list GenerationRecord) :
  filter (fun r => negb (gr_id r =? g)) (map (update_row g st op gt) rows)
  = filter (fun r => negb (gr_id r =? g)) rows.
Proof.
  induction rows as [|r rows IH]; [reflexivity|].
  cbn [map filter]. rewrite update_row_id, IH.
  unfold update_row. destruct (gr_id r =? g); reflexivity.
Qed.

Lemma update_rows_status g st op gt (rows : list GenerationRecord) :
  map gr_status
    (filter (fun r => gr_id r =? g) (map (update_row g st op gt) rows))
  = map (fun _ => st) (filter (fun r => gr_id r =? g) rows).
Proof.
  induction rows as [|r rows IH]; [reflexivity|].
  cbn [map filter]. rewrite update_row_id.
  destruct (gr_id r =? g) eqn:E; [|exact IH].
  cbn [map]. rewrite IH. unfold update_row. rewrite E. reflexivity.
Qed.

Lemma update_rows_unknown g st op gt (rows : list GenerationRecord) :
  ~ In g (map gr_id rows) -> map (update_row g st op gt) rows = rows.
Proof.
  induction rows as [|r rows IH]; [reflexivity|].
  cbn [map In]. intros H.
  rewrite IH by tauto. unfold update_row.
  destruct (Z.eqb_spec (gr_id r) g) as [E|_]; [tauto|reflexivity].
Qed.

Lemma update_rows_time g st op gt (rows : list GenerationRecord) :
  gt = None \/ gt = Some 0 ->
  map gr_generation_time_seconds (map (update_row g st op gt) rows)
  = map gr_generation_time_seconds rows.
Proof.
  intros H. rewrite map_map. apply map_ext. intros r.
  unfold update_row. destruct (gr_id r =? g); [|reflexivity].
  destruct H as [-> | ->]; reflexivity.
Qed.

Lemma update_rows_path g st op gt (rows : list GenerationRecord) :
  op = None \/ op = Some [] ->
  map gr_output_path (map (update_row g st op gt) rows)
  = map gr_output_path rows.
Proof.
  intros H. rewrite map_map. apply map_ext. intros r.
  unfold update_row. destruct (gr_id r =? g); [|reflexivity].
  destruct H as [-> | ->]; reflexivity.
Qed.

(** X11. [update_comic_generation_status] changes the rows with the given
    id and no other: the ids and the number of rows stay as they are,
    the rows with another id are untouched, every row with the id gets
    the status, and an id no row has is a silent no-op.  A generation
    time of 0 seconds and an empty output path are not stored, the
    columns keep their old values; and when the statement raises, the
    table is as it was. *)
Theorem update_status_touches_one_id (B : Backend) (g : Z) (st : str)
    (op : option str) (gt : option Z) (w : World) res w' :
  update_comic_generation_status B g st op gt w = (res, w') ->
  match res with
  | Returned _ =>
      map gr_id (comic_generations w') = map gr_id (comic_generations w)
      /\ filter (fun r => negb (gr_id r =? g)) (comic_generations w')
         = filter (fun r => negb (gr_id r =? g)) (comic_generations w)
      /\ status_of g w' = map (fun _ => st) (status_of g w)
      /\ (~ In g (map gr_id (comic_generations w)) ->
          comic_generations w' = comic_generations w)
      /\ (gt = None \/ gt = Some 0 ->
          map gr_generation_time_seconds (comic_generations w')
          = map gr_generation_time_seconds (comic_generations w))
      /\ (op = None \/ op = Some [] ->
          map gr_output_path (comic_generations w')
          = map gr_output_path (comic_generations w))
  | Raised e =>
      db_fault B (calls w) = Some e
      /\ comic_generations w' = comic_generations w
  end.
Proof.
  unfold update_comic_generation_status, effect.
  destruct (db_fault B (calls w)) as [e|]; intros [= <- <-].
  - split; reflexivity.
  - unfold status_of.
    cbn [tick set_comic_generations comic_generations].
    split; [apply update_rows_ids|].
    split; [apply update_rows_others|].
    split; [rewrite map_map; apply update_rows_status|].
    split; [apply update_rows_unknown|].
    split; [apply update_rows_time|apply update_rows_path].
Qed.

(** A run that took less than a second is marked completed in a table
    with one row, for an id that is there and with a time that is not
    stored. *)
Lemma update_status_touches_one_id_witness :
  exists w',
    update_comic_generation_status (sample_backend never image_ok) 1
      (lit "completed") None (Some 0)
      (set_comic_generations [new_generation sample_request empty_world]
         empty_world)
    = (Returned tt, w')
    /\ status_of 1 w' = [lit "completed"]
    /\ map gr_generation_time_seconds (comic_generations w') = [None].
Proof.
  eexists. split; [vm_compute; reflexivity|].
  assert (H : forall B g st op gt w res w1,
             update_comic_generation_status B g st op gt w = (res, w1) ->
             forall u, res = Returned u ->
             status_of g w1 = map (fun _ => st) (status_of g w)
             /\ (gt = None \/ gt = Some 0 ->
                 map gr_generation_time_seconds (comic_generations w1)
                 = map gr_generation_time_seconds (comic_generations w))).
  { intros B g st op gt w res w1 Hrun u ->.
    pose proof (update_status_touches_one_id _ _ _ _ _ _ Hrun)
      as (_ & _ & Hst & _ & Ht & _).
    split; assumption. }
  edestruct (H (sample_backend never image_ok) 1 (lit "completed") None
               (Some 0)
               (set_comic_generations
                  [new_generation sample_request empty_world] empty_world))
    as [Hst Ht]; [vm_compute; reflexivity|reflexivity|].
  split; [exact Hst|].
  exact (Ht (or_intror eq_refl)).
Defined.

(* ===================================================================== *)
(** ** More on the runs of the orchestrator *)
(* ===================================================================== *)

Lemma rows_below_not_updated g st op gt (rows : list GenerationRecord) :
  Forall (fun r => gr_id r < g) rows ->
  map (update_row g st op gt) rows = rows.
Proof.
  intros H. apply update_rows_unknown.
  intros Hin. apply in_map_iff in Hin. destruct Hin as (r & Hr & Hin).
  rewrite Forall_forall in H. specialize (H r Hin). lia.
Qed.

Lemma status_of_others (g : Z) (w0 w' : World) (row : GenerationRecord) :
  gr_id row <> g ->
  comic_generations w' = comic_generations w0 ++ [row] ->
  status_of g w' = status_of g w0.
Proof.
  intros Hne E. unfold status_of. rewrite E, filter_app, map_app.
  cbn [filter].
  destruct (Z.eqb_spec (gr_id row) g); [contradiction|].
  cbn [map]. apply app_nil_r.
Qed.

Lemma workflow_rows (B : Backend) (u : InputData) (w0 : World) res w' :
  WorkflowPost B u w0 res w' ->
  comic_generations w' = comic_generations w0
  \/ exists row,
       gr_id row = workflow_id w0
       /\ comic_generations w' = comic_generations w0 ++ [row].
Proof.
  intros H.
  destruct H as [e w' (Q1 & _) _|wr t logs w' _ _ Hcg _ _ _
                |wr msg n logs w' _ _ Hcg _ _ _ _|e n logs w' _ _ Hcg _].
  - left. exact Q1.
  - right. eexists. split; [|rewrite Hcg, map_app;
      rewrite rows_below_not_updated by apply next_id_above; reflexivity].
    rewrite update_row_id. reflexivity.
  - right. eexists. split; [|rewrite Hcg, map_app;
      rewrite rows_below_not_updated by apply next_id_above; reflexivity].
    rewrite update_row_id. reflexivity.
  - right. exists (new_generation u w0). split; [reflexivity|exact Hcg].
Qed.

(** X12. A run of [execute_workflow], however it ends, leaves every
    generation record that was there as it was and in its place, adds at
    most one record, under the id of the run, which no earlier record
    has, and so changes the status of no other run; it writes no
    document and no image slot. *)
Theorem workflow_touches_only_its_row (B : Backend) (u : InputData)
    (cb : option Callback) (w0 : World) res w' :
  MultiStepAgentOrchestrator.execute_workflow B u cb w0 = (res, w') ->
  firstn (length (comic_generations w0)) (comic_generations w')
  = comic_generations w0
  /\ (length (comic_generations w') <= S (length (comic_generations w0)))%nat
  /\ Forall (fun r => gr_id r < workflow_id w0) (comic_generations w0)
  /\ Forall (fun r => gr_id r = workflow_id w0)
       (skipn (length (comic_generations w0)) (comic_generations w'))
  /\ (forall g, g <> workflow_id w0 -> status_of g w' = status_of g w0)
  /\ pdfs w' = pdfs w0
  /\ generated_images_paths w' = generated_images_paths w0.
Proof.
  intros Hrun.
  pose proof (@fixed_execute_workflow B u cb _ _ _ Hrun) as [F1 F2].
  apply execute_workflow_post in Hrun. apply workflow_rows in Hrun.
  split; [|split; [|split; [apply next_id_above|split; [|split; [|split]]]]];
    try assumption.
  - destruct Hrun as [->|(row & _ & ->)].
    + apply firstn_all.
    + rewrite firstn_app, firstn_all, Nat.sub_diag. cbn. apply app_nil_r.
  - destruct Hrun as [->|(row & _ & ->)]; [lia|].
    rewrite length_app. cbn. lia.
  - destruct Hrun as [->|(row & Hid & ->)].
    + rewrite skipn_all. constructor.
    + rewrite skipn_app_exact. constructor; [exact Hid|constructor].
  - intros g Hg. destruct Hrun as [E|(row & Hid & E)].
    + unfold status_of. rewrite E. reflexivity.
    + eapply status_of_others; [|exact E]. congruence.
Qed.

(** A run in a table that holds the record of an earlier run. *)
Lemma workflow_touches_only_its_row_witness :
  exists res w',
    MultiStepAgentOrchestrator.execute_workflow
      (sample_backend never image_ok) sample_request None
      (set_comic_generations [new_generation sample_request empty_world]
         empty_world) = (res, w')
    /\ firstn 1 (comic_generations w')
       = [new_generation sample_request empty_world]
    /\ (length (comic_generations w') <= 2)%nat
    /\ Forall (fun r => gr_id r < 2)
         [new_generation sample_request empty_world]
    /\ Forall (fun r => gr_id r = 2) (skipn 1 (comic_generations w'))
    /\ (forall g, g <> 2 ->
                  status_of g w'
                  = status_of g
                      (set_comic_generations
                         [new_generation sample_request empty_world]
                         empty_world))
    /\ pdfs w' = []
    /\ generated_images_paths w' = [].
Proof.
  eexists _, _.
  split; [vm_compute; reflexivity|].
  eapply (workflow_touches_only_its_row
            (sample_backend never image_ok) sample_request None
            (set_comic_generations
               [new_generation sample_request empty_world] empty_world)).
  vm_compute. reflexivity.
Defined.

(** X13. [execute_workflow] raises only what a write to the datastore
    raised; the exceptions of the agents, of the text service and of the
    progress callback never leave it.  When it raises, either the insert
    of the generation record raised, and then nothing was written and no
    agent was entered; or the record is there and the write of its
    status [failed] raised, and then the record stays in the status
    [processing]. *)
Theorem workflow_raises_only_write_errors (B : Backend) (u : InputData)
    (cb : option Callback) (w0 : World) (e : exn) (w' : World) :
  MultiStepAgentOrchestrator.execute_workflow B u cb w0 = (Raised e, w') ->
  db_fault B (pred (calls w')) = Some e
  /\ ((comic_generations w' = comic_generations w0
       /\ new_logs w0 w' = []
       /\ new_events w0 w' = [])
      \/ (comic_generations w'
          = comic_generations w0 ++ [new_generation u w0]
          /\ status_of (workflow_id w0) w' = [lit "processing"])).
Proof.
  intros Hrun. apply execute_workflow_post in Hrun.
  inversion Hrun as [e' w'' Hq Hf| | |e' n logs w'' P S Hcg Hf]; subst.
  - split; [exact Hf|]. left.
    split; [apply Hq|]. split; [apply new_logs_quiet; exact Hq|].
    destruct Hq as (_ & _ & _ & _ & Ht).
    unfold new_events. rewrite Ht. apply skipn_all.
  - split; [exact Hf|]. right.
    split; [exact Hcg|]. eapply status_unchanged. exact Hcg.
Qed.

(** The datastore is down from the start: the insert raises. *)
Lemma workflow_raises_only_write_errors_witness :
  exists w',
    MultiStepAgentOrchestrator.execute_workflow
      (sample_backend always image_ok) sample_request None empty_world
    = (Raised (lit "connection lost"), w')
    /\ db_fault (sample_backend always image_ok) (pred (calls w'))
       = Some (lit "connection lost")
    /\ ((comic_generations w' = comic_generations empty_world
         /\ new_logs empty_world w' = []
         /\ new_events empty_world w' = [])
        \/ (comic_generations w'
            = comic_generations empty_world
              ++ [new_generation sample_request empty_world]
            /\ status_of (workflow_id empty_world) w'
               = [lit "processing"])).
Proof.
  eexists. split; [vm_compute; reflexivity|].
  eapply (workflow_raises_only_write_errors
            (sample_backend always image_ok) sample_request None
            empty_world).
  vm_compute. reflexivity.
Defined.

(* ===================================================================== *)
(** ** The mapping a completed run returns *)
(* ===================================================================== *)

Lemma workflow_failed_has_error (B : Backend) g t0 wr0 e w wr w' :
  MultiStepAgentOrchestrator.workflow_failed B g t0 wr0 e w
  = (Returned wr, w') ->
  error wr = Some e.
Proof.
  unfold MultiStepAgentOrchestrator.workflow_failed,
    update_comic_generation_status, bind, effect, now, ret.
  destruct (db_fault B (calls w)); intros [= <- <-]. reflexivity.
Qed.

(** A statement of the [try] block in a run that ends without error. *)
Ltac completed_step H Herr a w2 Hc :=
  let e := fresh "e" in
  apply guarded_cases in H;
  destruct H as [(a & w2 & Hc & H)|(e & w2 & Hc & H)];
  [|apply workflow_failed_has_error in H; congruence].

Ltac completed_test H Herr r Hs :=
  destruct (success r) eqn:Hs; cbn [negb] in H;
  [|apply workflow_failed_has_error in H; congruence].

Lemma completed_run_steps (B : Backend) (u : InputData)
    (cb : option Callback) (w0 : World) wr w' :
  MultiStepAgentOrchestrator.execute_workflow B u cb w0 = (Returned wr, w') ->
  error wr = None ->
  exists g r1 r2 r3 r4 cd qd wa wa' wb wb' wc wc' wd wd',
    ContentIntelligenceAgent.execute B u g 1 wa = (Returned r1, wa')
    /\ success r1 = true /\ data r1 = Some cd
    /\ EducationalPlanningAgent.execute B (merge_content u cd) g 2 wb
       = (Returned r2, wb')
    /\ success r2 = true
    /\ VisualGenerationAgent.execute B (merge_content u cd) g 3 wc
       = (Returned r3, wc')
    /\ success r3 = true
    /\ QualityAssuranceAgent.execute B (merge_content u cd) g 4 wd
       = (Returned r4, wd')
    /\ success r4 = true /\ data r4 = Some qd
    /\ content_intelligence wr = Some (Some cd)
    /\ educational_planning wr = Some (data r2)
    /\ visual_generation wr = Some (data r3)
    /\ quality_assurance wr = Some (Some qd)
    /\ quality_warning wr
       = (if approval_status qd then None
          else Some (improvements_needed qd))
    /\ option_map steps_completed (execution_summary wr) = Some (Some 4)
    /\ option_map agents_executed (execution_summary wr)
       = Some (Some 4%nat).
Proof.
  unfold MultiStepAgentOrchestrator.execute_workflow.
  unfold bind at 1. unfold log_comic_generation, effect.
  destruct (db_fault B (calls w0)) as [e0|]; [discriminate|].
  set (g := next_id (comic_generations w0)).
  set (w1 := tick _). clearbody w1 g.
  unfold bind at 1. unfold now at 1.
  set (t0 := time_ms B (calls w1)). clearbody t0.
  intros H Herr.
  completed_step H Herr x1 w2 Hn1.
  completed_step H Herr r1 w3 Hrun1.
  completed_test H Herr r1 Hs1.
  completed_step H Herr x2 w4 Hn2.
  destruct (data r1) as [cd|] eqn:Hd1;
    [|apply workflow_failed_has_error in H; congruence].
  completed_step H Herr r2 w5 Hrun2.
  completed_test H Herr r2 Hs2.
  completed_step H Herr x3 w6 Hn3.
  completed_step H Herr r3 w7 Hrun3.
  completed_test H Herr r3 Hs3.
  completed_step H Herr x4 w8 Hn4.
  completed_step H Herr r4 w9 Hrun4.
  completed_test H Herr r4 Hs4.
  destruct (data r4) as [qd|] eqn:Hd4;
    [|apply workflow_failed_has_error in H; congruence].
  completed_step H Herr x5 w10 Hn5.
  completed_step H Herr x6 w11 Hn6.
  completed_step H Herr t w12 Hnow.
  completed_step H Herr x7 w13 Hup.
  injection H as <- <-.
  exists g, r1, r2, r3, r4, cd, qd, w2, w3, w4, w5, w6, w7, w8, w9.
  cbn. rewrite Hd1, Hd4.
  repeat (split; [first [assumption|reflexivity]|]).
  split; [destruct (approval_status qd); reflexivity|].
  split; reflexivity.
Qed.

(** X14. The mapping of a run of [execute_workflow] that ends without
    error holds the data of all four agents, and these fit together: the
    scenes are those the parser reads from the generated script, numbered
    from 1 without gap, each dialogue line with its speaker and text; the
    visual prompts are one poster prompt followed by one prompt for every
    dialogue line of these scenes, in their order; the quality agent has
    validated exactly these lines; the key [quality_warning] is there,
    with the improvements, exactly when the content was not approved,
    which does not keep the run from completing; and the summary counts
    4 steps and 4 agents. *)
Theorem completed_run_results_fit (B : Backend) (u : InputData)
    (cb : option Callback) (w0 : World) wr w' :
  MultiStepAgentOrchestrator.execute_workflow B u cb w0 = (Returned wr, w') ->
  error wr = None ->
  completed_results_ok wr.
Proof.
  intros Hrun Herr.
  destruct (@completed_run_steps _ _ _ _ _ _ Hrun Herr)
    as (g & r1 & r2 & r3 & r4 & cd & qd & wa & wa' & wb & wb' & wc & wc'
        & wd & wd' & Hrun1 & Hs1 & Hd1 & Hrun2 & Hs2 & Hrun3 & Hs3 & Hrun4
        & Hs4 & Hd4 & Hc & Hp & Hv & Hq & Hw & Hsteps & Hagents).
  destruct (@content_execute_ok _ _ _ _ _ _ _ Hrun1 _ eq_refl Hs1)
    as (cd' & Hcd' & Hparse & _).
  assert (cd' = cd) as -> by congruence.
  destruct (@planning_execute_ok _ _ _ _ _ _ _ Hrun2 _ eq_refl Hs2)
    as (pd & _ & _ & Hpd & _).
  destruct (@visual_execute_post _ _ _ _ _ _ _ Hrun3) as [_ Hok3].
  destruct (Hok3 r3 eq_refl Hs3)
    as (vd & poster & rest & Hvd & Hvps & Hposter & _ & Hlines & _).
  destruct (@qa_execute_ok _ _ _ _ _ _ _ Hrun4 _ eq_refl Hs4)
    as (qd' & Hqd' & Hval & _).
  assert (qd' = qd) as -> by congruence.
  cbn [merge_content scenes get_default] in Hlines, Hval.
  destruct (parse_numbered (cd_educational_content cd))
    as (scenes & Hparse' & Hlen & Hnum).
  assert (scenes = cd_scenes cd) as -> by congruence.
  exists cd, pd, vd, qd, poster, rest.
  rewrite Hp, Hv, Hpd, Hvd.
  repeat (split; [first [assumption|reflexivity]|]).
  split; [rewrite Hlen; exact Hnum|].
  split; [exact (parse_scenes_ok _ Hparse)|].
  repeat (split; [first [assumption|reflexivity]|]).
  assumption.
Qed.

(** A run in which every service answers. *)
Lemma completed_run_results_fit_witness :
  exists wr w',
    MultiStepAgentOrchestrator.execute_workflow
      (sample_backend never image_ok) sample_request None empty_world
    = (Returned wr, w')
    /\ error wr = None
    /\ completed_results_ok wr.
Proof.
  eexists _, _.
  split; [vm_compute; reflexivity|].
  split; [reflexivity|].
  eapply (completed_run_results_fit (sample_backend never image_ok)
            sample_request None empty_world).
  - vm_compute. reflexivity.
  - reflexivity.
Defined.

(** X15. A progress callback that raises ends the run.  When the callback
    raises [e] at the first progress message and the datastore takes the
    two writes, [execute_workflow] returns a mapping with the error [e]
    and the status [failed], the generation record is marked [failed],
    and no agent is entered and no log entry written: the failure of the
    caller's callback is treated like the failure of an agent. *)
Theorem raising_callback_fails_run (B : Backend) (u : InputData)
    (cb : Callback) (w0 : World) (e : exn) :
  db_fault B (calls w0) = None ->
  cb (S (calls w0)) (lit "Step 1/5: Analyzing educational content...")
  = Some e ->
  db_fault B (S (S (calls w0))) = None ->
  exists wr w',
    MultiStepAgentOrchestrator.execute_workflow B u (Some cb) w0
    = (Returned wr, w')
    /\ error wr = Some e
    /\ option_map status (execution_summary wr) = Some (lit "failed")
    /\ status_of (generation_id wr) w' = [lit "failed"]
    /\ agent_steps (new_events w0 w') = []
    /\ new_logs w0 w' = [].
Proof.
  intros H0 Hcb H2.
  unfold MultiStepAgentOrchestrator.execute_workflow.
  unfold bind at 1. unfold log_comic_generation, effect. rewrite H0.
  unfold bind at 1. unfold now at 1.
  unfold MultiStepAgentOrchestrator.guarded at 1.
  cbn [notify]. unfold invoke, bind, emit, effect.
  cbn [calls tick set_comic_generations]. rewrite Hcb.
  unfold MultiStepAgentOrchestrator.workflow_failed,
    update_comic_generation_status, bind, effect, now, ret.
  cbn [calls tick set_comic_generations]. rewrite H2.
  eexists _, _. split; [reflexivity|].
  cbn [error execution_summary option_map status generation_id].
  split; [reflexivity|]. split; [reflexivity|].
  split.
  - eapply status_after_update. cbn [comic_generations tick
      set_comic_generations]. reflexivity.
  - unfold new_events, new_logs.
    cbn [trace agent_logs tick set_comic_generations].
    rewrite skipn_app_exact, skipn_all. split; reflexivity.
Qed.

(** The callback raises whenever it is called. *)
Lemma raising_callback_fails_run_witness :
  exists wr w',
    MultiStepAgentOrchestrator.execute_workflow
      (sample_backend never image_ok) sample_request
      (Some (fun _ _ => Some (lit "client gone"))) empty_world
    = (Returned wr, w')
    /\ error wr = Some (lit "client gone")
    /\ option_map status (execution_summary wr) = Some (lit "failed")
    /\ status_of (generation_id wr) w' = [lit "failed"]
    /\ agent_steps (new_events empty_world w') = []
    /\ new_logs empty_world w' = [].
Proof.
  exact (raising_callback_fails_run (sample_backend never image_ok)
           sample_request (fun _ _ => Some (lit "client gone")) empty_world
           eq_refl eq_refl eq_refl).
Defined.

(* ===================================================================== *)
(** ** More on the rendering driver *)
(* ===================================================================== *)

Lemma start_failed_result (self : Driver) (e : exn) w res w' :
  start_failed self e w = (res, w') ->
  match res with
  | Returned r => r = ErrorText (lit "Error: " ++ e)
  | Raised e' =>
      exists cb n text, update_state self = Some cb /\ cb n text = Some e'
  end.
Proof.
  unfold start_failed, printer, notify.
  destruct (update_state self) as [cb|].
  - unfold invoke, bind, emit, effect, ret. cbn [calls].
    destruct (cb (calls w) _) as [e'|] eqn:Ecb; intros [= <- <-].
    + exists cb. eauto.
    + reflexivity.
  - unfold bind, ret. intros [= <- <-]. reflexivity.
Qed.

Lemma overlay_keeps_slots (B : Backend) (image_path text image_name : str)
    w res w' :
  add_text_to_image B image_path text image_name w = (res, w') ->
  generated_images_paths w' = generated_images_paths w.
Proof.
  unfold add_text_to_image, try_except, bind, effect, emit, raise.
  destruct (overlay_fault B (calls w)); intros [= <- <-]; reflexivity.
Qed.

Lemma dict_get_set {V} (k : Z) (v : V) (d : list (Z * V)) :
  dict_get k (dict_set k v d) = Some v.
Proof.
  induction d as [|[k' v'] d IH]; cbn [dict_set dict_get].
  - rewrite Z.eqb_refl. reflexivity.
  - destruct (k' =? k) eqn:E; cbn [dict_get].
    + rewrite Z.eqb_refl. reflexivity.
    + rewrite E. exact IH.
Qed.

(** The assembly returns the pages of the document it has written. *)
Lemma assemble_returns (B : Backend) (self : Driver) (wr : WorkflowResults)
    (t0 : Z) (out : str) w r w' :
  assemble B self wr t0 out w = (Returned r, w') ->
  exists ps,
    r = Images ps
    /\ ps <> []
    /\ ps = surviving_paths (generated_images_paths w')
    /\ pdfs w' = pdfs w ++ [(out, ps)].
Proof.
  unfold assemble. intros H.
  destruct (bind_cases _ _ _ H) as [([] & w1 & Ep & Ek)|(e & Ep & [=])].
  destruct (printer_fixed self _ _ Ep) as [G1 P1].
  rewrite <- P1. clear H Ep G1 P1 w.
  revert Ek. unfold assemble_images.
  destruct (surviving_paths (generated_images_paths w1)) as [|p ps] eqn:Es;
    [intros [=]|].
  unfold convert_images_to_pdf, bind, try_except, effect, raise.
  destruct (pdf_fault B (calls w1)) as [e|]; [intros [=]|].
  set (w2 := tick (set_pdfs (pdfs w1 ++ [(out, p :: ps)]) w1)).
  assert (G2 : generated_images_paths w2 = generated_images_paths w1)
    by reflexivity.
  assert (P2 : pdfs w2 = pdfs w1 ++ [(out, p :: ps)]) by reflexivity.
  clearbody w2.
  destruct (printer self (check_mark ++ lit " Comic Generated Successfully!")
              w2) as [[[]|e] w3] eqn:E3; [|intros [=]].
  destruct (printer_fixed self _ _ E3) as [G3 P3].
  assert (Hend : forall w4,
             generated_images_paths w4 = generated_images_paths w3 ->
             pdfs w4 = pdfs w3 ->
             exists ps0,
               Images (p :: ps) = Images ps0
               /\ ps0 <> []
               /\ ps0 = surviving_paths (generated_images_paths w4)
               /\ pdfs w4 = pdfs w1 ++ [(out, ps0)]).
  { intros w4 G4 P4. exists (p :: ps).
    split; [reflexivity|]. split; [discriminate|].
    split; congruence. }
  destruct (generation_id wr =? 0).
  - unfold ret. intros [= <- <-]. apply Hend; reflexivity.
  - unfold now, update_comic_generation_status, effect, bind, ret.
    destruct (db_fault B (calls w3)); intros [= <- <-].
    apply Hend; reflexivity.
Qed.

(** How the [try] block of [start] ends, and what [start] makes of it. *)
Lemma start_cases (B : Backend) (sched : Scheduler) (self : Driver)
    (user_input customisation : str) (cfg step : Z) (output_path : str)
    (w : World) res w' :
  start B sched self user_input customisation cfg step output_path w
  = (res, w') ->
  exists res0 wb,
    RenderingReached B sched self customisation cfg step output_path w
      res0 wb
    /\ match res0 with
       | Returned r => res = Returned r /\ w' = wb
       | Raised e => start_failed self e wb = (res, w')
       end.
Proof.
  unfold start. intros H.
  match type of H with
  | try_except ?body _ _ = _ => set (block := body) in H
  end.
  apply try_except_cases in H.
  assert (Hbody : forall res0 wb,
             block w = (res0, wb) ->
             RenderingReached B sched self customisation cfg step output_path
               w res0 wb).
  { intros res0 wb. subst block.
    apply reach_bind; [apply fixed_now| |split; reflexivity].
    intros t0 w1 F1.
    apply reach_bind; [apply fixed_printer| |exact F1].
    intros _ w2 F2.
    apply reach_bind; [apply fixed_execute_workflow| |exact F2].
    intros wr w3 F3.
    destruct (error wr) as [e|]; [apply reach_raise; exact F3|].
    apply reach_bind; [apply fixed_printer| |exact F3].
    intros _ w4 F4.
    apply reach_bind; [apply fixed_key| |exact F4].
    intros scenes w5 F5.
    apply reach_bind; [apply fixed_key| |exact F5].
    intros vps w6 F6.
    apply reach_bind; [apply fixed_key| |exact F6].
    intros approved w7 F7.
    apply reach_bind;
      [destruct (negb approved); [apply fixed_printer|apply fixed_ret]|
      |exact F7].
    intros _ w8 F8.
    apply reach_bind; [apply fixed_printer| |exact F8].
    intros _ w9 F9 Hphases.
    right. exists wr, t0, scenes, vps, w9. split; [exact F9|exact Hphases]. }
  destruct H as [(r & Eb & ->)|(e & wb & Eb & Hh)].
  - exists (Returned r), w'. split; [apply Hbody; exact Eb|].
    split; reflexivity.
  - exists (Raised e), wb. split; [apply Hbody; exact Eb|exact Hh].
Qed.

(** X16. What [start] returns.  When it returns the list of image paths,
    the list is not empty, it is the list of the surviving paths of the
    image slots in the order of their keys, and [start] has written
    exactly one document, at the output path, with exactly these pages.
    Anything else it returns is a text that starts with [Error: ]. *)
Theorem start_returns_the_pages_written (B : Backend) (sched : Scheduler)
    (self : Driver) (user_input customisation : str) (cfg step : Z)
    (output_path : str) (w : World) (r : StartResult) (w' : World) :
  start B sched self user_input customisation cfg step output_path w
  = (Returned r, w') ->
  match r with
  | Images ps =>
      ps <> []
      /\ ps = surviving_paths (generated_images_paths w')
      /\ pdfs w' = pdfs w ++ [(output_path, ps)]
  | ErrorText text => exists e, text = lit "Error: " ++ e
  end.
Proof.
  intros H. apply start_cases in H.
  destruct H as ([r0|e] & wb & Hreach & Hres).
  - destruct Hres as [[= <-] ->].
    destruct Hreach as [(e & [=] & _)
                       |(wr & t0 & scenes & vps & w1 & [_ F] & Hp)].
    destruct (bind_cases _ _ _ Hp) as [([] & w2 & E1 & Hrest)|(e & _ & [=])].
    destruct (bind_cases _ _ _ Hrest) as [([] & w3 & E2 & E3)|(e & _ & [=])].
    pose proof (@within_generate_poster B self [0] vps cfg step
                  (or_introl eq_refl) _ _ _ E1) as (P1 & _).
    pose proof (@within_generate_scenes B self sched scenes vps
                  customisation cfg step _ _ _ E2) as (P2 & _).
    destruct (assemble_returns _ _ _ _ _ _ E3) as (ps & -> & Hne & Hps & Hpdf).
    split; [exact Hne|]. split; [exact Hps|].
    rewrite Hpdf. congruence.
  - apply start_failed_result in Hres. subst r. eauto.
Qed.

(** Every service answers: the poster and two scenes give three pages. *)
Lemma start_returns_the_pages_written_witness :
  exists ps w',
    start (sample_backend never image_ok) in_order sample_driver
      (lit "Solar System and Planets") (lit "superhero") 8 25
      (lit "out.pdf") empty_world = (Returned (Images ps), w')
    /\ ps <> []
    /\ ps = surviving_paths (generated_images_paths w')
    /\ pdfs w' = pdfs empty_world ++ [(lit "out.pdf", ps)].
Proof.
  eexists _, _.
  split; [vm_compute; reflexivity|].
  eapply (start_returns_the_pages_written (sample_backend never image_ok)
            in_order sample_driver (lit "Solar System and Planets")
            (lit "superhero") 8 25 (lit "out.pdf") empty_world
            (r := Images _)).
  vm_compute. reflexivity.
Defined.

(** X17. [start] raises only what the caller's progress callback raised:
    every exception of the workflow, of the rendering and of the
    assembly is caught and turned into the returned error text, so that
    [start] always returns when no callback is installed; but the
    callback is called again inside the [except] clause, and what it
    raises there leaves [start]. *)
Theorem start_raises_only_callback_errors (B : Backend) (sched : Scheduler)
    (self : Driver) (user_input customisation : str) (cfg step : Z)
    (output_path : str) (w : World) :
  (forall e w',
      start B sched self user_input customisation cfg step output_path w
      = (Raised e, w') ->
      exists cb n text, update_state self = Some cb /\ cb n text = Some e)
  /\ (update_state self = None ->
      exists r w',
        start B sched self user_input customisation cfg step output_path w
        = (Returned r, w')).
Proof.
  assert (Hraise : forall e w',
    start B sched self user_input customisation cfg step output_path w
    = (Raised e, w') ->
    exists cb n text, update_state self = Some cb /\ cb n text = Some e).
  { intros e w' H. apply start_cases in H.
    destruct H as ([r0|e0] & wb & _ & Hres).
    - destruct Hres as [[=] _].
    - apply start_failed_result in Hres. exact Hres. }
  split; [exact Hraise|].
  intros Hnone.
  destruct (start B sched self user_input customisation cfg step output_path
              w) as [[r|e] w'] eqn:E; [eauto|].
  destruct (Hraise _ _ eq_refl) as (cb & _ & _ & Hcb & _). congruence.
Qed.

(** A callback that always raises: the first progress message raises,
    the [except] clause calls the callback again, and its exception
    leaves [start]. *)
Lemma start_raises_only_callback_errors_witness :
  (exists w',
      start (sample_backend never image_ok) in_order deaf_driver
        (lit "Solar System and Planets") (lit "superhero") 8 25
        (lit "out.pdf") empty_world = (Raised (lit "client gone"), w'))
  /\ (exists cb n text,
         update_state deaf_driver = Some cb
         /\ cb n text = Some (lit "client gone"))
  /\ (exists r w',
         start (sample_backend never image_ok) in_order sample_driver
           (lit "Solar System and Planets") (lit "superhero") 8 25
           (lit "out.pdf") empty_world = (Returned r, w')).
Proof.
  split; [eexists; vm_compute; reflexivity|].
  split.
  - eapply (proj1 (start_raises_only_callback_errors
                     (sample_backend never image_ok) in_order deaf_driver
                     (lit "Solar System and Planets") (lit "superhero") 8 25
                     (lit "out.pdf") empty_world)).
    vm_compute. reflexivity.
  - apply (proj2 (start_raises_only_callback_errors
                    (sample_backend never image_ok) in_order sample_driver
                    (lit "Solar System and Planets") (lit "superhero") 8 25
                    (lit "out.pdf") empty_world)).
    reflexivity.
Defined.

(** X18. A workflow that fails stops [start] at once.  With no progress
    callback installed: when [execute_workflow] raises [e], [start]
    returns the text [Error: e]; when it returns a mapping with the key
    [error] bound to [msg], [start] returns the text [Error: Agentic
    workflow failed: msg]; in both cases the world is left as the
    workflow left it: no image is asked for, no slot and no document is
    written, and no further service is called. *)
Theorem failed_workflow_renders_nothing (B : Backend) (sched : Scheduler)
    (self : Driver) (user_input customisation : str) (cfg step : Z)
    (output_path : str) (w : World) res w1 :
  update_state self = None ->
  MultiStepAgentOrchestrator.execute_workflow B
    (agentic_input self user_input customisation) None w = (res, w1) ->
  match res with
  | Raised e =>
      start B sched self user_input customisation cfg step output_path w
      = (Returned (ErrorText (lit "Error: " ++ e)), w1)
  | Returned wr =>
      forall msg,
        error wr = Some msg ->
        start B sched self user_input customisation cfg step output_path w
        = (Returned
             (ErrorText
                (lit "Error: " ++ lit "Agentic workflow failed: " ++ msg)),
           w1)
  end
  /\ generated_images_paths w1 = generated_images_paths w
  /\ pdfs w1 = pdfs w.
Proof.
  intros Hnone Hrun.
  pose proof (@fixed_execute_workflow B _ _ _ _ _ Hrun) as [F1 F2].
  split; [|split; assumption].
  unfold start, start_failed, printer. rewrite Hnone. cbn [notify].
  unfold try_except, bind, now, ret, raise. cbv beta iota.
  change {| topic := Some user_input;
            visual_style := Some customisation;
            age_group := Some (lit "child");
            language := Some (lang_code self);
            user_id := Some (lit "system");
            educational_content := None;
            characters := None;
            scenes := None;
            similar_content_found := None;
            successful_patterns := None;
            content_analysis := None |}
    with (agentic_input self user_input customisation).
  rewrite Hrun.
  destruct res as [wr|e].
  - intros msg Hmsg. rewrite Hmsg. reflexivity.
  - reflexivity.
Qed.

(** The text service is down when the learning objectives are asked for:
    the second agent fails, and so does the workflow. *)
Lemma failed_workflow_renders_nothing_witness :
  exists wr w1,
    MultiStepAgentOrchestrator.execute_workflow
      (sample_backend_with never objectives_down image_ok)
      (agentic_input sample_driver (lit "Solar System and Planets")
         (lit "superhero")) None empty_world = (Returned wr, w1)
    /\ error wr
       = Some (lit "Educational Planning Agent failed: text service down")
    /\ start (sample_backend_with never objectives_down image_ok) in_order
         sample_driver (lit "Solar System and Planets") (lit "superhero")
         8 25 (lit "out.pdf") empty_world
       = (Returned
            (ErrorText
               (lit "Error: " ++ lit "Agentic workflow failed: "
                ++ lit "Educational Planning Agent failed: text service down")),
          w1)
    /\ pdfs w1 = [].
Proof.
  eexists _, _.
  split; [vm_compute; reflexivity|].
  split; [reflexivity|].
  edestruct (failed_workflow_renders_nothing
               (sample_backend_with never objectives_down image_ok) in_order
               sample_driver (lit "Solar System and Planets")
               (lit "superhero") 8 25 (lit "out.pdf") empty_world)
    as (Hstart & _ & Hpdfs);
    [reflexivity|vm_compute; reflexivity|].
  split; [apply Hstart; reflexivity|exact Hpdfs].
Defined.

Lemma record_image_slot (k : Z) (p : option path) w res w' :
  record_image k p w = (res, w') ->
  dict_get k (generated_images_paths w') = Some p.
Proof.
  unfold record_image. intros [= <- <-].
  cbn [generated_images_paths set_generated_images_paths].
  apply dict_get_set.
Qed.

(** X19. [process_comic_page] never raises, and a path it returns is the
    path it has recorded in the slot of the scene.  The converse fails:
    when the image service gives a path and only the text overlay
    raises, the method returns [None] although the slot of the scene
    holds the path, so the page enters the document without its text. *)
Theorem page_slot_survives_overlay_failure (B : Backend) (self : Driver)
    (scene_data : Scene) (visual_prompt customisation : str) (cfg step : Z)
    (w : World) :
  (exists r w',
      process_comic_page B self scene_data visual_prompt customisation cfg
        step w = (Returned r, w')
      /\ forall p,
           r = Some p ->
           dict_get (get_default (scene_number scene_data) 0)
             (generated_images_paths w') = Some (Some p))
  /\ (imagen_client self = true ->
      update_state self = None ->
      forall p d ds e,
        imagen_generate_comic_panel B (S (calls w)) visual_prompt
          (random_alpha_string B (calls w) 10) customisation
        = Returned (Some p) ->
        dialogues scene_data = Some (d :: ds) ->
        overlay_fault B (S (S (calls w))) = Some e ->
        exists w',
          process_comic_page B self scene_data visual_prompt customisation
            cfg step w = (Returned None, w')
          /\ dict_get (get_default (scene_number scene_data) 0)
               (generated_images_paths w') = Some (Some p)).
Proof.
  split.
  - destruct (process_comic_page B self scene_data visual_prompt
                customisation cfg step w) as [res w'] eqn:E.
    unfold process_comic_page in E.
    apply try_except_cases in E.
    destruct E as [(r & Eb & ->)|(e & wb & Eb & Hh)].
    + exists r, w'. split; [reflexivity|].
      intros p ->.
      destruct (bind_cases _ _ _ Eb)
        as [(image_name & w1 & _ & E1)|(e & _ & [=])].
      destruct (bind_cases _ _ _ E1)
        as [(image_path & w2 & _ & E2)|(e & _ & [=])].
      cbv zeta in E2.
      destruct (bind_cases _ _ _ E2) as [([] & w3 & E3 & E4)|(e & _ & [=])].
      apply record_image_slot in E3.
      destruct (bind_cases _ _ _ E4) as [([] & w4 & E5 & E6)|(e & _ & [=])].
      injection E6 as -> <-.
      assert (G : generated_images_paths w4 = generated_images_paths w3).
      { destruct (get_default (dialogues scene_data) []) as [|d ds].
        - injection E5 as <-. reflexivity.
        - eapply overlay_keeps_slots. exact E5. }
      rewrite G. exact E3.
    + injection Hh as <- <-. exists None, wb.
      split; [reflexivity|]. intros p [=].
  - intros Himg Hnone p d ds e Hpanel Hds Hov.
    unfold process_comic_page, stable_diff, printer.
    rewrite Himg, Hnone, Hds.
    unfold try_except, bind, generate_random_alpha_string, call.
    cbn [calls tick notify]. rewrite Hpanel.
    unfold ret, record_image, add_text_to_image, try_except, bind, effect,
      raise.
    cbn [calls tick set_generated_images_paths generated_images_paths
         get_default].
    rewrite Hov.
    eexists. split; [reflexivity|].
    cbn [generated_images_paths tick set_generated_images_paths].
    apply dict_get_set.
Qed.

(** The image service answers and the bitmap library cannot add the
    text: the page is reported as failed and its image is kept. *)
Lemma page_slot_survives_overlay_failure_witness :
  exists p w',
    imagen_generate_comic_panel no_overlay_backend 1 (lit "panel")
      (random_alpha_string no_overlay_backend 0 10) (lit "superhero")
    = Returned (Some p)
    /\ process_comic_page no_overlay_backend sample_driver
         (hd {| scene_number := None; dialogues := None |} sample_scenes)
         (lit "panel") (lit "superhero") 8 25 empty_world
       = (Returned None, w')
    /\ dict_get 1 (generated_images_paths w') = Some (Some p).
Proof.
  assert (H : exists w',
    process_comic_page no_overlay_backend sample_driver
      (hd {| scene_number := None; dialogues := None |} sample_scenes)
      (lit "panel") (lit "superhero") 8 25 empty_world
    = (Returned None, w')
    /\ dict_get
         (get_default
            (scene_number
               (hd {| scene_number := None; dialogues := None |}
                  sample_scenes)) 0)
         (generated_images_paths w')
       = Some (Some (lit "static/img/comic/" ++ str_of_nat 1 ++ lit ".png"))).
  { eapply (proj2 (page_slot_survives_overlay_failure no_overlay_backend
                     sample_driver
                     (hd {| scene_number := None; dialogues := None |}
                        sample_scenes)
                     (lit "panel") (lit "superhero") 8 25 empty_world));
      reflexivity. }
  destruct H as (w' & Hrun & Hslot).
  exists (lit "static/img/comic/" ++ str_of_nat 1 ++ lit ".png"), w'.
  split; [reflexivity|]. split; [exact Hrun|exact Hslot].
Defined.

(* ===================================================================== *)
(** ** The image service client *)
(* ===================================================================== *)

Lemma first_image_cons_none (part : GoogleImagenClient.Part)
    (rest : list GoogleImagenClient.Part) (data : list N) :
  GoogleImagenClient.inline_data part = None ->
  first_image (part :: rest) data <-> first_image rest data.
Proof.
  intros Hnone. split.
  - intros ([|q pre] & part0 & post & E & Hpre & Hdata).
    + injection E as <- _. congruence.
    + injection E as <- ->. inversion_clear Hpre as [|? ? _ Hpre'].
      exists pre, part0, post. auto.
  - intros (pre & part0 & post & -> & Hpre & Hdata).
    exists (part :: pre), part0, post.
    split; [reflexivity|]. split; [constructor; assumption|exact Hdata].
Qed.

Lemma first_image_cons_some (part : GoogleImagenClient.Part)
    (rest : list GoogleImagenClient.Part) (data0 data : list N) :
  GoogleImagenClient.inline_data part = Some data0 ->
  first_image (part :: rest) data <-> data = data0.
Proof.
  intros Hsome. split.
  - intros ([|q pre] & part0 & post & E & Hpre & Hdata).
    + injection E as <- _. congruence.
    + injection E as <- _. inversion_clear Hpre as [|? ? Hq _]. congruence.
  - intros ->. exists [], part, rest.
    split; [reflexivity|]. split; [constructor|exact Hsome].
Qed.

(** The loop over the parts stops at the first image. *)
Lemma scan_parts_result (pil : GoogleImagenClient.Pillow) (image_name : str)
    (ps : list GoogleImagenClient.Part) (files : GoogleImagenClient.Files)
    res files' :
  GoogleImagenClient.scan_parts pil image_name ps files = (res, files') ->
  match res with
  | Returned p =>
      p = GoogleImagenClient.image_path image_name
      /\ exists data,
           files'
           = files ++ [(GoogleImagenClient.image_path image_name,
                        GoogleImagenClient.ImageFile data)]
           /\ first_image ps data
           /\ GoogleImagenClient.decode_fault pil data = None
  | Raised _ =>
      files' = files
      /\ forall data,
           first_image ps data ->
           GoogleImagenClient.decode_fault pil data <> None
  end.
Proof.
  induction ps as [|part rest IH]; cbn [GoogleImagenClient.scan_parts].
  - intros [= <- <-]. split; [reflexivity|].
    intros data ([|q pre] & part0 & post & E & _); discriminate E.
  - destruct (GoogleImagenClient.inline_data part) as [data0|] eqn:Epart.
    + destruct (GoogleImagenClient.decode_fault pil data0) eqn:Ed;
        intros [= <- <-].
      * split; [reflexivity|]. intros data Hfirst.
        apply (proj1 (@first_image_cons_some part rest data0 data Epart)) in Hfirst.
        subst data. congruence.
      * split; [reflexivity|]. exists data0. split; [reflexivity|].
        split; [|exact Ed].
        apply (proj2 (@first_image_cons_some part rest data0 data0 Epart)). reflexivity.
    + intros H. specialize (IH H). destruct res as [p|e].
      * destruct IH as (Hp & data & Hf & Hfirst & Hd).
        split; [exact Hp|]. exists data. split; [exact Hf|].
        split; [|exact Hd].
        apply (@first_image_cons_none part rest data Epart). exact Hfirst.
      * destruct IH as (Hf & Hno). split; [exact Hf|].
        intros data Hfirst. apply Hno.
        apply (@first_image_cons_none part rest data Epart). exact Hfirst.
Qed.

(** What [generate_image] returns and writes, for any prompt. *)
Lemma generate_image_result
    (api : str -> outcome (list GoogleImagenClient.Candidate))
    (pil : GoogleImagenClient.Pillow) (prompt image_name : str)
    (files : GoogleImagenClient.Files) res files' :
  GoogleImagenClient.generate_image api pil prompt image_name files
  = (res, files') ->
  match res with
  | Returned p =>
      p = GoogleImagenClient.image_path image_name
      /\ exists f,
           files' = files ++ [(GoogleImagenClient.image_path image_name, f)]
           /\ match f with
              | GoogleImagenClient.ImageFile data =>
                  first_image_of_answer (api prompt) data
                  /\ GoogleImagenClient.decode_fault pil data = None
              | GoogleImagenClient.PlaceholderFile text_lines =>
                  text_lines
                  = [lit "Image Generation"; lit "Placeholder";
                     GoogleImagenClient.placeholder_label prompt]
                  /\ forall data,
                       first_image_of_answer (api prompt) data ->
                       GoogleImagenClient.decode_fault pil data <> None
              end
  | Raised e =>
      GoogleImagenClient.placeholder_fault pil = Some e
      /\ files' = files
      /\ forall data,
           first_image_of_answer (api prompt) data ->
           GoogleImagenClient.decode_fault pil data <> None
  end.
Proof.
  unfold GoogleImagenClient.generate_image.
  assert (Hplace :
    (forall data,
        first_image_of_answer (api prompt) data ->
        GoogleImagenClient.decode_fault pil data <> None) ->
    GoogleImagenClient._create_placeholder_image pil image_name prompt files
    = (res, files') ->
    match res with
    | Returned p =>
        p = GoogleImagenClient.image_path image_name
        /\ exists f,
             files'
             = files ++ [(GoogleImagenClient.image_path image_name, f)]
             /\ match f with
                | GoogleImagenClient.ImageFile data =>
                    first_image_of_answer (api prompt) data
                    /\ GoogleImagenClient.decode_fault pil data = None
                | GoogleImagenClient.PlaceholderFile text_lines =>
                    text_lines
                    = [lit "Image Generation"; lit "Placeholder";
                       GoogleImagenClient.placeholder_label prompt]
                    /\ forall data,
                         first_image_of_answer (api prompt) data ->
                         GoogleImagenClient.decode_fault pil data <> None
                end
    | Raised e =>
        GoogleImagenClient.placeholder_fault pil = Some e
        /\ files' = files
        /\ forall data,
             first_image_of_answer (api prompt) data ->
             GoogleImagenClient.decode_fault pil data <> None
    end).
  { intros Hno. unfold GoogleImagenClient._create_placeholder_image.
    destruct (GoogleImagenClient.placeholder_fault pil) as [e|];
      intros [= <- <-].
    - split; [reflexivity|]. split; [reflexivity|exact Hno].
    - split; [reflexivity|]. eexists. split; [reflexivity|].
      split; [reflexivity|exact Hno]. }
  destruct (api prompt) as [[|candidate rest]|e] eqn:Eapi.
  - apply Hplace. intros data (c & r0 & ps & [=] & _).
  - destruct (GoogleImagenClient.parts candidate) as [[|part ps]|] eqn:Eparts.
    + apply Hplace.
      intros data (c & r0 & ps & [= <- <-] & Hps & pre & q & post & E & _).
      rewrite Eparts in Hps. injection Hps as <-.
      destruct pre; discriminate E.
    + destruct (GoogleImagenClient.scan_parts pil image_name (part :: ps)
                  files) as [[p|e] fs] eqn:Escan;
        apply scan_parts_result in Escan.
      * intros [= <- <-].
        destruct Escan as (-> & data & -> & Hfirst & Hdata).
        split; [reflexivity|]. eexists. split; [reflexivity|].
        split; [|exact Hdata].
        exists candidate, rest, (part :: ps). auto.
      * destruct Escan as (-> & Hno). apply Hplace.
        intros data (c & r0 & ps0 & [= <- <-] & Hps & Hfirst).
        rewrite Eparts in Hps. injection Hps as <-.
        apply Hno. exact Hfirst.
    + apply Hplace.
      intros data (c & r0 & ps & [= <- <-] & Hps & _).
      rewrite Eparts in Hps. discriminate Hps.
  - apply Hplace. intros data (c & r0 & ps & [=] & _).
Qed.

(** X20. [GoogleImagenClient.generate_image].  Whatever the service
    answers, the method returns the path [static/img/comic/<name>.png]
    after writing exactly one file there, or it raises what the writing
    of the placeholder raised, and nothing else, with no file written.
    The file is the first image of the answer, that is the bytes of the
    first part with inline data among the parts of the first candidate,
    when these bytes can be decoded; it is the placeholder only when the
    answer has no such image or its first image cannot be decoded, a
    later image not being looked at.  The placeholder shows the prompt
    cut to 30 characters; for a poster these are always the words
    [Create a comic book style post], the start of the text the client
    puts before the prompt, so that the placeholder of a poster shows
    nothing of the prompt. *)
Theorem generate_image_path_or_placeholder
    (api : str -> outcome (list GoogleImagenClient.Candidate))
    (pil : GoogleImagenClient.Pillow) (prompt image_name : str)
    (files : GoogleImagenClient.Files) res files' :
  GoogleImagenClient.generate_image api pil prompt image_name files
  = (res, files') ->
  match res with
  | Returned p =>
      p = GoogleImagenClient.image_path image_name
      /\ exists f,
           files' = files ++ [(GoogleImagenClient.image_path image_name, f)]
           /\ match f with
              | GoogleImagenClient.ImageFile data =>
                  first_image_of_answer (api prompt) data
                  /\ GoogleImagenClient.decode_fault pil data = None
              | GoogleImagenClient.PlaceholderFile text_lines =>
                  text_lines
                  = [lit "Image Generation"; lit "Placeholder";
                     GoogleImagenClient.placeholder_label prompt]
                  /\ forall data,
                       first_image_of_answer (api prompt) data ->
                       GoogleImagenClient.decode_fault pil data <> None
              end
  | Raised e =>
      GoogleImagenClient.placeholder_fault pil = Some e
      /\ files' = files
      /\ forall data,
           first_image_of_answer (api prompt) data ->
           GoogleImagenClient.decode_fault pil data <> None
  end
  /\ (length (GoogleImagenClient.placeholder_label prompt) <= 41)%nat
  /\ (forall p files'',
         GoogleImagenClient.generate_comic_poster api pil prompt image_name
           files = (Returned p, files'') ->
         forall text_lines,
           In (p, GoogleImagenClient.PlaceholderFile text_lines)
             (skipn (length files) files'') ->
           text_lines
           = [lit "Image Generation"; lit "Placeholder";
              lit "Prompt: Create a comic book style post..."]).
Proof.
  intros H.
  split; [exact (generate_image_result _ _ _ _ _ H)|split].
  - unfold GoogleImagenClient.placeholder_label.
    rewrite !length_app, length_firstn. cbn [length lit map
      list_ascii_of_string]. lia.
  - intros p files'' Hposter text_lines Hin.
    unfold GoogleImagenClient.generate_comic_poster in Hposter.
    apply generate_image_result in Hposter.
    destruct Hposter as (_ & f & -> & Hf).
    rewrite skipn_app_exact in Hin.
    destruct Hin as [Hin|[]]. injection Hin as _ ->. apply Hf.
Qed.

(** The answer holds a text and two images: the first image is written,
    the second is not looked at. *)
Example generate_image_first_image_example :
  GoogleImagenClient.generate_image image_answer sample_pillow
    (lit "a red planet") (lit "abc") []
  = (Returned (lit "static/img/comic/abc.png"),
     [(lit "static/img/comic/abc.png",
       GoogleImagenClient.ImageFile [1; 2; 3]%N)])
  /\ first_image_of_answer (image_answer (lit "a red planet")) [1; 2; 3]%N.
Proof.
  split; [reflexivity|].
  eexists _, _, _. split; [reflexivity|]. split; [reflexivity|].
  eexists [_], _, _. split; [reflexivity|].
  split; [repeat constructor|reflexivity].
Qed.

(** The image service is down: the placeholder is written. *)
Lemma generate_image_path_or_placeholder_witness :
  GoogleImagenClient.generate_image api_down sample_pillow
    (lit "a red planet") (lit "abc") []
  = (Returned (lit "static/img/comic/abc.png"),
     [(lit "static/img/comic/abc.png",
       GoogleImagenClient.PlaceholderFile
         [lit "Image Generation"; lit "Placeholder";
          lit "Prompt: a red planet..."])])
  /\ (lit "static/img/comic/abc.png" = GoogleImagenClient.image_path (lit "abc")
      /\ exists f,
           [(lit "static/img/comic/abc.png",
             GoogleImagenClient.PlaceholderFile
               [lit "Image Generation"; lit "Placeholder";
                lit "Prompt: a red planet..."])]
           = [] ++ [(GoogleImagenClient.image_path (lit "abc"), f)]
           /\ match f with
              | GoogleImagenClient.ImageFile data =>
                  first_image_of_answer (api_down (lit "a red planet")) data
                  /\ GoogleImagenClient.decode_fault sample_pillow data
                     = None
              | GoogleImagenClient.PlaceholderFile text_lines =>
                  text_lines
                  = [lit "Image Generation"; lit "Placeholder";
                     GoogleImagenClient.placeholder_label
                       (lit "a red planet")]
                  /\ forall data,
                       first_image_of_answer (api_down (lit "a red planet"))
                         data ->
                       GoogleImagenClient.decode_fault sample_pillow data
                       <> None
              end).
Proof.
  split; [reflexivity|].
  apply (proj1 (generate_image_path_or_placeholder api_down sample_pillow
                  (lit "a red planet") (lit "abc") [] eq_refl)).
Defined.

(* ===================================================================== *)
(** ** The images of the driver *)
(* ===================================================================== *)





(* ===================================================================== *)
(** ** The legacy conversion of a text to a conversation *)
(* ===================================================================== *)




